(* ===================================================================== *)
(* MongoDB subprocess manager (src/impulse/mongodb_subprocess.ts)        *)
(*                                                                       *)
(* A shallow embedding of class MongoDBSubprocess.  The class runs on    *)
(* Node's single-threaded event loop: every method body and every        *)
(* listener runs to completion, and the only nondeterminism is the       *)
(* order in which the environment delivers events.  The embedding        *)
(* therefore is                                                          *)
(*   - a record [World] holding the instance fields (this.process,       *)
(*     this.config, this.isRunning, this.startupPromise) together with   *)
(*     the runtime objects the class creates (promises, timers, child    *)
(*     processes, probe servers, directories);                           *)
(*   - one function per method, closure or listener of the source;       *)
(*   - a type [Event] of what the environment can do next, and a         *)
(*     partial function [step] that runs the listeners of an event.      *)
(*                                                                       *)
(* Conventions of the embedding:                                         *)
(*   - objects are indices into the lists of [World]; a new object gets  *)
(*     the next free index, and an index is never reused;                *)
(*   - a promise records its state and the number of calls of its        *)
(*     resolve/reject functions;                                         *)
(*   - the promise of an async _start call also stands for the promise   *)
(*     awaited on line 60 and for the promise made on line 82: the       *)
(*     first follows the others, so one index denotes all three, and     *)
(*     the microtask hops between them are part of the event that        *)
(*     settles them;                                                     *)
(*   - paths are POSIX paths without symbolic links; a path exists     *)
(*     when it is the working directory, a directory of the host, a      *)
(*     directory the class has made, or an ancestor of one of these;     *)
(*   - an exception of fs.mkdirSync or spawn is an event of its own      *)
(*     ([ResumeThrows]); a spawn failure that Node reports through the   *)
(*     child is the error event of the child; the text of the error      *)
(*     that server.listen throws for a port outside 0..65535 is the      *)
(*     host's;                                                           *)
(*   - real time is the order of events: a timer is the event of its     *)
(*     firing, which can happen while the timer is pending.              *)
(* ===================================================================== *)

From Stdlib Require Import ZArith String Ascii Bool Lia DecimalString.
From stdpp Require Import base option list.

Open Scope string_scope.

(* --------------------------------------------------------------------- *)
(* JavaScript and Node primitives used by the class                      *)
(* --------------------------------------------------------------------- *)
Module JS.

(* A JavaScript number.  The class only compares numbers with undefined
   and falsiness and prints them; they are modelled on their integer
   values, an integer that is no double standing for the double nearest
   to it, as a numeric literal does.  NaN and fractions are outside the
   model. *)
Definition number := Z.

(* The decimal numeral of a non-negative integer. *)
Definition decimal (x : Z) : string :=
  NilZero.string_of_int (Z.to_int x).

Definition digits (x : Z) : Z := Z.of_nat (String.length (decimal x)).

(* The Number value of a non-negative integer x (IEEE 754 binary64,
   round to nearest, ties to even): x itself below 2^53, otherwise x
   with its 53 leading bits kept and the rest rounded. *)
Definition round_to_double (x : Z) : Z :=
  let b := Z.log2 x in
  if (b <? 53)%Z then x
  else
    let sh := (b - 52)%Z in
    let q := Z.shiftr x sh in
    let r := (x - Z.shiftl q sh)%Z in
    let half := Z.shiftl 1 (sh - 1) in
    let q' := if (half <? r)%Z || ((r =? half)%Z && Z.odd q)
              then (q + 1)%Z else q in
    Z.shiftl q' sh.

(* Number::toString, step 5: the digits s, their number k and the
   exponent n with s * 10^(n-k) of Number value x, k as small as
   possible and s as near to x as possible; x is a double with e
   decimal digits, the search starts at k digits, and [fuel] bounds the
   digits still to try (e of them are always enough). *)
Fixpoint shortest_digits (fuel : nat) (k x e : Z) : Z * Z * Z :=
  match fuel with
  | O => (x, e, e)
  | S fuel' =>
      if (e <=? k)%Z then (x, e, e)
      else
        let scale := (10 ^ (e - k))%Z in
        let s0 := (x / scale)%Z in
        let s1 := (s0 + 1)%Z in
        let ok0 := (round_to_double (s0 * scale) =? x)%Z in
        let ok1 := (round_to_double (s1 * scale) =? x)%Z in
        let d0 := (x - s0 * scale)%Z in
        let d1 := (s1 * scale - x)%Z in
        let up := if (s1 =? 10 ^ k)%Z then (1, 1, e + 1)%Z else (s1, k, e) in
        if ok0 && ok1
        then if (d0 <? d1)%Z || ((d0 =? d1)%Z && Z.even s0)
             then (s0, k, e) else up
        else if ok0 then (s0, k, e)
        else if ok1 then up
        else shortest_digits fuel' (k + 1)%Z x e
  end.

Fixpoint zeros (n : nat) : string :=
  match n with O => "" | S n' => String "0" (zeros n') end.

(* Number::toString, steps 6-10, for a value without fraction. *)
Definition number_format (s k n : Z) : string :=
  if (n <=? 21)%Z then decimal s ++ zeros (Z.to_nat (n - k))
  else
    match decimal s with
    | EmptyString => EmptyString
    | String c EmptyString => String c ("e+" ++ decimal (n - 1))
    | String c rest => String c ("." ++ rest ++ "e+" ++ decimal (n - 1))
    end.

(* String(n) and `${n}` for an integer n. *)
Definition String_ (n : number) : string :=
  if (n =? 0)%Z then "0"
  else
    let sign := if (n <? 0)%Z then "-" else "" in
    let x := round_to_double (Z.abs n) in
    if (x <? 2 ^ 1024)%Z
    then
      let '(s, k, e) :=
        shortest_digits (String.length (decimal x)) 1 x (digits x) in
      sign ++ number_format s k e
    else sign ++ "Infinity".

(* `${code}` for code : number | null. *)
Definition String_or_null (c : option number) : string :=
  match c with Some n => String_ n | None => "null" end.

(* a || b on optional strings: undefined and the empty string are falsy. *)
Definition or_string (a : option string) (b : string) : string :=
  match a with
  | Some s => if String.eqb s "" then b else s
  | None => b
  end.

(* a || b on optional numbers: undefined and 0 are falsy. *)
Definition or_number (a : option number) (b : number) : number :=
  match a with
  | Some n => if Z.eqb n 0 then b else n
  | None => b
  end.

(* s.includes(pat): pat occurs in s as a contiguous substring.  The
   patterns of the class are ASCII, so matching the bytes of the chunk
   agrees with matching its decoding. *)
Fixpoint includes (s pat : string) : bool :=
  String.prefix pat s ||
  match s with
  | EmptyString => false
  | String _ s' => includes s' pat
  end.

(* The pieces of a path between its separators. *)
Fixpoint split_slash (s : string) : list string :=
  match s with
  | EmptyString => [EmptyString]
  | String c s' =>
      if Ascii.eqb c "/"%char then EmptyString :: split_slash s'
      else match split_slash s' with
           | seg :: rest => String c seg :: rest
           | [] => [String c EmptyString]
           end
  end.

(* normalizeString of Node's lib/path.js on the pieces of a path: empty
   pieces and "." are dropped, ".." removes the piece before it, and
   above the top it is kept only in a relative path.  [res] holds the
   result so far, last piece first. *)
Fixpoint normalize_segments (allowAboveRoot : bool) (segs res : list string)
  : list string :=
  match segs with
  | [] => res
  | seg :: segs' =>
      if String.eqb seg "" || String.eqb seg "."
      then normalize_segments allowAboveRoot segs' res
      else if String.eqb seg ".."
      then match res with
           | last :: res' =>
               if String.eqb last ".."
               then normalize_segments allowAboveRoot segs'
                      (if allowAboveRoot then ".." :: res else res)
               else normalize_segments allowAboveRoot segs' res'
           | [] =>
               normalize_segments allowAboveRoot segs'
                 (if allowAboveRoot then [".."] else [])
           end
      else normalize_segments allowAboveRoot segs' (seg :: res)
  end.

Fixpoint ends_with_slash (s : string) : bool :=
  match s with
  | EmptyString => false
  | String c EmptyString => Ascii.eqb c "/"%char
  | String _ s' => ends_with_slash s'
  end.

(* path.normalize (POSIX). *)
Definition path_normalize (p : string) : string :=
  if String.eqb p "" then "."
  else
    let isAbsolute := String.prefix "/" p in
    let trailingSeparator := ends_with_slash p in
    let body := String.concat "/"
                  (List.rev (normalize_segments (negb isAbsolute)
                               (split_slash p) [])) in
    if String.eqb body ""
    then if isAbsolute then "/" else if trailingSeparator then "./" else "."
    else (if isAbsolute then "/" else "") ++ body
         ++ (if trailingSeparator then "/" else "").

(* path.join (POSIX): the non-empty arguments joined by "/", normalised. *)
Definition path_join (segments : list string) : string :=
  match List.filter (λ s, negb (String.eqb s "")) segments with
  | [] => "."
  | parts => path_normalize (String.concat "/" parts)
  end.

(* The pieces of the absolute path that p names in the working directory
   cwd. *)
Definition path_segments (cwd p : string) : list string :=
  List.rev (normalize_segments false
              (split_slash (if String.prefix "/" p then p else cwd ++ "/" ++ p))
              []).

Fixpoint is_prefix_of (l1 l2 : list string) : bool :=
  match l1, l2 with
  | [], _ => true
  | a :: l1', b :: l2' => String.eqb a b && is_prefix_of l1' l2'
  | _ :: _, [] => false
  end.

(* A name of a directory entry: not empty, without separator, and neither
   "." nor "..". *)
Definition plain_segment (s : string) : bool :=
  negb (String.eqb s "") && negb (includes s "/")
  && negb (String.eqb s ".") && negb (String.eqb s "..").

(* path.dirname (POSIX): the scan runs from the last character down to
   index 1, skips trailing separators and stops at the first separator
   that follows a name. [dirname_end rev matched] takes the characters
   of path[1..] in reverse; the index of the head is [length rev]. *)
Fixpoint dirname_end (rev : list ascii) (matchedSlash : bool) : option nat :=
  match rev with
  | [] => None
  | c :: rev' =>
      if Ascii.eqb c "/"%char
      then if matchedSlash then dirname_end rev' matchedSlash
           else Some (length rev)
      else dirname_end rev' false
  end.

Definition path_dirname (p : string) : string :=
  match p with
  | EmptyString => "."
  | String c0 rest =>
      let hasRoot := Ascii.eqb c0 "/"%char in
      match dirname_end (List.rev (list_ascii_of_string rest)) true with
      | None => if hasRoot then "/" else "."
      | Some e => if hasRoot && Nat.eqb e 1 then "//" else String.substring 0 e p
      end
  end.

(* A promise: its state, and how many times its resolve or reject
   function has been called (only the first call has an effect). *)
Inductive PromiseState :=
| Pending
| Fulfilled
| Rejected (message : string).

Record Promise := mkPromise {
  p_state : PromiseState;
  p_settle_calls : nat;
}.

Definition new_promise : Promise := mkPromise Pending 0.

Definition settle (o : PromiseState) (p : Promise) : Promise :=
  mkPromise (match p_state p with Pending => o | st => st end)
            (S (p_settle_calls p)).

(* What an async method hands back: it either returned without a value
   (the caller's promise is fulfilled at once) or returned a promise,
   whose outcome the caller's promise takes over. *)
Inductive Returned :=
| Undefined
| ThePromise (id : nat).

Inductive Signal := SIGTERM | SIGKILL.

End JS.
Export JS.

(* --------------------------------------------------------------------- *)
(* Configuration (lines 15-40)                                           *)
(* --------------------------------------------------------------------- *)

(* interface MongoSubprocessConfig: what the caller passes in. *)
Record MongoSubprocessConfig := mkMongoSubprocessConfig {
  in_enabled : bool;
  in_mongodPath : option string;
  in_dbPath : option string;
  in_port : option number;
  in_logPath : option string;
  in_wiredTigerCacheSizeGB : option number;
}.

(* interface SubprocessConfig: what this.config holds.  The declared type
   makes every field required, but the object literal of the constructor
   has no wiredTigerCacheSizeGB property, so that field reads undefined. *)
Record SubprocessConfig := mkSubprocessConfig {
  mongodPath : string;
  dbPath : string;
  port : number;
  logPath : string;
  enabled : bool;
  wiredTigerCacheSizeGB : option number;
}.

(* The object literal of lines 33-39; cwd is process.cwd(). *)
Definition resolve_config (cwd : string) (config : MongoSubprocessConfig)
  : SubprocessConfig :=
  {| mongodPath := or_string (in_mongodPath config) "mongod";
     dbPath := or_string (in_dbPath config) (path_join [cwd; ".mongodb-data"]);
     port := or_number (in_port config) 27017%Z;
     logPath := or_string (in_logPath config)
                  (path_join [cwd; "logs"; "mongodb.log"]);
     enabled := in_enabled config;
     wiredTigerCacheSizeGB := None |}.

(* The argument array of lines 71-80. *)
Definition spawn_args (config : SubprocessConfig) : list string :=
  let args := [ "--dbpath"; dbPath config;
                "--port"; String_ (port config);
                "--logpath"; logPath config;
                "--bind_ip"; "127.0.0.1" ] in
  match wiredTigerCacheSizeGB config with
  | Some gb => args ++ [ "--wiredTigerCacheSizeGB"; String_ gb ]
  | None => args
  end.

(* --------------------------------------------------------------------- *)
(* Runtime objects                                                       *)
(* --------------------------------------------------------------------- *)

(* The two setTimeout callbacks of the class. *)
Inductive TimerCallback :=
| StartupTimeout (pid : nat)       (* lines 136-138, closure of child pid *)
| StopGrace (stopPromise : nat).   (* lines 148-153, resolve of that stop() *)

Record Timer := mkTimer {
  t_ms : Z;
  t_callback : TimerCallback;
  t_pending : bool;                (* neither fired nor cleared *)
}.

(* A ChildProcess object with what its listeners close over.  The
   listeners of lines 110-134 share the variables [resolved] and
   [startupTimeout] and the resolve/reject pair of the promise of their
   startup attempt; each once('exit') listener of stop() (line 155)
   closes over the grace timer and the resolve of its own promise. *)
Record ChildProcess := mkChildProcess {
  cp_file : string;
  cp_args : list string;
  cp_kill_calls : list Signal;     (* kill(signal) calls, oldest first *)
  cp_exited : bool;                (* 'exit' has been emitted *)
  cl_resolved : bool;
  cl_startupTimeout : option nat;
  cl_promise : nat;
  cp_once_exit : list (nat * nat); (* (timeout, stop promise), oldest first *)
}.

(* The net.Server of checkPortAvailable with the promise of the _start
   call that awaits it. *)
Inductive ServerState := Binding | Closing | Closed | Failed.

Record Server := mkServer {
  sv_host : string;
  sv_port : number;
  sv_state : ServerState;
  sv_awaiter : nat;
}.

(* The host the controller runs on: the working directory of the process,
   the directories that exist when the controller is constructed, and
   the text that Node puts before and after the port in the message of
   the RangeError (ERR_SOCKET_BAD_PORT) that server.listen throws for a
   port outside 0..65535. *)
Record Host := mkHost {
  cwd : string;
  existing_directories : list string;
  bad_port_prefix : string;
  bad_port_suffix : string;
}.

Definition bad_port_message (host : Host) (port : number) : string :=
  bad_port_prefix host ++ String_ port ++ bad_port_suffix host.

Record World := mkWorld {
  this_process : option nat;
  this_config : SubprocessConfig;
  this_isRunning : bool;
  this_startupPromise : option nat;
  promises : list Promise;
  timers : list Timer;
  children : list ChildProcess;
  servers : list Server;
  directories : list string;
  runtime : Host;
}.

Definition set_process (v : option nat) (w : World) : World :=
  mkWorld v (this_config w) (this_isRunning w) (this_startupPromise w)
          (promises w) (timers w) (children w) (servers w) (directories w)
          (runtime w).

Definition set_isRunning (v : bool) (w : World) : World :=
  mkWorld (this_process w) (this_config w) v (this_startupPromise w)
          (promises w) (timers w) (children w) (servers w) (directories w)
          (runtime w).

Definition set_startupPromise (v : option nat) (w : World) : World :=
  mkWorld (this_process w) (this_config w) (this_isRunning w) v
          (promises w) (timers w) (children w) (servers w) (directories w)
          (runtime w).

Definition set_promises (v : list Promise) (w : World) : World :=
  mkWorld (this_process w) (this_config w) (this_isRunning w)
          (this_startupPromise w) v (timers w) (children w) (servers w)
          (directories w) (runtime w).

Definition set_timers (v : list Timer) (w : World) : World :=
  mkWorld (this_process w) (this_config w) (this_isRunning w)
          (this_startupPromise w) (promises w) v (children w) (servers w)
          (directories w) (runtime w).

Definition set_children (v : list ChildProcess) (w : World) : World :=
  mkWorld (this_process w) (this_config w) (this_isRunning w)
          (this_startupPromise w) (promises w) (timers w) v (servers w)
          (directories w) (runtime w).

Definition set_servers (v : list Server) (w : World) : World :=
  mkWorld (this_process w) (this_config w) (this_isRunning w)
          (this_startupPromise w) (promises w) (timers w) (children w) v
          (directories w) (runtime w).

Definition set_directories (v : list string) (w : World) : World :=
  mkWorld (this_process w) (this_config w) (this_isRunning w)
          (this_startupPromise w) (promises w) (timers w) (children w)
          (servers w) v (runtime w).

(* new Promise(...): the new promise is the next free index. *)
Definition Promise_new (w : World) : nat * World :=
  (length (promises w), set_promises (promises w ++ [new_promise]) w).

Definition call_resolve (p : nat) (w : World) : World :=
  set_promises (alter (settle Fulfilled) p (promises w)) w.

Definition call_reject (p : nat) (message : string) (w : World) : World :=
  set_promises (alter (settle (Rejected message)) p (promises w)) w.

Definition setTimeout (cb : TimerCallback) (ms : Z) (w : World) : nat * World :=
  (length (timers w), set_timers (timers w ++ [mkTimer ms cb true]) w).

Definition timer_off (t : Timer) : Timer :=
  mkTimer (t_ms t) (t_callback t) false.

Definition clearTimeout (t : nat) (w : World) : World :=
  set_timers (alter timer_off t (timers w)) w.

Definition alter_child (f : ChildProcess → ChildProcess) (pid : nat) (w : World)
  : World :=
  set_children (alter f pid (children w)) w.

Definition child_kill (sig : Signal) (c : ChildProcess) : ChildProcess :=
  mkChildProcess (cp_file c) (cp_args c) (cp_kill_calls c ++ [sig])
    (cp_exited c) (cl_resolved c) (cl_startupTimeout c) (cl_promise c)
    (cp_once_exit c).

Definition child_exit (c : ChildProcess) : ChildProcess :=
  mkChildProcess (cp_file c) (cp_args c) (cp_kill_calls c) true
    (cl_resolved c) (cl_startupTimeout c) (cl_promise c) [].

Definition child_set_resolved (c : ChildProcess) : ChildProcess :=
  mkChildProcess (cp_file c) (cp_args c) (cp_kill_calls c) (cp_exited c)
    true (cl_startupTimeout c) (cl_promise c) (cp_once_exit c).

Definition child_set_startupTimeout (t : nat) (c : ChildProcess) : ChildProcess :=
  mkChildProcess (cp_file c) (cp_args c) (cp_kill_calls c) (cp_exited c)
    (cl_resolved c) (Some t) (cl_promise c) (cp_once_exit c).

Definition child_once_exit (l : nat * nat) (c : ChildProcess) : ChildProcess :=
  mkChildProcess (cp_file c) (cp_args c) (cp_kill_calls c) (cp_exited c)
    (cl_resolved c) (cl_startupTimeout c) (cl_promise c) (cp_once_exit c ++ [l]).

(* process.kill(signal) on the ChildProcess object pid. *)
Definition kill (pid : nat) (sig : Signal) (w : World) : World :=
  alter_child (child_kill sig) pid w.

(* spawn(file, args, ...) inside the executor of the promise p: the new
   object starts with resolved = false and startupTimeout unassigned. *)
Definition spawn (file : string) (args : list string) (p : nat) (w : World)
  : nat * World :=
  (length (children w),
   set_children
     (children w ++ [mkChildProcess file args [] false false None p []]) w).

Definition server_set_state (st : ServerState) (s : Server) : Server :=
  mkServer (sv_host s) (sv_port s) st (sv_awaiter s).

(* q is p or an ancestor of p. *)
Definition is_ancestor_or_self (w : World) (q p : string) : bool :=
  is_prefix_of (path_segments (cwd (runtime w)) q)
               (path_segments (cwd (runtime w)) p).

(* fs.existsSync(p): p is the working directory, a directory on record,
   or an ancestor of one of them; the empty path does not exist. *)
Definition existsSync (p : string) (w : World) : bool :=
  negb (String.eqb p "")
  && existsb (is_ancestor_or_self w p) (cwd (runtime w) :: directories w).

(* fs.mkdirSync(p, {recursive: true}) when it returns: p is put on
   record, and with it the ancestors of p exist. *)
Definition mkdirSync (p : string) (w : World) : World :=
  set_directories (p :: directories w) w.

(* fs.mkdirSync(p, {recursive: true}) when it throws: it may have made
   an ancestor q of p that did not exist ([made] is Some q), or nothing.
   None when the call cannot have gone this way. *)
Definition mkdirSync_throws (p : string) (made : option string) (w : World)
  : option World :=
  match made with
  | None => Some w
  | Some q =>
      if is_ancestor_or_self w q p && negb (is_ancestor_or_self w p q)
         && negb (String.eqb q "") && negb (existsSync q w)
      then Some (mkdirSync q w)
      else None
  end.

(* --------------------------------------------------------------------- *)
(* class MongoDBSubprocess                                               *)
(* --------------------------------------------------------------------- *)

(* constructor (lines 32-40) with the field initialisers of lines 27-30. *)
Definition constructor (host : Host) (config : MongoSubprocessConfig) : World :=
  {| this_process := None;
     this_config := resolve_config (cwd host) config;
     this_isRunning := false;
     this_startupPromise := None;
     promises := [];
     timers := [];
     children := [];
     servers := [];
     directories := existing_directories host;
     runtime := host |}.

(* stop() (lines 142-165). *)
Definition stop (w : World) : Returned * World :=
  match this_process w with
  | None => (Undefined, w)
  | Some pid =>
      if negb (this_isRunning w) then (Undefined, w)
      else
        let (sp, w1) := Promise_new w in
        let (timeout, w2) := setTimeout (StopGrace sp) 5000 w1 in
        let w3 := alter_child (child_once_exit (timeout, sp)) pid w2 in
        let w4 := kill pid SIGTERM w3 in
        (ThePromise sp, w4)
  end.

(* The callback of the setTimeout of lines 148-153. *)
Definition stop_timeout (sp : nat) (w : World) : World :=
  let w1 := match this_process w with
            | Some pid => kill pid SIGKILL w
            | None => w
            end in
  call_resolve sp w1.

(* The once('exit') listener of lines 155-161. *)
Definition stop_on_exit (l : nat * nat) (w : World) : World :=
  let w1 := clearTimeout (fst l) w in
  let w2 := set_isRunning false w1 in
  let w3 := set_process None w2 in
  let w4 := set_startupPromise None w3 in
  call_resolve (snd l) w4.

(* cleanup (lines 90-92) in the closure of child pid. *)
Definition cleanup (pid : nat) (w : World) : World :=
  match children w !! pid with
  | Some c =>
      match cl_startupTimeout c with
      | Some t => clearTimeout t w
      | None => w
      end
  | None => w
  end.

(* doResolve (lines 94-100). *)
Definition doResolve (pid : nat) (w : World) : World :=
  match children w !! pid with
  | Some c =>
      if cl_resolved c then w
      else
        let w1 := alter_child child_set_resolved pid w in
        let w2 := cleanup pid w1 in
        let w3 := set_isRunning true w2 in
        call_resolve (cl_promise c) w3
  | None => w
  end.

(* doReject (lines 102-108); the promise of this.stop() is dropped. *)
Definition doReject (pid : nat) (message : string) (w : World) : World :=
  match children w !! pid with
  | Some c =>
      if cl_resolved c then w
      else
        let w1 := alter_child child_set_resolved pid w in
        let w2 := cleanup pid w1 in
        let w3 := snd (stop w2) in
        call_reject (cl_promise c) message w3
  | None => w
  end.

(* The test of lines 112 and 119. *)
Definition has_marker (output : string) : bool :=
  includes output "Waiting for connections"
  || includes output "waiting for connections".

(* The 'data' listeners of stdout (lines 110-115) and stderr (117-122). *)
Definition on_stdout_data (pid : nat) (data : string) (w : World) : World :=
  if has_marker data then doResolve pid w else w.

Definition on_stderr_data (pid : nat) (data : string) (w : World) : World :=
  if has_marker data then doResolve pid w else w.

(* The 'error' listener (lines 124-126). *)
Definition on_error (pid : nat) (message : string) (w : World) : World :=
  doReject pid ("Failed to start MongoDB subprocess: " ++ message) w.

(* The 'exit' listener (lines 128-134). *)
Definition on_exit (pid : nat) (code : option number) (w : World) : World :=
  let w1 := set_isRunning false w in
  let w2 := set_process None w1 in
  match children w2 !! pid with
  | Some c =>
      if cl_resolved c then w2
      else doReject pid ("MongoDB subprocess exited with code "
                         ++ String_or_null code ++ " before starting") w2
  | None => w2
  end.

(* The callback of the setTimeout of lines 136-138. *)
Definition on_startup_timeout (pid : nat) (w : World) : World :=
  doReject pid "MongoDB subprocess startup timeout (30s)" w.

(* _start after the await of line 60 (lines 62-139); p is the promise of
   this _start call, which takes over the promise made on line 82. *)
Definition _start_resume (p : nat) (w : World) : World :=
  let config := this_config w in
  let w1 := if existsSync (dbPath config) w then w
            else mkdirSync (dbPath config) w in
  let logDir := path_dirname (logPath config) in
  let w2 := if existsSync logDir w1 then w1 else mkdirSync logDir w1 in
  let args := spawn_args config in
  let (pid, w3) := spawn (mongodPath config) args p w2 in
  let w4 := set_process (Some pid) w3 in
  let (startupTimeout, w5) := setTimeout (StartupTimeout pid) 30000 w4 in
  alter_child (child_set_startupTimeout startupTimeout) pid w5.

(* The ports server.listen accepts (validatePort of Node). *)
Definition valid_port (port : number) : bool :=
  (0 <=? port)%Z && (port <? 65536)%Z.

(* What can throw in _start after the await of line 60, and what a
   throwing mkdirSync had made by then. *)
Inductive ThrowSite :=
| AtMkdirDb (made : option string)     (* fs.mkdirSync of line 63 *)
| AtMkdirLog (made : option string)    (* fs.mkdirSync of line 68 *)
| AtSpawn.                             (* spawn of line 83 *)

(* _start after the await of line 60 when it throws at [site] with an
   error of this message: the directories made so far stay, nothing is
   spawned and no listener or timer is set up; the promise of this _start
   call is rejected with the error (an exception of the async body, or of
   the executor of line 82).  None when the code does not come by that
   site. *)
Definition _start_throws (p : nat) (site : ThrowSite) (message : string)
  (w : World) : option World :=
  let config := this_config w in
  let logDir := path_dirname (logPath config) in
  match site with
  | AtMkdirDb made =>
      if existsSync (dbPath config) w then None
      else w1 ← mkdirSync_throws (dbPath config) made w;
           Some (call_reject p message w1)
  | AtMkdirLog made =>
      let w1 := if existsSync (dbPath config) w then w
                else mkdirSync (dbPath config) w in
      if existsSync logDir w1 then None
      else w2 ← mkdirSync_throws logDir made w1;
           Some (call_reject p message w2)
  | AtSpawn =>
      let w1 := if existsSync (dbPath config) w then w
                else mkdirSync (dbPath config) w in
      let w2 := if existsSync logDir w1 then w1 else mkdirSync logDir w1 in
      Some (call_reject p message w2)
  end.

(* checkPortAvailable up to server.listen (lines 175-195), called from the
   _start whose promise is p.  For a port outside 0..65535 listen throws
   inside the executor of the promise: the promise is rejected with that
   error and the server never emits an event. *)
Definition checkPortAvailable (port : number) (p : nat) (w : World) : World :=
  if valid_port port
  then set_servers (servers w ++ [mkServer "127.0.0.1" port Binding p]) w
  else call_reject p (bad_port_message (runtime w) port)
         (set_servers (servers w ++ [mkServer "127.0.0.1" port Failed p]) w).

(* The 'error' listener of the probe (lines 179-185): the message the
   awaiting _start is rejected with. *)
Definition port_error_message (port : number) (code message : string) : string :=
  if String.eqb code "EADDRINUSE"
  then "Port " ++ String_ port
       ++ " is already in use. Cannot start MongoDB subprocess."
  else "Port check failed: " ++ message.

(* _start up to the await of line 60 (lines 55-60). *)
Definition _start (w : World) : nat * World :=
  let (p, w1) := Promise_new w in
  if this_isRunning w1 then (p, call_resolve p w1)
  else (p, checkPortAvailable (port (this_config w1)) p w1).

(* start() (lines 42-53). *)
Definition start (w : World) : Returned * World :=
  if negb (enabled (this_config w)) then (Undefined, w)
  else
    match this_startupPromise w with
    | Some p => (ThePromise p, w)
    | None =>
        let (p, w1) := _start w in
        (ThePromise p, set_startupPromise (Some p) w1)
    end.

(* getConnectionUri() (lines 167-169). *)
Definition getConnectionUri (w : World) : string :=
  "mongodb://127.0.0.1:" ++ String_ (port (this_config w)).

(* isProcessRunning() (lines 171-173). *)
Definition isProcessRunning (w : World) : bool := this_isRunning w.

(* --------------------------------------------------------------------- *)
(* The event loop                                                        *)
(* --------------------------------------------------------------------- *)

Inductive Event :=
| CallStart
| CallStop
| ServerListening (sid : nat)
| ServerClosed (sid : nat)
| ServerError (sid : nat) (code message : string)
| StdoutData (pid : nat) (data : string)
| StderrData (pid : nat) (data : string)
| ProcessError (pid : nat) (message : string)
| ProcessExit (pid : nat) (code : option number)
| TimerFire (t : nat)
| ResumeThrows (sid : nat) (site : ThrowSite) (message : string).

Definition run_timer (cb : TimerCallback) (w : World) : World :=
  match cb with
  | StartupTimeout pid => on_startup_timeout pid w
  | StopGrace sp => stop_timeout sp w
  end.

(* emit('exit') on child pid: the listener of _start runs first, then the
   once-listeners that stop() had added before the event, oldest first. *)
Definition emit_exit (pid : nat) (code : option number) (c : ChildProcess)
  (w : World) : World :=
  let w1 := alter_child child_exit pid w in
  let w2 := on_exit pid code w1 in
  foldl (λ acc l, stop_on_exit l acc) w2 (cp_once_exit c).

(* One turn of the event loop; None when the event cannot occur (a timer
   that was cleared or has fired, a process that has exited, a server in
   another state, an object that does not exist). *)
Definition step (w : World) (e : Event) : option World :=
  match e with
  | CallStart => Some (snd (start w))
  | CallStop => Some (snd (stop w))
  | ServerListening sid =>
      match servers w !! sid with
      | Some s =>
          match sv_state s with
          | Binding =>
              Some (set_servers (alter (server_set_state Closing) sid (servers w)) w)
          | _ => None
          end
      | None => None
      end
  | ServerClosed sid =>
      match servers w !! sid with
      | Some s =>
          match sv_state s with
          | Closing =>
              Some (_start_resume (sv_awaiter s)
                      (set_servers (alter (server_set_state Closed) sid (servers w)) w))
          | _ => None
          end
      | None => None
      end
  | ServerError sid code message =>
      match servers w !! sid with
      | Some s =>
          match sv_state s with
          | Binding =>
              Some (call_reject (sv_awaiter s)
                      (port_error_message (sv_port s) code message)
                      (set_servers (alter (server_set_state Failed) sid (servers w)) w))
          | _ => None
          end
      | None => None
      end
  | StdoutData pid data =>
      match children w !! pid with
      | Some _ => Some (on_stdout_data pid data w)
      | None => None
      end
  | StderrData pid data =>
      match children w !! pid with
      | Some _ => Some (on_stderr_data pid data w)
      | None => None
      end
  | ProcessError pid message =>
      match children w !! pid with
      | Some _ => Some (on_error pid message w)
      | None => None
      end
  | ProcessExit pid code =>
      match children w !! pid with
      | Some c => if cp_exited c then None else Some (emit_exit pid code c w)
      | None => None
      end
  | TimerFire t =>
      match timers w !! t with
      | Some tm =>
          if t_pending tm
          then Some (run_timer (t_callback tm) (clearTimeout t w))
          else None
      | None => None
      end
  | ResumeThrows sid site message =>
      match servers w !! sid with
      | Some s =>
          match sv_state s with
          | Closing =>
              _start_throws (sv_awaiter s) site message
                (set_servers (alter (server_set_state Closed) sid (servers w)) w)
          | _ => None
          end
      | None => None
      end
  end.

Fixpoint run (w : World) (es : list Event) : option World :=
  match es with
  | [] => Some w
  | e :: es' =>
      match step w e with
      | Some w' => run w' es'
      | None => None
      end
  end.

(* The promise an index denotes, and its state. *)
Definition promise_state (w : World) (p : nat) : option PromiseState :=
  p_state <$> promises w !! p.

(* --------------------------------------------------------------------- *)
(* Sample inputs                                                         *)
(* --------------------------------------------------------------------- *)

(* The message of the RangeError is the one of Node 20. *)
Definition sample_host : Host :=
  mkHost "/srv/ps" []
    "options.port should be >= 0 and < 65536. Received type number (" ").".

(* { enabled: true, wiredTigerCacheSizeGB: 1 } *)
Definition sample_config : MongoSubprocessConfig :=
  mkMongoSubprocessConfig true None None None None (Some 1%Z).

(* start(), the probe binds and is closed, the child is spawned. *)
Definition spawned : list Event :=
  [CallStart; ServerListening 0; ServerClosed 0].

(* ... and the child reports readiness on stdout. *)
Definition started : list Event :=
  spawned ++ [StdoutData 0 "[initandlisten] waiting for connections on port 27017"].

(* --------------------------------------------------------------------- *)
(* The spec's reading of the readiness test                              *)
(* --------------------------------------------------------------------- *)

Definition lower_ascii (c : ascii) : ascii :=
  let n := nat_of_ascii c in
  if Nat.leb 65 n && Nat.leb n 90 then ascii_of_nat (n + 32) else c.

Fixpoint lowercase (s : string) : string :=
  match s with
  | EmptyString => EmptyString
  | String c s' => String (lower_ascii c) (lowercase s')
  end.

(* "case-insensitive match on a fixed phrase": the phrase occurs in the
   chunk once letter case is ignored. *)
Definition includes_ignoring_case (s pat : string) : bool :=
  includes (lowercase s) (lowercase pat).

(* --------------------------------------------------------------------- *)
(* Invariants of the worlds a controller can reach                       *)
(* --------------------------------------------------------------------- *)

(* The probe has not yet reported back to its _start. *)
Definition active (s : Server) : Prop :=
  sv_state s = Binding ∨ sv_state s = Closing.

(* Neither resolve nor reject of promise p has been called. *)
Definition untouched (w : World) (p : nat) : Prop :=
  promises w !! p = Some new_promise.

(* Promise p has settled through exactly one call. *)
Definition settled_once (w : World) (p : nat) : Prop :=
  ∃ st, st ≠ Pending ∧ promises w !! p = Some (mkPromise st 1).

(* The promises of startup attempts: those the listeners of a child
   settle and those a probe reports to. *)
Definition attempt_promises (w : World) : list nat :=
  ((cl_promise <$> children w) ++ (sv_awaiter <$> servers w))%list.

(* sp exists and belongs to no startup attempt. *)
Definition not_attempt (w : World) (sp : nat) : Prop :=
  sp < length (promises w) ∧ sp ∉ attempt_promises w.

(* w' has at least the promises of w, and every attempt promise of w' is
   one of w or was created since. *)
Definition grows (w w' : World) : Prop :=
  length (promises w) ≤ length (promises w')
  ∧ ∀ p, p ∈ attempt_promises w' →
         p ∈ attempt_promises w ∨ length (promises w) ≤ p.

Record Inv (w : World) : Prop := mkInv {
  (* a child that has not exited is this.process, and its attempt is the
     one this.startupPromise refers to *)
  inv_alive : ∀ pid c,
    children w !! pid = Some c → cp_exited c = false →
    this_process w = Some pid ∧ this_startupPromise w = Some (cl_promise c);
  (* while resolved is false the child is alive, isRunning is false and
     the promise of the attempt is untouched *)
  inv_unresolved : ∀ pid c,
    children w !! pid = Some c → cl_resolved c = false →
    cp_exited c = false ∧ this_isRunning w = false
    ∧ untouched w (cl_promise c);
  (* once resolved is true the promise has settled through one call *)
  inv_resolved : ∀ pid c,
    children w !! pid = Some c → cl_resolved c = true →
    settled_once w (cl_promise c);
  (* the promises of stop() calls are not promises of attempts *)
  inv_listeners : ∀ pid c l,
    children w !! pid = Some c → l ∈ cp_once_exit c → not_attempt w (snd l);
  inv_grace : ∀ t tm sp,
    timers w !! t = Some tm → t_callback tm = StopGrace sp → not_attempt w sp;
  (* this.process is a child that has not exited *)
  inv_process : ∀ pid,
    this_process w = Some pid →
    ∃ c, children w !! pid = Some c ∧ cp_exited c = false;
  inv_awaiter : ∀ sid s,
    servers w !! sid = Some s → sv_awaiter s < length (promises w);
  (* while a probe is under way it is the only one, its promise is
     this.startupPromise and is untouched, and no process is held *)
  inv_active : ∀ sid s,
    servers w !! sid = Some s → active s →
    this_startupPromise w = Some (sv_awaiter s)
    ∧ this_process w = None ∧ this_isRunning w = false
    ∧ untouched w (sv_awaiter s)
    ∧ ∀ sid' s', servers w !! sid' = Some s' → active s' → sid' = sid;
  inv_stopped :
    this_startupPromise w = None →
    this_process w = None ∧ this_isRunning w = false;
  inv_enabled :
    this_startupPromise w ≠ None → enabled (this_config w) = true;
  (* no two children belong to the same attempt *)
  inv_distinct : ∀ pid pid' c c',
    children w !! pid = Some c → children w !! pid' = Some c' →
    cl_promise c = cl_promise c' → pid = pid';
}.

(* The port probe of the attempt behind this.startupPromise has failed:
   the promise is rejected, no process is held and no probe is under
   way. *)
Definition failed_probe (w : World) (p : nat) : Prop :=
  this_startupPromise w = Some p
  ∧ (∃ m pr, promises w !! p = Some pr ∧ p_state pr = Rejected m)
  ∧ this_process w = None
  ∧ ∀ sid s, servers w !! sid = Some s → ¬ active s.

(* What every turn of the event loop keeps: children keep their place,
   their attempt and what they were spawned with; a promise keeps its
   place, and its state once it has settled; a promise is rejected only
   if it belongs to an attempt. *)
Record evolves (w w' : World) : Prop := mkEvolves {
  ev_grows : grows w w';
  ev_children : ∀ pid c,
    children w !! pid = Some c →
    ∃ c', children w' !! pid = Some c' ∧ cl_promise c' = cl_promise c
          ∧ cp_file c' = cp_file c ∧ cp_args c' = cp_args c;
  ev_sticky : ∀ p pr,
    promises w !! p = Some pr →
    ∃ pr', promises w' !! p = Some pr'
           ∧ (p_state pr ≠ Pending → p_state pr' = p_state pr);
  ev_rejected : ∀ p pr' m,
    promises w' !! p = Some pr' → p_state pr' = Rejected m →
    (∃ pr, promises w !! p = Some pr ∧ p_state pr = Rejected m)
    ∨ p ∈ attempt_promises w
    ∨ length (promises w) ≤ p;
}.

(* What every turn keeps of timers and children: a timer keeps its place,
   callback and delay, and is never armed again; a child keeps its
   startup timer and the signals it was sent, and as long as it has not
   exited it keeps the once('exit') listeners of stop(); the startup
   timer of a child that is new runs the timeout of that child. *)
Record keeps (w w' : World) : Prop := mkKeeps {
  kp_timers : ∀ t tm,
    timers w !! t = Some tm →
    ∃ tm', timers w' !! t = Some tm' ∧ t_callback tm' = t_callback tm
           ∧ t_ms tm' = t_ms tm
           ∧ (t_pending tm' = true → t_pending tm = true);
  kp_children : ∀ pid c,
    children w !! pid = Some c →
    ∃ c', children w' !! pid = Some c'
          ∧ cl_startupTimeout c' = cl_startupTimeout c
          ∧ (∃ more, cp_kill_calls c' = (cp_kill_calls c ++ more)%list)
          ∧ (cp_exited c' = false →
             cp_exited c = false ∧ ∀ l, l ∈ cp_once_exit c → l ∈ cp_once_exit c');
  kp_startupTimeout : ∀ pid c' t,
    children w' !! pid = Some c' → cl_startupTimeout c' = Some t →
    (∃ c, children w !! pid = Some c ∧ cl_startupTimeout c = Some t)
    ∨ t_callback <$> timers w' !! t = Some (StartupTimeout pid);
}.

(* The startup timer of every child runs the timeout of that child. *)
Definition startup_timers_ok (w : World) : Prop :=
  ∀ pid c t,
    children w !! pid = Some c → cl_startupTimeout c = Some t →
    t_callback <$> timers w !! t = Some (StartupTimeout pid).

(* --------------------------------------------------------------------- *)
(* The signals that end a startup attempt                                *)
(* --------------------------------------------------------------------- *)

(* [startup_signal w pid e] is the outcome that event e gives the attempt
   of child pid when it is the first of the four signals to arrive: a
   chunk with the readiness marker on stdout or stderr, the 'error'
   event, the 'exit' event, or the startup timer.  Other events are no
   signals. *)
Definition startup_signal (w : World) (pid : nat) (e : Event)
  : option PromiseState :=
  match e with
  | StdoutData pid' data | StderrData pid' data =>
      if Nat.eqb pid' pid && has_marker data then Some Fulfilled else None
  | ProcessError pid' message =>
      if Nat.eqb pid' pid
      then Some (Rejected ("Failed to start MongoDB subprocess: " ++ message))
      else None
  | ProcessExit pid' code =>
      if Nat.eqb pid' pid
      then Some (Rejected ("MongoDB subprocess exited with code "
                           ++ String_or_null code ++ " before starting"))
      else None
  | TimerFire t =>
      match t_callback <$> timers w !! t with
      | Some (StartupTimeout pid') =>
          if Nat.eqb pid' pid
          then Some (Rejected "MongoDB subprocess startup timeout (30s)")
          else None
      | _ => None
      end
  | _ => None
  end.

(* --------------------------------------------------------------------- *)
(* What one turn leaves alone, and what every spawn rests on             *)
(* --------------------------------------------------------------------- *)

(* [quiet w w']: between w and w' no child was spawned, no probe was made
   or moved on, no directory was made, and this.startupPromise was kept
   or set to null. *)
Definition quiet (w w' : World) : Prop :=
  length (children w') = length (children w)
  ∧ servers w' = servers w
  ∧ directories w' = directories w
  ∧ (this_startupPromise w' = this_startupPromise w
     ∨ this_startupPromise w' = None).

(* Only a call of start() and the events of a probe, with what _start
   does when the probe has closed, are not quiet. *)
Definition launching (e : Event) : bool :=
  match e with
  | CallStart | ServerListening _ | ServerClosed _ | ServerError _ _ _
  | ResumeThrows _ _ _ => true
  | _ => false
  end.


(* What every spawn rests on: a child was spawned from this.config after
   the probe of its attempt had closed; every probe binds the loopback
   address on the configured port; once a child exists the data directory
   and the directory of the log file exist; the data directory has a
   name; the promise of
   this.startupPromise is the one a probe reports to. *)
Record Launched (w : World) : Prop := mkLaunched {
  ln_child : ∀ pid c,
    children w !! pid = Some c →
    cp_file c = mongodPath (this_config w)
    ∧ cp_args c = spawn_args (this_config w);
  ln_probe : ∀ pid c,
    children w !! pid = Some c →
    ∃ sid s, servers w !! sid = Some s ∧ sv_awaiter s = cl_promise c
             ∧ sv_state s = Closed;
  ln_server : ∀ sid s,
    servers w !! sid = Some s →
    sv_host s = "127.0.0.1" ∧ sv_port s = port (this_config w);
  ln_dirs :
    children w ≠ [] →
    existsSync (dbPath (this_config w)) w = true
    ∧ existsSync (path_dirname (logPath (this_config w))) w = true;
  ln_paths : dbPath (this_config w) ≠ "";
  ln_startup : ∀ p,
    this_startupPromise w = Some p →
    ∃ sid s, servers w !! sid = Some s ∧ sv_awaiter s = p;
}.

(* Lines 62-64 and 66-69: a directory that does not exist is made. *)
Definition ensured (p : string) (w : World) : World :=
  if existsSync p w then w else mkdirSync p w.



(* While isRunning is set a process is held, and the promise of its
   startup attempt is fulfilled. *)
Definition ready (w : World) : Prop :=
  this_isRunning w = true →
  ∃ pid c, this_process w = Some pid ∧ children w !! pid = Some c
           ∧ promise_state w (cl_promise c) = Some Fulfilled.

(* A chunk with the readiness marker from child pid, on either stream. *)
Definition marker_from (pid : nat) (e : Event) : bool :=
  match e with
  | StdoutData pid' data | StderrData pid' data =>
      Nat.eqb pid' pid && has_marker data
  | _ => false
  end.

(* Signals and the listeners of stop(): a child that has been sent a
   signal reported ready before, and its first signal is SIGTERM; a
   child with a once('exit') listener of stop() has been sent a signal;
   a grace timer that is pending belongs to a listener on the process
   that is held. *)
Record Signalled (w : World) : Prop := mkSignalled {
  sg_ready : ∀ pid c,
    children w !! pid = Some c → cp_kill_calls c ≠ [] →
    promise_state w (cl_promise c) = Some Fulfilled;
  sg_first : ∀ pid c,
    children w !! pid = Some c → cp_kill_calls c ≠ [] →
    head (cp_kill_calls c) = Some SIGTERM;
  sg_listener : ∀ pid c l,
    children w !! pid = Some c → l ∈ cp_once_exit c → cp_kill_calls c ≠ [];
  sg_grace : ∀ t tm sp,
    timers w !! t = Some tm → t_pending tm = true →
    t_callback tm = StopGrace sp →
    ∃ pid c, this_process w = Some pid ∧ children w !! pid = Some c
             ∧ (t, sp) ∈ cp_once_exit c;
}.


(* Every child has the startup timer of lines 136-138: 30000 ms, running
   the timeout of that child, and pending exactly while resolved is
   false. *)
Definition Timed (w : World) : Prop :=
  ∀ pid c,
    children w !! pid = Some c →
    ∃ t tm, cl_startupTimeout c = Some t ∧ timers w !! t = Some tm
            ∧ t_ms tm = 30000%Z ∧ t_callback tm = StartupTimeout pid
            ∧ t_pending tm = negb (cl_resolved c).

(* ===================================================================== *)
(* Properties                                                            *)
(* ===================================================================== *)

(* Closes a goal l = r by evaluation once l holds no unknown; the sample
   runs are evaluated one after the other, each on the state the run
   before it produced. *)
Ltac by_evaluation :=
  lazymatch goal with
  | |- ?l = _ => tryif has_evar l then idtac else (vm_compute; reflexivity)
  | |- _ => idtac
  end.

Example String_27017 : String_ 27017%Z = "27017".
Proof. vm_compute. reflexivity. Qed.

(* Beyond 2^53 String prints the shortest digits that give the number
   back, and from 10^21 on it uses exponent notation. *)
Example String_2_64 : String_ (2 ^ 64)%Z = "18446744073709552000".
Proof. vm_compute. reflexivity. Qed.

Example String_1e21 : String_ (10 ^ 21)%Z = "1e+21".
Proof. vm_compute. reflexivity. Qed.

Example String_2_70 : String_ (2 ^ 70)%Z = "1.1805916207174113e+21".
Proof. vm_compute. reflexivity. Qed.

Example join_root : path_join ["/"; ".mongodb-data"] = "/.mongodb-data".
Proof. vm_compute. reflexivity. Qed.

Example join_root_log :
  path_join ["/"; "logs"; "mongodb.log"] = "/logs/mongodb.log".
Proof. vm_compute. reflexivity. Qed.

Example dirname_log : path_dirname "/srv/ps/logs/mongodb.log" = "/srv/ps/logs".
Proof. reflexivity. Qed.

Example dirname_rel : path_dirname "./logs/mongodb.log" = "./logs".
Proof. reflexivity. Qed.

Example dirname_plain : path_dirname "mongodb.log" = ".".
Proof. reflexivity. Qed.

Example includes_marker :
  includes "[initandlisten] waiting for connections on port 27017"
           "waiting for connections" = true.
Proof. reflexivity. Qed.

(* --------------------------------------------------------------------- *)
(* What the port check and a throwing _start leave alone                 *)
(* --------------------------------------------------------------------- *)

Lemma checkPortAvailable_valid port p w :
  valid_port port = true →
  checkPortAvailable port p w
  = set_servers (servers w ++ [mkServer "127.0.0.1" port Binding p]) w.
Proof. intros H. unfold checkPortAvailable. by rewrite H. Qed.

Lemma checkPortAvailable_invalid port p w :
  valid_port port = false →
  checkPortAvailable port p w
  = call_reject p (bad_port_message (runtime w) port)
      (set_servers (servers w ++ [mkServer "127.0.0.1" port Failed p]) w).
Proof. intros H. unfold checkPortAvailable. by rewrite H. Qed.

(* Whatever the site, a throwing _start changes the directories on
   record and rejects its promise, and nothing else. *)
Lemma start_throws_inv p site m w w' :
  _start_throws p site m w = Some w' →
  ∃ more, w' = call_reject p m (set_directories (more ++ directories w) w).
Proof.
  destruct w as [pr cfg rn sp ps ts cs ss ds rt].
  unfold _start_throws.
  cbn [this_config].
  intros H. destruct site as [made|made|].
  - destruct (existsSync _ _); [done|].
    destruct made as [q|]; unfold mkdirSync_throws in H.
    + destruct (_ && _); [|done]. cbn [mbind option_bind] in H. 
      simplify_eq. first [by exists [] | by eexists [_] | by eexists [_; _]].
    + cbn [mbind option_bind] in H. simplify_eq. first [by exists [] | by eexists [_] | by eexists [_; _]].
  - destruct (existsSync (dbPath cfg) _);
      (destruct (existsSync (path_dirname _) _); [done|]);
      (destruct made as [q|]; unfold mkdirSync_throws in H;
       [destruct (_ && _); [|done]|]);
      cbn [mbind option_bind] in H; simplify_eq; first [by exists [] | by eexists [_] | by eexists [_; _]].
  - destruct (existsSync (dbPath cfg) _);
      destruct (existsSync (path_dirname _) _);
      simplify_eq; first [by exists [] | by eexists [_] | by eexists [_; _]].
Qed.

(* --------------------------------------------------------------------- *)
(* this.config is never assigned after the constructor                   *)
(* --------------------------------------------------------------------- *)

Lemma stop_config w : this_config (snd (stop w)) = this_config w.
Proof. unfold stop, Promise_new, setTimeout. repeat case_match; reflexivity. Qed.

Lemma cleanup_config pid w : this_config (cleanup pid w) = this_config w.
Proof. unfold cleanup. repeat case_match; reflexivity. Qed.

Lemma doResolve_config pid w : this_config (doResolve pid w) = this_config w.
Proof.
  unfold doResolve. repeat case_match; try reflexivity.
  cbn. rewrite cleanup_config. reflexivity.
Qed.

Lemma doReject_config pid m w : this_config (doReject pid m w) = this_config w.
Proof.
  unfold doReject. repeat case_match; try reflexivity.
  cbn. rewrite stop_config, cleanup_config. reflexivity.
Qed.

Lemma on_exit_config pid code w : this_config (on_exit pid code w) = this_config w.
Proof.
  unfold on_exit. repeat case_match; try reflexivity.
  rewrite doReject_config. reflexivity.
Qed.

Lemma stop_listeners_config ls w :
  this_config (foldl (λ acc l, stop_on_exit l acc) w ls) = this_config w.
Proof.
  revert w. induction ls as [|l ls IH]; intros w; [reflexivity|].
  cbn [foldl]. rewrite IH. reflexivity.
Qed.

Lemma start_config w : this_config (snd (start w)) = this_config w.
Proof.
  unfold start, _start, Promise_new, checkPortAvailable.
  repeat case_match; simplify_eq; reflexivity.
Qed.

Lemma step_config w e w' : step w e = Some w' → this_config w' = this_config w.
Proof.
  destruct e; cbn [step]; intros H; repeat case_match; simplify_eq.
  - apply start_config.
  - apply stop_config.
  - reflexivity.
  - unfold _start_resume, spawn, setTimeout. repeat case_match; reflexivity.
  - reflexivity.
  - unfold on_stdout_data. case_match; [apply doResolve_config|reflexivity].
  - unfold on_stderr_data. case_match; [apply doResolve_config|reflexivity].
  - apply doReject_config.
  - unfold emit_exit. rewrite stop_listeners_config, on_exit_config. reflexivity.
  - unfold run_timer, on_startup_timeout, stop_timeout.
    case_match; [rewrite doReject_config; reflexivity|].
    repeat case_match; reflexivity.
  - by apply start_throws_inv in H as [ds ->].
Qed.

Lemma run_config es : ∀ w w', run w es = Some w' → this_config w' = this_config w.
Proof.
  induction es as [|e es IH]; intros w w' H; cbn [run] in H.
  - by simplify_eq.
  - destruct (step w e) as [w1|] eqn:E; [|done].
    rewrite (IH _ _ H). eapply step_config; eauto.
Qed.

(* --------------------------------------------------------------------- *)
(* The host stays the same                                               *)
(* --------------------------------------------------------------------- *)

Lemma stop_runtime w : runtime (snd (stop w)) = runtime w.
Proof. unfold stop, Promise_new, setTimeout. repeat case_match; reflexivity. Qed.

Lemma cleanup_runtime pid w : runtime (cleanup pid w) = runtime w.
Proof. unfold cleanup. repeat case_match; reflexivity. Qed.

Lemma doResolve_runtime pid w : runtime (doResolve pid w) = runtime w.
Proof.
  unfold doResolve. repeat case_match; try reflexivity.
  cbn. rewrite cleanup_runtime. reflexivity.
Qed.

Lemma doReject_runtime pid m w : runtime (doReject pid m w) = runtime w.
Proof.
  unfold doReject. repeat case_match; try reflexivity.
  cbn. rewrite stop_runtime, cleanup_runtime. reflexivity.
Qed.

Lemma on_exit_runtime pid code w : runtime (on_exit pid code w) = runtime w.
Proof.
  unfold on_exit. repeat case_match; try reflexivity.
  rewrite doReject_runtime. reflexivity.
Qed.

Lemma stop_listeners_runtime ls w :
  runtime (foldl (λ acc l, stop_on_exit l acc) w ls) = runtime w.
Proof.
  revert w. induction ls as [|l ls IH]; intros w; [reflexivity|].
  cbn [foldl]. rewrite IH. reflexivity.
Qed.

Lemma start_runtime w : runtime (snd (start w)) = runtime w.
Proof.
  unfold start, _start, Promise_new, checkPortAvailable.
  repeat case_match; simplify_eq; reflexivity.
Qed.

Lemma step_runtime w e w' : step w e = Some w' → runtime w' = runtime w.
Proof.
  destruct e; cbn [step]; intros H; repeat case_match; simplify_eq.
  - apply start_runtime.
  - apply stop_runtime.
  - reflexivity.
  - unfold _start_resume, spawn, setTimeout. repeat case_match; reflexivity.
  - reflexivity.
  - unfold on_stdout_data. case_match; [apply doResolve_runtime|reflexivity].
  - unfold on_stderr_data. case_match; [apply doResolve_runtime|reflexivity].
  - apply doReject_runtime.
  - unfold emit_exit. rewrite stop_listeners_runtime, on_exit_runtime. reflexivity.
  - unfold run_timer, on_startup_timeout, stop_timeout.
    case_match; [rewrite doReject_runtime; reflexivity|].
    repeat case_match; reflexivity.
  - by apply start_throws_inv in H as [ds ->].
Qed.

Lemma run_runtime es : ∀ w w', run w es = Some w' → runtime w' = runtime w.
Proof.
  induction es as [|e es IH]; intros w w' H; cbn [run] in H.
  - by simplify_eq.
  - destruct (step w e) as [w1|] eqn:E; [|done].
    rewrite (IH _ _ H). eapply step_runtime; eauto.
Qed.

(* --------------------------------------------------------------------- *)
(* Connection URI                                                        *)
(* --------------------------------------------------------------------- *)

(** C9: in every state the controller can reach, getConnectionUri() is
    "mongodb://127.0.0.1:" followed by the configured port as String
    prints it: the port the caller gave when it gave one other than 0,
    and 27017 when it gave none or 0.  The value depends on the
    configuration only: every state of every controller constructed from
    the same configuration, on whatever host and after whatever events,
    gives the same URI. *)
Theorem getConnectionUri_from_config host config es w :
  run (constructor host config) es = Some w →
  (∀ n, in_port config = Some n → n ≠ 0%Z →
     getConnectionUri w = "mongodb://127.0.0.1:" ++ String_ n)
  ∧ (in_port config = None ∨ in_port config = Some 0%Z →
     getConnectionUri w = "mongodb://127.0.0.1:27017")
  ∧ (∀ host' es' w',
       run (constructor host' config) es' = Some w' →
       getConnectionUri w' = getConnectionUri w).
Proof.
  intros H.
  assert (Huri : ∀ host0 es0 w0,
            run (constructor host0 config) es0 = Some w0 →
            getConnectionUri w0
            = "mongodb://127.0.0.1:"
              ++ String_ (or_number (in_port config) 27017%Z)).
  { intros host0 es0 w0 H0. unfold getConnectionUri.
    by rewrite (run_config _ _ _ H0). }
  split; [|split].
  - intros n Hn Hne. rewrite (Huri _ _ _ H), Hn. unfold or_number.
    by destruct (Z.eqb_spec n 0).
  - intros Hn. rewrite (Huri _ _ _ H).
    assert (or_number (in_port config) 27017%Z = 27017%Z) as ->
      by (by destruct Hn as [-> | ->]).
    by rewrite String_27017.
  - intros host' es' w' H'. by rewrite (Huri _ _ _ H), (Huri _ _ _ H').
Qed.

Lemma getConnectionUri_from_config_witness :
  ∃ w,
    run (constructor sample_host
           (mkMongoSubprocessConfig true None None (Some 27018%Z) None None))
        started = Some w
    ∧ getConnectionUri w = "mongodb://127.0.0.1:27018".
Proof.
  eexists. split; [vm_compute; reflexivity|].
  refine (eq_trans
            (proj1 (getConnectionUri_from_config sample_host
                      (mkMongoSubprocessConfig true None None (Some 27018%Z)
                         None None) started _ _) 27018%Z _ _) _);
    by_evaluation.
  all: by_evaluation.
  all: by_evaluation.
  discriminate.
Defined.

(* --------------------------------------------------------------------- *)
(* Arguments of the spawned binary                                       *)
(* --------------------------------------------------------------------- *)

(* Whatever the caller configured, this.config has no cache size. *)
Lemma constructor_drops_cache_size host config :
  wiredTigerCacheSizeGB (this_config (constructor host config)) = None.
Proof. reflexivity. Qed.

(** C6: with { enabled: true, wiredTigerCacheSizeGB: 1 } the child is
    spawned with the data directory, the port, the log file and the
    loopback bind address, and without --wiredTigerCacheSizeGB, although
    the caller configured a cache size. *)
Theorem cache_size_flag_is_lost :
  in_wiredTigerCacheSizeGB sample_config = Some 1%Z
  ∧ ∃ w c,
      run (constructor sample_host sample_config) spawned = Some w
      ∧ children w = [c]
      ∧ cp_file c = "mongod"
      ∧ cp_args c = [ "--dbpath"; "/srv/ps/.mongodb-data";
                      "--port"; "27017";
                      "--logpath"; "/srv/ps/logs/mongodb.log";
                      "--bind_ip"; "127.0.0.1" ]
      ∧ existsb (String.eqb "--wiredTigerCacheSizeGB") (cp_args c) = false.
Proof.
  split; [reflexivity|].
  eexists _, _. split; [vm_compute; reflexivity|].
  repeat split.
Qed.

(* --------------------------------------------------------------------- *)
(* Basic facts about the runtime objects                                 *)
(* --------------------------------------------------------------------- *)

Lemma lookup_new {A} (l : list A) (x : A) : (l ++ [x])%list !! length l = Some x.
Proof. by apply list_lookup_middle. Qed.

Lemma alter_last {A} (f : A → A) (l : list A) (x : A) :
  alter f (length l) (l ++ [x])%list = (l ++ [f x])%list.
Proof. induction l as [|y l IH]; [done|]. cbn. by rewrite IH. Qed.

Lemma settle_new o : settle o new_promise = mkPromise o 1.
Proof. reflexivity. Qed.

Lemma cleanup_children pid w : children (cleanup pid w) = children w.
Proof. unfold cleanup. repeat case_match; reflexivity. Qed.

Lemma cleanup_promises pid w : promises (cleanup pid w) = promises w.
Proof. unfold cleanup. repeat case_match; reflexivity. Qed.

Lemma cleanup_isRunning pid w : this_isRunning (cleanup pid w) = this_isRunning w.
Proof. unfold cleanup. repeat case_match; reflexivity. Qed.

Lemma cleanup_process pid w : this_process (cleanup pid w) = this_process w.
Proof. unfold cleanup. repeat case_match; reflexivity. Qed.


Lemma cleanup_servers pid w : servers (cleanup pid w) = servers w.
Proof. unfold cleanup. repeat case_match; reflexivity. Qed.

(* stop() does nothing unless a process is held and isRunning is set. *)
Lemma stop_not_running w : this_isRunning w = false → stop w = (Undefined, w).
Proof. intros H. unfold stop. rewrite H. by case_match. Qed.

Lemma stop_no_process w : this_process w = None → stop w = (Undefined, w).
Proof. intros H. unfold stop. by rewrite H. Qed.

(* doResolve on an attempt that has not settled. *)
Lemma doResolve_first pid w c :
  children w !! pid = Some c → cl_resolved c = false →
  doResolve pid w
  = call_resolve (cl_promise c)
      (set_isRunning true (cleanup pid (alter_child child_set_resolved pid w))).
Proof. intros Hc Hr. unfold doResolve. by rewrite Hc, Hr. Qed.

(* doReject on an attempt that has not settled, while isRunning is false:
   the stop() of line 106 returns on line 144. *)
Lemma doReject_first pid m w c :
  children w !! pid = Some c → cl_resolved c = false → this_isRunning w = false →
  doReject pid m w
  = call_reject (cl_promise c) m
      (cleanup pid (alter_child child_set_resolved pid w)).
Proof.
  intros Hc Hr Hrun. unfold doReject. rewrite Hc, Hr.
  rewrite stop_not_running; [reflexivity|].
  by rewrite cleanup_isRunning.
Qed.

(* Both closures do nothing once the attempt has settled. *)
Lemma doResolve_settled pid w c :
  children w !! pid = Some c → cl_resolved c = true → doResolve pid w = w.
Proof. intros Hc Hr. unfold doResolve. by rewrite Hc, Hr. Qed.

Lemma doReject_settled pid m w c :
  children w !! pid = Some c → cl_resolved c = true → doReject pid m w = w.
Proof. intros Hc Hr. unfold doReject. by rewrite Hc, Hr. Qed.

(* --------------------------------------------------------------------- *)
(* Readiness detection                                                   *)
(* --------------------------------------------------------------------- *)

(** C7 (as stated): a chunk that contains the phrase in another letter
    case is not recognised; the startup future stays pending. *)
Lemma uppercase_marker_is_missed :
  includes_ignoring_case
    "[initandlisten] WAITING FOR CONNECTIONS on port 27017"
    "waiting for connections" = true
  ∧ ∃ w,
      run (constructor sample_host sample_config)
          (spawned
           ++ [StdoutData 0 "[initandlisten] WAITING FOR CONNECTIONS on port 27017"])
      = Some w
      ∧ promise_state w 0 = Some Pending
      ∧ isProcessRunning w = false.
Proof.
  split; [vm_compute; reflexivity|].
  eexists. split; [vm_compute; reflexivity|]. split; reflexivity.
Qed.

(** C7 (amended): a chunk is a readiness marker exactly when it includes
    "Waiting for connections" or "waiting for connections"; stdout and
    stderr are treated alike.  On an attempt that has not settled, the
    first marker chunk on either stream fulfils the startup future (one
    call of resolve) and sets isRunning; a chunk without marker changes
    nothing; after the marker, no chunk on either stream changes
    anything. *)
Theorem readiness_marker_two_spellings w pid c data :
  children w !! pid = Some c →
  cl_resolved c = false →
  promises w !! cl_promise c = Some new_promise →
  (has_marker data = true ↔
     includes data "Waiting for connections" = true
     ∨ includes data "waiting for connections" = true)
  ∧ on_stderr_data pid data w = on_stdout_data pid data w
  ∧ (has_marker data = false →
       step w (StdoutData pid data) = Some w
       ∧ step w (StderrData pid data) = Some w)
  ∧ (has_marker data = true →
       ∃ w', step w (StdoutData pid data) = Some w'
             ∧ step w (StderrData pid data) = Some w'
             ∧ promises w' !! cl_promise c = Some (mkPromise Fulfilled 1)
             ∧ isProcessRunning w' = true
             ∧ ∀ data', step w' (StdoutData pid data') = Some w'
                        ∧ step w' (StderrData pid data') = Some w').
Proof.
  intros Hc Hr Hp. split; [|split; [|split]].
  - unfold has_marker. apply orb_true_iff.
  - reflexivity.
  - intros Hm. cbn [step]. rewrite Hc.
    unfold on_stdout_data, on_stderr_data. by rewrite Hm.
  - intros Hm. eexists. cbn [step]. rewrite Hc.
    unfold on_stdout_data, on_stderr_data. rewrite Hm.
    rewrite (doResolve_first pid w c Hc Hr).
    split; [reflexivity|]. split; [reflexivity|].
    assert (Hc' : children
                    (call_resolve (cl_promise c)
                       (set_isRunning true
                          (cleanup pid (alter_child child_set_resolved pid w))))
                  !! pid = Some (child_set_resolved c)).
    { cbn. rewrite cleanup_children. cbn.
      by rewrite list_lookup_alter_eq, Hc. }
    split; [|split; [reflexivity|]].
    + cbn. rewrite cleanup_promises. cbn.
      by rewrite list_lookup_alter_eq, Hp.
    + intros data'. cbn [step]. rewrite Hc'.
      unfold on_stdout_data, on_stderr_data.
      rewrite (doResolve_settled _ _ _ Hc' eq_refl).
      by case_match.
Qed.

Lemma readiness_marker_two_spellings_witness :
  ∃ w c, run (constructor sample_host sample_config) spawned = Some w
    ∧ children w !! 0 = Some c
    ∧ ∃ w', step w (StderrData 0 "NETWORK Waiting for connections") = Some w'
         ∧ promises w' !! cl_promise c = Some (mkPromise Fulfilled 1)
         ∧ isProcessRunning w' = true.
Proof.
  eexists _, _. split; [vm_compute; reflexivity|]. split; [reflexivity|].
  match goal with
  | |- ∃ w', step ?w _ = _ ∧ promises _ !! cl_promise ?c = _ ∧ _ =>
      destruct (readiness_marker_two_spellings w 0 c
                  "NETWORK Waiting for connections" eq_refl eq_refl eq_refl)
        as (_ & _ & _ & Hm)
  end.
  destruct (Hm eq_refl) as (w' & _ & H2 & H3 & H4 & _).
  exists w'. split; [exact H2|]. split; [exact H3|exact H4].
Defined.

(* --------------------------------------------------------------------- *)
(* Which promises belong to startup attempts                             *)
(* --------------------------------------------------------------------- *)

Lemma grows_refl w : grows w w.
Proof. split; [lia|]. intros p Hp. by left. Qed.

Lemma grows_trans w1 w2 w3 : grows w1 w2 → grows w2 w3 → grows w1 w3.
Proof.
  intros [Hl1 Ha1] [Hl2 Ha2]. split; [lia|].
  intros p Hp. destruct (Ha2 p Hp) as [H|H].
  - apply Ha1, H.
  - right. lia.
Qed.

(* The same attempts, and no fewer promises. *)
Lemma grows_same w w' :
  length (promises w) ≤ length (promises w') →
  attempt_promises w' = attempt_promises w →
  grows w w'.
Proof. intros Hl Ha. split; [done|]. intros p. rewrite Ha. by left. Qed.

Lemma not_attempt_grows w w' sp : grows w w' → not_attempt w sp → not_attempt w' sp.
Proof.
  intros [Hl Ha] [Hlt Hsp]. split; [lia|].
  intros Hin. destruct (Ha sp Hin) as [H|H]; [done|lia].
Qed.

Lemma cl_promise_alter (f : ChildProcess → ChildProcess) pid (l : list ChildProcess) :
  (∀ c, cl_promise (f c) = cl_promise c) →
  cl_promise <$> alter f pid l = cl_promise <$> l.
Proof.
  intros Hf. erewrite (list_fmap_alter cl_promise f id).
  - by apply list_alter_id.
  - apply Forall_forall. intros c _. apply Hf.
Qed.

Lemma sv_awaiter_alter st sid (l : list Server) :
  sv_awaiter <$> alter (server_set_state st) sid l = sv_awaiter <$> l.
Proof.
  erewrite (list_fmap_alter sv_awaiter _ id).
  - by apply list_alter_id.
  - apply Forall_forall. by intros s _.
Qed.

Lemma attempt_promises_alter_child f pid w :
  (∀ c, cl_promise (f c) = cl_promise c) →
  attempt_promises (alter_child f pid w) = attempt_promises w.
Proof.
  intros Hf. unfold attempt_promises. cbn. by rewrite cl_promise_alter.
Qed.

Lemma grows_alter_child f pid w :
  (∀ c, cl_promise (f c) = cl_promise c) → grows w (alter_child f pid w).
Proof.
  intros Hf. apply grows_same; [done|]. by apply attempt_promises_alter_child.
Qed.

Lemma grows_cleanup pid w : grows w (cleanup pid w).
Proof.
  unfold cleanup. repeat case_match; try apply grows_refl.
  by apply grows_same.
Qed.

Lemma grows_call_resolve p w : grows w (call_resolve p w).
Proof. apply grows_same; [|done]. cbn. by rewrite length_alter. Qed.

Lemma grows_call_reject p m w : grows w (call_reject p m w).
Proof. apply grows_same; [|done]. cbn. by rewrite length_alter. Qed.

Lemma grows_stop w : grows w (snd (stop w)).
Proof.
  unfold stop, Promise_new, setTimeout, kill.
  repeat case_match; try apply grows_refl.
  apply grows_same.
  - cbn. rewrite length_app. lia.
  - unfold attempt_promises. cbn. by rewrite !cl_promise_alter.
Qed.

Lemma grows_doResolve pid w : grows w (doResolve pid w).
Proof.
  unfold doResolve. repeat case_match; try apply grows_refl.
  eapply grows_trans; [|apply grows_call_resolve].
  eapply grows_trans; [|by apply grows_same].
  eapply grows_trans; [|apply grows_cleanup].
  by apply grows_alter_child.
Qed.

Lemma grows_doReject pid m w : grows w (doReject pid m w).
Proof.
  unfold doReject. repeat case_match; try apply grows_refl.
  eapply grows_trans; [|apply grows_call_reject].
  eapply grows_trans; [|apply grows_stop].
  eapply grows_trans; [|apply grows_cleanup].
  by apply grows_alter_child.
Qed.

Lemma grows_on_exit pid code w : grows w (on_exit pid code w).
Proof.
  unfold on_exit. repeat case_match; try by apply grows_same.
  eapply grows_trans; [|apply grows_doReject]. by apply grows_same.
Qed.

Lemma grows_stop_on_exit l w : grows w (stop_on_exit l w).
Proof. apply grows_same; [|done]. cbn. by rewrite length_alter. Qed.

Lemma grows_stop_listeners ls w :
  grows w (foldl (λ acc l, stop_on_exit l acc) w ls).
Proof.
  revert w. induction ls as [|l ls IH]; intros w; [apply grows_refl|].
  cbn [foldl]. eapply grows_trans; [apply grows_stop_on_exit|apply IH].
Qed.

Lemma grows_emit_exit pid code c w : grows w (emit_exit pid code c w).
Proof.
  unfold emit_exit.
  eapply grows_trans; [|apply grows_stop_listeners].
  eapply grows_trans; [|apply grows_on_exit].
  by apply grows_alter_child.
Qed.

Lemma grows_stop_timeout sp w : grows w (stop_timeout sp w).
Proof.
  unfold stop_timeout.
  eapply grows_trans; [|apply grows_call_resolve].
  case_match; [|apply grows_refl].
  by apply grows_alter_child.
Qed.

Lemma grows_start w : grows w (snd (start w)).
Proof.
  unfold start, _start, Promise_new, checkPortAvailable.
  repeat case_match; simplify_eq; try apply grows_refl.
  - apply grows_same; [|done]. cbn. rewrite length_alter, length_app. lia.
  - split; [cbn; rewrite length_app; lia|].
    intros p. unfold attempt_promises. cbn.
    rewrite fmap_app, !elem_of_app. cbn. rewrite list_elem_of_singleton.
    intros [Hq|[Hq|Hq]]; [by left; left| by left; right|right; lia].
  - split; [cbn; rewrite length_alter, length_app; lia|].
    intros p. unfold attempt_promises. cbn.
    rewrite fmap_app, !elem_of_app. cbn. rewrite list_elem_of_singleton.
    intros [Hq|[Hq|Hq]]; [by left; left| by left; right|right; lia].
Qed.

(* The child of _start_resume belongs to the attempt of the probe. *)
Lemma grows_start_resume p w :
  p ∈ attempt_promises w → grows w (_start_resume p w).
Proof.
  intros Hp. unfold _start_resume, spawn, setTimeout.
  split; [repeat case_match; done|].
  intros q. unfold attempt_promises.
  assert (Hq : q ∈ ((cl_promise <$> children w) ++ [p] ++ (sv_awaiter <$> servers w))%list
               → q ∈ attempt_promises w ∨ length (promises w) ≤ q).
  { rewrite !elem_of_app, list_elem_of_singleton. unfold attempt_promises.
    rewrite elem_of_app. intros [H|[->|H]]; left; auto.
    by apply elem_of_app in Hp. }
  intros H. apply Hq. revert H.
  repeat case_match; cbn; rewrite cl_promise_alter by done;
    rewrite fmap_app, !elem_of_app; cbn;
    rewrite list_elem_of_singleton, elem_of_cons; tauto.
Qed.

Lemma step_grows w e w' : step w e = Some w' → grows w w'.
Proof.
  destruct e; cbn [step]; intros H; repeat case_match; simplify_eq.
  - apply grows_start.
  - apply grows_stop.
  - apply grows_same; [done|]. unfold attempt_promises. cbn.
    by rewrite sv_awaiter_alter.
  - eapply grows_trans; [|apply grows_start_resume].
    + apply grows_same; [done|]. unfold attempt_promises. cbn.
      by rewrite sv_awaiter_alter.
    + unfold attempt_promises. cbn. rewrite sv_awaiter_alter.
      apply elem_of_app. right.
      apply list_elem_of_fmap. eexists. split; [done|].
      by eapply list_elem_of_lookup_2.
  - eapply grows_trans; [|apply grows_call_reject].
    apply grows_same; [done|]. unfold attempt_promises. cbn.
    by rewrite sv_awaiter_alter.
  - unfold on_stdout_data. case_match; [apply grows_doResolve|apply grows_refl].
  - unfold on_stderr_data. case_match; [apply grows_doResolve|apply grows_refl].
  - apply grows_doReject.
  - apply grows_emit_exit.
  - apply (grows_trans _ (clearTimeout t w)); [by apply grows_same|].
    unfold run_timer. case_match; [apply grows_doReject|apply grows_stop_timeout].
  - apply start_throws_inv in H as [ds ->].
    eapply grows_trans; [|apply grows_call_reject].
    apply grows_same; [done|]. unfold attempt_promises. cbn.
    by rewrite sv_awaiter_alter.
Qed.

(* --------------------------------------------------------------------- *)
(* The invariant holds initially and is kept by every turn               *)
(* --------------------------------------------------------------------- *)

Lemma lookup_alter_Some {A} (f : A → A) (l : list A) i j x :
  alter f i l !! j = Some x →
  ∃ y, l !! j = Some y ∧ ((i = j ∧ x = f y) ∨ (i ≠ j ∧ x = y)).
Proof.
  destruct (decide (i = j)) as [->|Hne].
  - rewrite list_lookup_alter_eq. destruct (l !! j) as [y|]; [|done].
    intros [= <-]. eauto.
  - rewrite list_lookup_alter_ne by done. eauto.
Qed.

Lemma lookup_snoc_inv {A} (l : list A) a j x :
  (l ++ [a])%list !! j = Some x → l !! j = Some x ∨ (j = length l ∧ x = a).
Proof.
  rewrite lookup_snoc_Some. intros [[_ H]|[H1 H2]]; [by left|by right].
Qed.

Lemma untouched_lt w p : untouched w p → p < length (promises w).
Proof. apply lookup_lt_Some. Qed.

Lemma settled_once_lt w p : settled_once w p → p < length (promises w).
Proof. intros (st & _ & H). by apply lookup_lt_Some in H. Qed.

Lemma untouched_not_settled w p q : untouched w p → settled_once w q → p ≠ q.
Proof.
  unfold untouched. intros Hp (st & Hst & Hq) ->. rewrite Hp in Hq.
  by simplify_eq.
Qed.

Lemma child_promise_lt w pid c :
  Inv w → children w !! pid = Some c → cl_promise c < length (promises w).
Proof.
  intros HI Hc. destruct (cl_resolved c) eqn:Hr.
  - eapply settled_once_lt, inv_resolved; eauto.
  - eapply untouched_lt, inv_unresolved; eauto.
Qed.

Lemma attempt_promise_lt w p :
  Inv w → p ∈ attempt_promises w → p < length (promises w).
Proof.
  intros HI. unfold attempt_promises. rewrite elem_of_app.
  intros [H|H]; apply list_elem_of_fmap in H as (x & -> & Hx);
    apply list_elem_of_lookup in Hx as [i Hi].
  - eapply child_promise_lt; eauto.
  - eapply inv_awaiter; eauto.
Qed.

Lemma child_is_attempt w pid c :
  children w !! pid = Some c → cl_promise c ∈ attempt_promises w.
Proof.
  intros Hc. apply elem_of_app. left. apply list_elem_of_fmap.
  eexists. split; [done|]. by eapply list_elem_of_lookup_2.
Qed.

Lemma server_is_attempt w sid s :
  servers w !! sid = Some s → sv_awaiter s ∈ attempt_promises w.
Proof.
  intros Hs. apply elem_of_app. right. apply list_elem_of_fmap.
  eexists. split; [done|]. by eapply list_elem_of_lookup_2.
Qed.

(* With no process held, every child has exited and settled. *)
Lemma no_process_all_done w pid c :
  Inv w → this_process w = None → children w !! pid = Some c →
  cp_exited c = true ∧ cl_resolved c = true.
Proof.
  intros HI Hp Hc.
  assert (He : cp_exited c = true).
  { destruct (cp_exited c) eqn:He; [done|].
    destruct (inv_alive w HI pid c Hc He) as [H _]. congruence. }
  split; [done|].
  destruct (cl_resolved c) eqn:Hr; [done|].
  destruct (inv_unresolved w HI pid c Hc Hr) as [H _]. congruence.
Qed.

(* With a process held, no probe is under way. *)
Lemma process_no_probe w pid sid s :
  Inv w → this_process w = Some pid → servers w !! sid = Some s → ¬ active s.
Proof.
  intros HI Hp Hs Ha. destruct (inv_active w HI sid s Hs Ha) as (_ & H & _).
  congruence.
Qed.

(* The child whose attempt has not settled is the only child alive. *)
Lemma unresolved_others_done w pid c pid' c' :
  Inv w → children w !! pid = Some c → cl_resolved c = false →
  children w !! pid' = Some c' → pid' ≠ pid →
  cp_exited c' = true ∧ cl_resolved c' = true.
Proof.
  intros HI Hc Hr Hc' Hne.
  destruct (inv_unresolved w HI pid c Hc Hr) as (He & _ & _).
  destruct (inv_alive w HI pid c Hc He) as [Hp _].
  assert (He' : cp_exited c' = true).
  { destruct (cp_exited c') eqn:He'; [done|].
    destruct (inv_alive w HI pid' c' Hc' He') as [H _]. congruence. }
  split; [done|].
  destruct (cl_resolved c') eqn:Hr'; [done|].
  destruct (inv_unresolved w HI pid' c' Hc' Hr') as [H _]. congruence.
Qed.

Lemma Inv_constructor host config : Inv (constructor host config).
Proof.
  split; cbn; try done.
Qed.

Lemma children_alter_inv f pid w j c' :
  children (alter_child f pid w) !! j = Some c' →
  ∃ c0, children w !! j = Some c0 ∧ ((j = pid ∧ c' = f c0) ∨ (j ≠ pid ∧ c' = c0)).
Proof.
  cbn. intros H. apply lookup_alter_Some in H as (y & Hy & [[-> ->]|[Hne ->]]);
    eauto 6.
Qed.

Lemma children_alter_Some f pid w j c0 :
  children w !! j = Some c0 →
  children (alter_child f pid w) !! j = Some (if decide (j = pid) then f c0 else c0).
Proof.
  intros H. cbn. case_decide as Hd.
  - subst. by rewrite list_lookup_alter_eq, H.
  - by rewrite list_lookup_alter_ne.
Qed.

(* Changing the timers only, with every stop() timer still owned by a
   promise outside the attempts. *)
Lemma Inv_set_timers ts w :
  Inv w →
  (∀ t tm sp, ts !! t = Some tm → t_callback tm = StopGrace sp → not_attempt w sp) →
  Inv (set_timers ts w).
Proof.
  intros HI Hts. split.
  - exact (inv_alive w HI).
  - exact (inv_unresolved w HI).
  - exact (inv_resolved w HI).
  - exact (inv_listeners w HI).
  - exact Hts.
  - exact (inv_process w HI).
  - exact (inv_awaiter w HI).
  - exact (inv_active w HI).
  - exact (inv_stopped w HI).
  - exact (inv_enabled w HI).
  - exact (inv_distinct w HI).
Qed.

Lemma Inv_clearTimeout t w : Inv w → Inv (clearTimeout t w).
Proof.
  intros HI. apply Inv_set_timers; [done|].
  intros t' tm sp Ht Hcb.
  apply lookup_alter_Some in Ht as (tm0 & Ht0 & [[_ ->]|[_ ->]]);
    eapply inv_grace; eauto.
Qed.

Lemma Inv_cleanup pid w : Inv w → Inv (cleanup pid w).
Proof.
  intros HI. unfold cleanup. repeat case_match; try done.
  by apply Inv_clearTimeout.
Qed.

Lemma Inv_set_directories ds w : Inv w → Inv (set_directories ds w).
Proof.
  intros HI. split.
  - exact (inv_alive w HI).
  - exact (inv_unresolved w HI).
  - exact (inv_resolved w HI).
  - exact (inv_listeners w HI).
  - exact (inv_grace w HI).
  - exact (inv_process w HI).
  - exact (inv_awaiter w HI).
  - exact (inv_active w HI).
  - exact (inv_stopped w HI).
  - exact (inv_enabled w HI).
  - exact (inv_distinct w HI).
Qed.

(* The attempt of child pid settles: resolved becomes true and its
   promise receives its first call. *)
Lemma Inv_settle pid c o b w :
  Inv w → children w !! pid = Some c → cl_resolved c = false → o ≠ Pending →
  Inv (set_promises (alter (settle o) (cl_promise c) (promises w))
         (set_isRunning b (alter_child child_set_resolved pid w))).
Proof.
  intros HI Hc Hr Ho.
  destruct (inv_unresolved w HI pid c Hc Hr) as (He & Hrun & Hun).
  destruct (inv_alive w HI pid c Hc He) as [Hproc Hsp].
  set (w' := set_promises _ _).
  assert (Hg : grows w w').
  { apply grows_same; cbn.
    - by rewrite length_alter.
    - unfold attempt_promises. cbn. by rewrite cl_promise_alter. }
  assert (Hinv : ∀ j c', children w' !! j = Some c' →
            ∃ c0, children w !! j = Some c0
                  ∧ cp_exited c' = cp_exited c0 ∧ cl_promise c' = cl_promise c0
                  ∧ cp_once_exit c' = cp_once_exit c0 ∧ cl_resolved c' = true
                  ∧ (j = pid → c0 = c) ∧ (j ≠ pid → cl_resolved c0 = true)).
  { intros j c' Hc'. apply (children_alter_inv child_set_resolved pid w) in Hc'
      as (c0 & Hc0 & [[-> ->]|[Hne ->]]).
    - exists c0. repeat split; try done; intros; congruence.
    - exists c0.
      destruct (unresolved_others_done w pid c j c0 HI Hc Hr Hc0 Hne) as [_ Hr0].
      repeat split; done. }
  split.
  - intros j c' Hc' He'. destruct (Hinv j c' Hc') as (c0 & Hc0 & E1 & E2 & _).
    rewrite E2. apply (inv_alive w HI j c0 Hc0). congruence.
  - intros j c' Hc' Hr'. destruct (Hinv j c' Hc') as (c0 & _ & _ & _ & _ & E & _).
    congruence.
  - intros j c' Hc' _.
    destruct (Hinv j c' Hc') as (c0 & Hc0 & _ & E2 & _ & _ & Heq & Hne).
    rewrite E2. destruct (decide (j = pid)) as [->|Hd].
    + rewrite (Heq eq_refl). exists o. split; [done|]. cbn.
      by rewrite list_lookup_alter_eq, Hun.
    + destruct (inv_resolved w HI j c0 Hc0 (Hne Hd)) as (st & Hst & Hl).
      exists st. split; [done|]. cbn. rewrite list_lookup_alter_ne; [done|].
      eapply untouched_not_settled; [exact Hun|]. by exists st.
  - intros j c' l Hc' Hl.
    destruct (Hinv j c' Hc') as (c0 & Hc0 & _ & _ & E3 & _).
    rewrite E3 in Hl. eapply not_attempt_grows; [exact Hg|].
    eapply inv_listeners; eauto.
  - intros t tm sp Ht Hcb. eapply not_attempt_grows; [exact Hg|].
    eapply inv_grace; eauto.
  - intros j Hj. destruct (inv_process w HI j Hj) as (c0 & Hc0 & He0).
    eexists. split; [by apply children_alter_Some|].
    by case_decide.
  - intros sid s Hs. cbn. rewrite length_alter. eapply inv_awaiter; eauto.
  - intros sid s Hs Ha. by destruct (process_no_probe w pid sid s).
  - intros Hn. cbn in Hn. congruence.
  - exact (inv_enabled w HI).
  - intros j j' c1 c2 H1 H2 Heq.
    destruct (Hinv j c1 H1) as (d1 & Hd1 & _ & E1 & _).
    destruct (Hinv j' c2 H2) as (d2 & Hd2 & _ & E2 & _).
    eapply (inv_distinct w HI); eauto. congruence.
Qed.

Lemma Inv_doResolve pid w : Inv w → Inv (doResolve pid w).
Proof.
  intros HI. destruct (children w !! pid) as [c|] eqn:Hc;
    [|by unfold doResolve; rewrite Hc].
  destruct (cl_resolved c) eqn:Hr; [by rewrite (doResolve_settled pid w c)|].
  rewrite (doResolve_first pid w c Hc Hr).
  pose proof (Inv_settle pid c Fulfilled true w HI Hc Hr) as HW.
  unfold cleanup.
  rewrite (children_alter_Some child_set_resolved pid w pid c Hc).
  rewrite decide_True by done. cbn [cl_startupTimeout child_set_resolved].
  destruct (cl_startupTimeout c) as [t|].
  - apply (Inv_clearTimeout t) in HW; [exact HW|done].
  - by apply HW.
Qed.

Lemma Inv_doReject pid m w : Inv w → Inv (doReject pid m w).
Proof.
  intros HI. destruct (children w !! pid) as [c|] eqn:Hc;
    [|by unfold doReject; rewrite Hc].
  destruct (cl_resolved c) eqn:Hr; [by rewrite (doReject_settled pid m w c)|].
  destruct (inv_unresolved w HI pid c Hc Hr) as (_ & Hrun & _).
  rewrite (doReject_first pid m w c Hc Hr Hrun).
  pose proof (Inv_settle pid c (Rejected m) (this_isRunning w) w HI Hc Hr) as HW.
  unfold cleanup.
  rewrite (children_alter_Some child_set_resolved pid w pid c Hc).
  rewrite decide_True by done. cbn [cl_startupTimeout child_set_resolved].
  destruct (cl_startupTimeout c) as [t|].
  - apply (Inv_clearTimeout t) in HW; [exact HW|done].
  - by apply HW.
Qed.

(* A change to one child that keeps what the invariant reads, and may
   add listeners of promises outside the attempts. *)
Lemma Inv_alter_child f pid w :
  Inv w →
  (∀ c, cp_exited (f c) = cp_exited c) →
  (∀ c, cl_resolved (f c) = cl_resolved c) →
  (∀ c, cl_promise (f c) = cl_promise c) →
  (∀ c l, l ∈ cp_once_exit (f c) → l ∈ cp_once_exit c ∨ not_attempt w (snd l)) →
  Inv (alter_child f pid w).
Proof.
  intros HI Fe Fr Fp Fl.
  assert (Hg : grows w (alter_child f pid w)) by by apply grows_alter_child.
  assert (Hinv : ∀ j c', children (alter_child f pid w) !! j = Some c' →
            ∃ c0, children w !! j = Some c0
                  ∧ cp_exited c' = cp_exited c0 ∧ cl_resolved c' = cl_resolved c0
                  ∧ cl_promise c' = cl_promise c0
                  ∧ ∀ l, l ∈ cp_once_exit c' →
                         l ∈ cp_once_exit c0 ∨ not_attempt w (snd l)).
  { intros j c' Hc'. apply children_alter_inv in Hc'
      as (c0 & Hc0 & [[-> ->]|[Hne ->]]); exists c0; repeat split; auto. }
  split.
  - intros j c' Hc' He'. destruct (Hinv j c' Hc') as (c0 & Hc0 & E1 & _ & E3 & _).
    rewrite E3. apply (inv_alive w HI j c0 Hc0). congruence.
  - intros j c' Hc' Hr'. destruct (Hinv j c' Hc') as (c0 & Hc0 & E1 & E2 & E3 & _).
    rewrite E1, E3. apply (inv_unresolved w HI j c0 Hc0). congruence.
  - intros j c' Hc' Hr'. destruct (Hinv j c' Hc') as (c0 & Hc0 & E1 & E2 & E3 & _).
    rewrite E3. apply (inv_resolved w HI j c0 Hc0). congruence.
  - intros j c' l Hc' Hl. destruct (Hinv j c' Hc') as (c0 & Hc0 & _ & _ & _ & E4).
    eapply not_attempt_grows; [exact Hg|].
    destruct (E4 l Hl) as [H|H]; [|done]. eapply inv_listeners; eauto.
  - intros t tm sp Ht Hcb. eapply not_attempt_grows; [exact Hg|].
    eapply inv_grace; eauto.
  - intros j Hj. destruct (inv_process w HI j Hj) as (c0 & Hc0 & He0).
    eexists. split; [by apply children_alter_Some|].
    case_decide; [by rewrite Fe|done].
  - exact (inv_awaiter w HI).
  - exact (inv_active w HI).
  - exact (inv_stopped w HI).
  - exact (inv_enabled w HI).
  - intros j j' c1 c2 H1 H2 Heq.
    destruct (Hinv j c1 H1) as (d1 & Hd1 & _ & _ & E1 & _).
    destruct (Hinv j' c2 H2) as (d2 & Hd2 & _ & _ & E2 & _).
    eapply (inv_distinct w HI); eauto. congruence.
Qed.

Lemma Inv_kill pid sig w : Inv w → Inv (kill pid sig w).
Proof. intros HI. apply Inv_alter_child; auto. Qed.

(* A new promise, not yet handed to anyone. *)
Lemma Inv_Promise_new w : Inv w → Inv (snd (Promise_new w)).
Proof.
  intros HI. cbn.
  assert (Hg : grows w (set_promises (promises w ++ [new_promise]) w)).
  { apply grows_same; [|done]. cbn. rewrite length_app. lia. }
  split.
  - exact (inv_alive w HI).
  - intros j c Hc Hr. destruct (inv_unresolved w HI j c Hc Hr) as (? & ? & Hu).
    repeat split; try done. by apply lookup_app_l_Some.
  - intros j c Hc Hr. destruct (inv_resolved w HI j c Hc Hr) as (st & ? & Hl).
    exists st. split; [done|]. by apply lookup_app_l_Some.
  - intros j c l Hc Hl. eapply not_attempt_grows; [exact Hg|].
    eapply inv_listeners; eauto.
  - intros t tm sp Ht Hcb. eapply not_attempt_grows; [exact Hg|].
    eapply inv_grace; eauto.
  - exact (inv_process w HI).
  - intros sid s Hs. cbn. rewrite length_app.
    pose proof (inv_awaiter w HI sid s Hs). lia.
  - intros sid s Hs Ha.
    destruct (inv_active w HI sid s Hs Ha) as (? & ? & ? & Hu & ?).
    repeat split; try done. by apply lookup_app_l_Some.
  - exact (inv_stopped w HI).
  - exact (inv_enabled w HI).
  - exact (inv_distinct w HI).
Qed.

(* The promise made last belongs to no attempt. *)
Lemma Promise_new_not_attempt w :
  Inv w → not_attempt (snd (Promise_new w)) (fst (Promise_new w)).
Proof.
  intros HI. split; cbn.
  - rewrite length_app. cbn. lia.
  - intros Hin. apply (attempt_promise_lt w) in Hin; [lia|done].
Qed.

(* Settling a promise that belongs to no attempt. *)
Lemma Inv_settle_other o sp w :
  Inv w → sp ∉ attempt_promises w →
  Inv (set_promises (alter (settle o) sp (promises w)) w).
Proof.
  intros HI Hsp.
  assert (Hg : grows w (set_promises (alter (settle o) sp (promises w)) w)).
  { apply grows_same; [|done]. cbn. by rewrite length_alter. }
  assert (Hc : ∀ j c, children w !! j = Some c → sp ≠ cl_promise c).
  { intros j c Hc ->. by apply Hsp, (child_is_attempt w j). }
  assert (Hs : ∀ j s, servers w !! j = Some s → sp ≠ sv_awaiter s).
  { intros j s Hs ->. by apply Hsp, (server_is_attempt w j). }
  split.
  - exact (inv_alive w HI).
  - intros j c Hj Hr. destruct (inv_unresolved w HI j c Hj Hr) as (? & ? & Hu).
    repeat split; try done. unfold untouched. cbn.
    rewrite list_lookup_alter_ne; [done|]. eauto.
  - intros j c Hj Hr. destruct (inv_resolved w HI j c Hj Hr) as (st & ? & Hl).
    exists st. split; [done|]. cbn. rewrite list_lookup_alter_ne; [done|]. eauto.
  - intros j c l Hj Hl. eapply not_attempt_grows; [exact Hg|].
    eapply inv_listeners; eauto.
  - intros t tm sp' Ht Hcb. eapply not_attempt_grows; [exact Hg|].
    eapply inv_grace; eauto.
  - exact (inv_process w HI).
  - intros sid s Hj. cbn. rewrite length_alter. eapply inv_awaiter; eauto.
  - intros sid s Hj Ha.
    destruct (inv_active w HI sid s Hj Ha) as (? & ? & ? & Hu & ?).
    repeat split; try done. unfold untouched. cbn.
    rewrite list_lookup_alter_ne; [done|]. eauto.
  - exact (inv_stopped w HI).
  - exact (inv_enabled w HI).
  - exact (inv_distinct w HI).
Qed.

Lemma Inv_stop w : Inv w → Inv (snd (stop w)).
Proof.
  intros HI. unfold stop.
  destruct (this_process w) as [pid|]; [|done].
  destruct (this_isRunning w); [|done]. cbn [negb].
  pose proof (Inv_Promise_new w HI) as H1.
  pose proof (Promise_new_not_attempt w HI) as Hsp.
  destruct (Promise_new w) as [sp w1]. cbn [fst snd] in *.
  unfold setTimeout. cbn [snd].
  apply Inv_kill. apply Inv_alter_child; try done.
  - apply Inv_set_timers; [done|].
    intros t tm sp' Ht Hcb. apply lookup_snoc_inv in Ht as [Ht|[_ ->]].
    + eapply inv_grace; eauto.
    + cbn in Hcb. by simplify_eq.
  - intros c l Hl. cbn in Hl. apply elem_of_app in Hl as [Hl|Hl]; [by left|].
    apply list_elem_of_singleton in Hl as ->. by right.
Qed.

Lemma Inv_stop_timeout sp w : Inv w → not_attempt w sp → Inv (stop_timeout sp w).
Proof.
  intros HI [_ Hsp]. unfold stop_timeout, call_resolve.
  destruct (this_process w) as [pid|].
  - apply Inv_settle_other; [by apply Inv_kill|].
    unfold kill. by rewrite attempt_promises_alter_child.
  - by apply Inv_settle_other.
Qed.

(* The 'exit' listener of _start on a child whose attempt has settled. *)
Lemma Inv_exited pid c w :
  Inv w → children w !! pid = Some c → cp_exited c = false →
  cl_resolved c = true →
  Inv (set_process None (set_isRunning false (alter_child child_exit pid w))).
Proof.
  intros HI Hc He Hr.
  destruct (inv_alive w HI pid c Hc He) as [Hproc Hsp].
  set (w' := set_process _ _).
  assert (Hg : grows w w') by by apply grows_alter_child.
  assert (Hinv : ∀ j c', children w' !! j = Some c' →
            ∃ c0, children w !! j = Some c0
                  ∧ cp_exited c' = true ∧ cl_resolved c' = true
                  ∧ cl_resolved c0 = true
                  ∧ cl_promise c' = cl_promise c0
                  ∧ ∀ l, l ∈ cp_once_exit c' → l ∈ cp_once_exit c0).
  { intros j c' Hc'. apply (children_alter_inv child_exit pid w) in Hc'
      as (c0 & Hc0 & [[-> ->]|[Hne ->]]); exists c0.
    - assert (c0 = c) as -> by congruence. repeat split; try done.
      intros l Hl. cbn in Hl. by apply elem_of_nil in Hl.
    - assert (cp_exited c0 = true) as He0.
      { destruct (cp_exited c0) eqn:He0; [done|].
        destruct (inv_alive w HI j c0 Hc0 He0). congruence. }
      assert (cl_resolved c0 = true) as Hr0.
      { destruct (cl_resolved c0) eqn:Hr0; [done|].
        destruct (inv_unresolved w HI j c0 Hc0 Hr0). congruence. }
      repeat split; done. }
  split.
  - intros j c' Hc' He'. destruct (Hinv j c' Hc') as (c0 & _ & E & _). congruence.
  - intros j c' Hc' Hr'. destruct (Hinv j c' Hc') as (c0 & _ & _ & E & _).
    congruence.
  - intros j c' Hc' _. destruct (Hinv j c' Hc') as (c0 & Hc0 & _ & _ & Hr0 & E & _).
    rewrite E. exact (inv_resolved w HI j c0 Hc0 Hr0).
  - intros j c' l Hc' Hl. destruct (Hinv j c' Hc') as (c0 & Hc0 & _ & _ & _ & _ & E).
    eapply not_attempt_grows; [exact Hg|]. eapply inv_listeners; eauto.
  - intros t tm sp Ht Hcb. eapply not_attempt_grows; [exact Hg|].
    eapply inv_grace; eauto.
  - intros j Hj. cbn in Hj. done.
  - exact (inv_awaiter w HI).
  - intros sid s Hs Ha. by destruct (process_no_probe w pid sid s).
  - intros Hn. cbn in Hn. congruence.
  - exact (inv_enabled w HI).
  - intros j j' c1 c2 H1 H2 Heq.
    destruct (Hinv j c1 H1) as (d1 & Hd1 & _ & _ & _ & E1 & _).
    destruct (Hinv j' c2 H2) as (d2 & Hd2 & _ & _ & _ & E2 & _).
    eapply (inv_distinct w HI); eauto. congruence.
Qed.

(* Marking a child resolved and marking it exited commute. *)
Lemma alter_exit_resolved pid (cs : list ChildProcess) :
  alter child_set_resolved pid (alter child_exit pid cs)
  = alter child_exit pid (alter child_set_resolved pid cs).
Proof. by rewrite !list_alter_alter_eq. Qed.

Lemma Inv_on_exit pid code c w :
  Inv w → children w !! pid = Some c → cp_exited c = false →
  Inv (on_exit pid code (alter_child child_exit pid w)).
Proof.
  intros HI Hc He. unfold on_exit.
  set (w2 := set_process None (set_isRunning false (alter_child child_exit pid w))).
  assert (Hc2 : children w2 !! pid = Some (child_exit c)).
  { unfold w2. cbn. by rewrite list_lookup_alter_eq, Hc. }
  rewrite Hc2. cbn [cl_resolved child_exit].
  destruct (cl_resolved c) eqn:Hr; [by eapply Inv_exited|].
  set (m := _ ++ _).
  rewrite (doReject_first pid m w2 (child_exit c)); [|done..].
  pose proof (Inv_settle pid c (Rejected m) false w HI Hc Hr) as HW.
  assert (HWc : children
                  (set_promises (alter (settle (Rejected m)) (cl_promise c) (promises w))
                     (set_isRunning false (alter_child child_set_resolved pid w)))
                !! pid = Some (child_set_resolved c)).
  { cbn. by rewrite list_lookup_alter_eq, Hc. }
  pose proof (Inv_exited pid _ _ (HW ltac:(done)) HWc He eq_refl) as HX.
  assert (Heq : call_reject (cl_promise (child_exit c)) m
                  (alter_child child_set_resolved pid w2)
                = set_process None (set_isRunning false
                    (alter_child child_exit pid
                       (set_promises
                          (alter (settle (Rejected m)) (cl_promise c) (promises w))
                          (set_isRunning false
                             (alter_child child_set_resolved pid w)))))).
  { unfold w2, call_reject, alter_child, set_process, set_isRunning,
      set_promises, set_children. cbn. by rewrite alter_exit_resolved. }
  unfold cleanup.
  rewrite (children_alter_Some child_set_resolved pid w2 pid _ Hc2).
  rewrite decide_True by done.
  cbn [cl_startupTimeout child_set_resolved child_exit].
  destruct (cl_startupTimeout c) as [t|].
  - rewrite <- Heq in HX. apply (Inv_clearTimeout t) in HX. exact HX.
  - by rewrite Heq.
Qed.

Lemma stop_process w : this_process (snd (stop w)) = this_process w.
Proof.
  unfold stop, Promise_new, setTimeout. repeat case_match; cbn; congruence.
Qed.

Lemma stop_servers w : servers (snd (stop w)) = servers w.
Proof. unfold stop, Promise_new, setTimeout. repeat case_match; reflexivity. Qed.

Lemma doReject_process pid m w : this_process (doReject pid m w) = this_process w.
Proof.
  unfold doReject. repeat case_match; try reflexivity.
  cbn. by rewrite stop_process, cleanup_process.
Qed.

Lemma doReject_servers pid m w : servers (doReject pid m w) = servers w.
Proof.
  unfold doReject. repeat case_match; try reflexivity.
  cbn. by rewrite stop_servers, cleanup_servers.
Qed.

Lemma on_exit_process pid code w : this_process (on_exit pid code w) = None.
Proof.
  unfold on_exit. repeat case_match; try reflexivity.
  by rewrite doReject_process.
Qed.

Lemma on_exit_servers pid code w : servers (on_exit pid code w) = servers w.
Proof.
  unfold on_exit. repeat case_match; try reflexivity.
  by rewrite doReject_servers.
Qed.

(* The controller returns to its initial fields. *)
Lemma Inv_reset w :
  Inv w → this_process w = None →
  (∀ sid s, servers w !! sid = Some s → ¬ active s) →
  Inv (set_startupPromise None (set_process None (set_isRunning false w))).
Proof.
  intros HI Hp Hs. split.
  - intros j c Hc He. destruct (no_process_all_done w j c HI Hp Hc). congruence.
  - intros j c Hc Hr. destruct (no_process_all_done w j c HI Hp Hc). congruence.
  - exact (inv_resolved w HI).
  - exact (inv_listeners w HI).
  - exact (inv_grace w HI).
  - intros j Hj. cbn in Hj. done.
  - exact (inv_awaiter w HI).
  - intros sid s Hj Ha. by destruct (Hs sid s).
  - done.
  - cbn. done.
  - exact (inv_distinct w HI).
Qed.

Lemma Inv_stop_on_exit l w :
  Inv w → this_process w = None →
  (∀ sid s, servers w !! sid = Some s → ¬ active s) →
  not_attempt w (snd l) →
  Inv (stop_on_exit l w).
Proof.
  intros HI Hp Hs [_ Hl]. unfold stop_on_exit, call_resolve.
  apply Inv_settle_other; [|done].
  apply (Inv_reset (clearTimeout l.1 w)); [by apply Inv_clearTimeout|done..].
Qed.

Lemma Inv_stop_listeners ls : ∀ w,
  Inv w → this_process w = None →
  (∀ sid s, servers w !! sid = Some s → ¬ active s) →
  (∀ l, l ∈ ls → not_attempt w (snd l)) →
  Inv (foldl (λ acc l, stop_on_exit l acc) w ls).
Proof.
  induction ls as [|l ls IH]; intros w HI Hp Hs Hls; [done|].
  cbn [foldl]. apply IH.
  - apply Inv_stop_on_exit; try done. apply Hls, elem_of_cons. by left.
  - done.
  - exact Hs.
  - intros l' Hl'. eapply not_attempt_grows; [apply grows_stop_on_exit|].
    apply Hls, elem_of_cons. by right.
Qed.

Lemma Inv_emit_exit pid code c w :
  Inv w → children w !! pid = Some c → cp_exited c = false →
  Inv (emit_exit pid code c w).
Proof.
  intros HI Hc He. unfold emit_exit.
  destruct (inv_alive w HI pid c Hc He) as [Hproc _].
  apply Inv_stop_listeners.
  - by apply (Inv_on_exit pid code c).
  - apply on_exit_process.
  - intros sid s. rewrite on_exit_servers. cbn. by apply process_no_probe with pid.
  - intros l Hl. eapply not_attempt_grows.
    + eapply grows_trans; [|apply grows_on_exit]. by apply grows_alter_child.
    + eapply inv_listeners; eauto.
Qed.

Lemma servers_alter_inv st sid (l : list Server) j s' :
  alter (server_set_state st) sid l !! j = Some s' →
  ∃ s0, l !! j = Some s0 ∧ sv_awaiter s' = sv_awaiter s0
        ∧ ((j = sid ∧ sv_state s' = st) ∨ (j ≠ sid ∧ s' = s0)).
Proof.
  intros H. apply lookup_alter_Some in H as (s0 & Hs0 & [[-> ->]|[Hne ->]]);
    exists s0; repeat split; auto.
Qed.

(* A change of the servers that starts no probe. *)
Lemma Inv_set_servers ss w :
  Inv w →
  sv_awaiter <$> ss = sv_awaiter <$> servers w →
  (∀ j s', ss !! j = Some s' → active s' →
     ∃ s0, servers w !! j = Some s0 ∧ active s0) →
  Inv (set_servers ss w).
Proof.
  intros HI Haw Hact.
  assert (Hg : grows w (set_servers ss w)).
  { apply grows_same; [done|]. unfold attempt_promises. cbn. by rewrite Haw. }
  assert (Hinv : ∀ j s', ss !! j = Some s' →
            ∃ s0, servers w !! j = Some s0 ∧ sv_awaiter s' = sv_awaiter s0).
  { intros j s' Hs'.
    assert (Hj : (sv_awaiter <$> ss) !! j = Some (sv_awaiter s'))
      by by rewrite list_lookup_fmap, Hs'.
    rewrite Haw, list_lookup_fmap in Hj.
    destruct (servers w !! j) as [s0|]; [|done]. exists s0. cbn in Hj.
    split; [done|]. congruence. }
  split.
  - exact (inv_alive w HI).
  - exact (inv_unresolved w HI).
  - exact (inv_resolved w HI).
  - intros j c l Hc Hl. eapply not_attempt_grows; [exact Hg|].
    eapply inv_listeners; eauto.
  - intros t tm sp Ht Hcb. eapply not_attempt_grows; [exact Hg|].
    eapply inv_grace; eauto.
  - exact (inv_process w HI).
  - intros j s' Hs'. destruct (Hinv j s' Hs') as (s0 & Hs0 & ->).
    exact (inv_awaiter w HI j s0 Hs0).
  - intros j s' Hs' Ha. destruct (Hinv j s' Hs') as (s0 & Hs0 & ->).
    destruct (Hact j s' Hs' Ha) as (s1 & Hs1 & Ha1).
    assert (s1 = s0) as -> by congruence.
    destruct (inv_active w HI j s0 Hs0 Ha1) as (? & ? & ? & ? & Huniq).
    repeat split; try done.
    intros j' s'' Hs'' Ha''. destruct (Hact j' s'' Hs'' Ha'') as (s2 & Hs2 & Ha2).
    eapply Huniq; eauto.
  - exact (inv_stopped w HI).
  - exact (inv_enabled w HI).
  - exact (inv_distinct w HI).
Qed.

Lemma Inv_listening sid s w :
  Inv w → servers w !! sid = Some s → sv_state s = Binding →
  Inv (set_servers (alter (server_set_state Closing) sid (servers w)) w).
Proof.
  intros HI Hs Hst. apply Inv_set_servers; [done|apply sv_awaiter_alter|].
  intros j s' Hs' Ha. apply servers_alter_inv in Hs'
    as (s0 & Hs0 & _ & [[-> _]|[_ ->]]); exists s0; split; try done.
  assert (s0 = s) as -> by congruence. by left.
Qed.

(* The probe has reported back: no probe is under way any more. *)
Lemma server_done_no_probe st sid s w :
  Inv w → servers w !! sid = Some s → active s → st = Closed ∨ st = Failed →
  ∀ j s', alter (server_set_state st) sid (servers w) !! j = Some s' → ¬ active s'.
Proof.
  intros HI Hs Ha Hst j s' Hs' Ha'.
  destruct (inv_active w HI sid s Hs Ha) as (_ & _ & _ & _ & Huniq).
  apply servers_alter_inv in Hs' as (s0 & Hs0 & _ & [[-> Hst']|[Hne ->]]).
  - destruct Ha' as [Ha'|Ha'], Hst as [-> | ->]; congruence.
  - apply Hne. eapply Huniq; eauto.
Qed.

Lemma Inv_server_done st sid s w :
  Inv w → servers w !! sid = Some s → active s → st = Closed ∨ st = Failed →
  Inv (set_servers (alter (server_set_state st) sid (servers w)) w).
Proof.
  intros HI Hs Ha Hst. apply Inv_set_servers; [done|apply sv_awaiter_alter|].
  intros j s' Hs' Ha'. by destruct (server_done_no_probe st sid s w HI Hs Ha Hst j s').
Qed.

(* The awaiting _start is rejected by the probe. *)
Lemma Inv_reject_probe p m w :
  Inv w → this_process w = None → untouched w p →
  (∀ sid s, servers w !! sid = Some s → ¬ active s) →
  Inv (call_reject p m w).
Proof.
  intros HI Hp Hu Hs.
  assert (Hg : grows w (call_reject p m w)) by apply grows_call_reject.
  split.
  - exact (inv_alive w HI).
  - intros j c Hc Hr. destruct (no_process_all_done w j c HI Hp Hc). congruence.
  - intros j c Hc Hr. destruct (inv_resolved w HI j c Hc Hr) as (st & Hst & Hl).
    exists st. split; [done|]. cbn. rewrite list_lookup_alter_ne; [done|].
    eapply untouched_not_settled; [exact Hu|]. by exists st.
  - intros j c l Hc Hl. eapply not_attempt_grows; [exact Hg|].
    eapply inv_listeners; eauto.
  - intros t tm sp Ht Hcb. eapply not_attempt_grows; [exact Hg|].
    eapply inv_grace; eauto.
  - exact (inv_process w HI).
  - intros sid s Hj. cbn. rewrite length_alter. eapply inv_awaiter; eauto.
  - intros sid s Hj Ha. by destruct (Hs sid s).
  - exact (inv_stopped w HI).
  - exact (inv_enabled w HI).
  - exact (inv_distinct w HI).
Qed.

(* spawn and the assignment of this.process on line 83. *)
Lemma Inv_spawn file args p w :
  Inv w → this_process w = None → this_isRunning w = false →
  this_startupPromise w = Some p → untouched w p →
  (∀ sid s, servers w !! sid = Some s → ¬ active s) →
  p ∈ attempt_promises w →
  Inv (set_process (Some (length (children w)))
         (snd (spawn file args p w))).
Proof.
  intros HI Hp Hrun Hsp Hu Hs Hin. cbn [spawn snd].
  set (new := mkChildProcess file args [] false false None p []).
  set (w' := set_process _ _).
  assert (Hg : grows w w').
  { split; [done|]. intros q. unfold attempt_promises. cbn.
    rewrite fmap_app, !elem_of_app. cbn. rewrite list_elem_of_singleton.
    unfold attempt_promises in Hin. rewrite elem_of_app in Hin.
    intros [[H| ->]|H]; left; tauto. }
  assert (Hinv : ∀ j c', children w' !! j = Some c' →
            (children w !! j = Some c' ∧ cp_exited c' = true ∧ cl_resolved c' = true)
            ∨ (j = length (children w) ∧ c' = new)).
  { intros j c' Hc'. cbn in Hc'. apply lookup_snoc_inv in Hc' as [Hc'|[-> ->]].
    - left. split; [done|]. by apply (no_process_all_done w j).
    - by right. }
  split.
  - intros j c' Hc' He'. destruct (Hinv j c' Hc') as [(_ & ? & _)|[-> ->]];
      [congruence|done].
  - intros j c' Hc' Hr'. destruct (Hinv j c' Hc') as [(_ & _ & ?)|[-> ->]];
      [congruence|done].
  - intros j c' Hc' Hr'. destruct (Hinv j c' Hc') as [(Hc0 & _ & _)|[-> ->]];
      [|done]. exact (inv_resolved w HI j c' Hc0 Hr').
  - intros j c' l Hc' Hl. destruct (Hinv j c' Hc') as [(Hc0 & _ & _)|[-> ->]].
    + eapply not_attempt_grows; [exact Hg|]. eapply inv_listeners; eauto.
    + cbn in Hl. by apply elem_of_nil in Hl.
  - intros t tm sp Ht Hcb. eapply not_attempt_grows; [exact Hg|].
    eapply inv_grace; eauto.
  - intros j Hj. cbn in Hj. simplify_eq. exists new. split; [|done].
    cbn. apply lookup_new.
  - exact (inv_awaiter w HI).
  - intros sid s Hj Ha. by destruct (Hs sid s).
  - intros Hn. cbn in Hn. congruence.
  - exact (inv_enabled w HI).
  - intros j j' c1 c2 H1 H2 Heq.
    destruct (Hinv j c1 H1) as [(Hc1 & _ & Hr1)|[-> ->]],
             (Hinv j' c2 H2) as [(Hc2 & _ & Hr2)|[-> ->]].
    + eapply (inv_distinct w HI); eauto.
    + exfalso. eapply (untouched_not_settled w p (cl_promise c1)); [done| |done].
      eapply inv_resolved; eauto.
    + exfalso. eapply (untouched_not_settled w p (cl_promise c2)); [done| |done].
      eapply inv_resolved; eauto.
    + done.
Qed.

Lemma Inv_start_resume p w :
  Inv w → this_process w = None → this_isRunning w = false →
  this_startupPromise w = Some p → untouched w p →
  (∀ sid s, servers w !! sid = Some s → ¬ active s) →
  p ∈ attempt_promises w →
  Inv (_start_resume p w).
Proof.
  intros HI Hp Hrun Hsp Hu Hs Hin. unfold _start_resume.
  set (w1 := if existsSync _ w then w else _).
  set (w2 := if existsSync _ w1 then w1 else _).
  assert (H2 : Inv w2 ∧ this_process w2 = None ∧ this_isRunning w2 = false
               ∧ this_startupPromise w2 = Some p ∧ promises w2 = promises w
               ∧ servers w2 = servers w ∧ children w2 = children w
               ∧ this_config w2 = this_config w).
  { unfold w2, w1. repeat case_match;
      (split; [repeat apply Inv_set_directories; exact HI|repeat split; done]). }
  destruct H2 as (HI2 & Hp2 & Hrun2 & Hsp2 & Hps2 & Hss2 & Hcs2 & Hcfg2).
  clearbody w2. clear w1.
  pose proof (Inv_spawn (mongodPath (this_config w)) (spawn_args (this_config w))
                p w2 HI2 Hp2 Hrun2 Hsp2) as HS.
  unfold setTimeout. cbn [spawn snd fst] in *.
  apply Inv_alter_child; try done.
  - apply Inv_set_timers.
    + apply HS.
      * unfold untouched. by rewrite Hps2.
      * by rewrite Hss2.
      * unfold attempt_promises. by rewrite Hss2, Hcs2.
    + intros t tm sp Ht Hcb. cbn in Ht. apply lookup_snoc_inv in Ht as [Ht|[_ ->]].
      * eapply (not_attempt_grows w2).
        -- split; [done|]. intros q. unfold attempt_promises. cbn.
           rewrite fmap_app, !elem_of_app. cbn. rewrite list_elem_of_singleton.
           unfold attempt_promises in Hin. rewrite elem_of_app in Hin.
           rewrite Hcs2, Hss2. intros [[H| ->]|H]; left; tauto.
        -- eapply inv_grace; eauto.
      * cbn in Hcb. done.
  - intros c l Hl. by left.
Qed.

(* start() on an empty this.startupPromise, up to server.listen: the new
   promise, the server of the probe (in whatever state) and the
   reference to the promise. *)
Lemma Inv_start_probe st w :
  Inv w → this_startupPromise w = None →
  enabled (this_config w) = true →
  Inv (set_startupPromise (Some (length (promises w)))
         (set_servers
            (servers w
             ++ [mkServer "127.0.0.1" (port (this_config w)) st
                   (length (promises w))])
            (set_promises (promises w ++ [new_promise]) w))).
Proof.
  intros HI Hsp Hen.
  destruct (inv_stopped w HI Hsp) as [Hp Hrun].
  assert (Hg : grows w
            (set_startupPromise (Some (length (promises w)))
               (set_servers
                  (servers w
                   ++ [mkServer "127.0.0.1" (port (this_config w)) st
                         (length (promises w))])
                  (set_promises (promises w ++ [new_promise]) w)))).
  { split; [cbn; rewrite length_app; lia|].
    intros p. unfold attempt_promises. cbn.
    rewrite fmap_app, !elem_of_app. cbn. rewrite list_elem_of_singleton.
    intros [Hq|[Hq|Hq]]; [by left; left| by left; right|right; lia]. }
  assert (Hs : ∀ sid s, servers w !! sid = Some s → ¬ active s).
  { intros sid s Hs Ha. destruct (inv_active w HI sid s Hs Ha). congruence. }
  split.
  - intros j c Hc He. destruct (no_process_all_done w j c HI Hp Hc). congruence.
  - intros j c Hc Hr. destruct (no_process_all_done w j c HI Hp Hc). congruence.
  - intros j c Hc Hr. destruct (inv_resolved w HI j c Hc Hr) as (st0 & ? & Hl).
    exists st0. split; [done|]. by apply lookup_app_l_Some.
  - intros j c l Hc Hl. eapply not_attempt_grows; [exact Hg|].
    eapply inv_listeners; eauto.
  - intros t tm sp Ht Hcb. eapply not_attempt_grows; [exact Hg|].
    eapply inv_grace; eauto.
  - intros j Hj. cbn in Hj. congruence.
  - intros sid s Hj. cbn in Hj |- *. rewrite length_app. cbn.
    apply lookup_snoc_inv in Hj as [Hj|[_ ->]].
    + pose proof (inv_awaiter w HI sid s Hj). lia.
    + cbn. lia.
  - intros sid s Hj Ha. cbn in Hj.
    apply lookup_snoc_inv in Hj as [Hj|[-> ->]]; [by destruct (Hs sid s)|].
    repeat split; try done.
    + unfold untouched. cbn. apply lookup_new.
    + intros sid' s' Hj' Ha'. cbn in Hj'.
      apply lookup_snoc_inv in Hj' as [Hj'|[-> _]]; [by destruct (Hs sid' s')|done].
  - intros Hn. cbn in Hn. congruence.
  - done.
  - exact (inv_distinct w HI).
Qed.

Lemma Inv_start w : Inv w → Inv (snd (start w)).
Proof.
  intros HI. unfold start.
  destruct (enabled (this_config w)) eqn:Hen; [|done]. cbn [negb].
  destruct (this_startupPromise w) as [p|] eqn:Hsp; [done|].
  destruct (inv_stopped w HI Hsp) as [Hp Hrun].
  unfold _start, Promise_new. cbn [this_isRunning set_promises].
  rewrite Hrun. cbn [snd].
  assert (Hs : ∀ sid s, servers w !! sid = Some s → ¬ active s).
  { intros sid s Hs Ha. destruct (inv_active w HI sid s Hs Ha). congruence. }
  unfold checkPortAvailable.
  change (this_config (set_promises (promises w ++ [new_promise]) w))
    with (this_config w).
  change (servers (set_promises (promises w ++ [new_promise]) w))
    with (servers w).
  change (runtime (set_promises (promises w ++ [new_promise]) w))
    with (runtime w).
  destruct (valid_port (port (this_config w))); [by apply Inv_start_probe|].
  apply (Inv_reject_probe (length (promises w)) _
           (set_startupPromise (Some (length (promises w)))
              (set_servers
                 (servers w
                  ++ [mkServer "127.0.0.1" (port (this_config w)) Failed
                        (length (promises w))])
                 (set_promises (promises w ++ [new_promise]) w)))).
  - by apply Inv_start_probe.
  - done.
  - unfold untouched. cbn. apply lookup_new.
  - intros sid s Hj Ha. cbn in Hj.
    apply lookup_snoc_inv in Hj as [Hj|[_ ->]]; [by destruct (Hs sid s)|].
    by destruct Ha.
Qed.

Theorem step_Inv w e w' : Inv w → step w e = Some w' → Inv w'.
Proof.
  intros HI. destruct e; cbn [step]; intros H.
  - simplify_eq. by apply Inv_start.
  - simplify_eq. by apply Inv_stop.
  - destruct (servers w !! sid) as [s|] eqn:Hs; [|done].
    destruct (sv_state s) eqn:Hst; simplify_eq. by eapply Inv_listening.
  - destruct (servers w !! sid) as [s|] eqn:Hs; [|done].
    destruct (sv_state s) eqn:Hst; simplify_eq.
    assert (Ha : active s) by by right.
    destruct (inv_active w HI sid s Hs Ha) as (Hsp & Hp & Hrun & Hu & _).
    apply Inv_start_resume; try done.
    + apply (Inv_server_done Closed sid s); auto.
    + apply (server_done_no_probe Closed sid s w); auto.
    + unfold attempt_promises. cbn. rewrite sv_awaiter_alter.
      by apply (server_is_attempt w sid).
  - destruct (servers w !! sid) as [s|] eqn:Hs; [|done].
    destruct (sv_state s) eqn:Hst; simplify_eq.
    assert (Ha : active s) by by left.
    destruct (inv_active w HI sid s Hs Ha) as (Hsp & Hp & Hrun & Hu & _).
    apply Inv_reject_probe; try done.
    + apply (Inv_server_done Failed sid s); auto.
    + apply (server_done_no_probe Failed sid s w); auto.
  - destruct (children w !! pid); simplify_eq. unfold on_stdout_data.
    case_match; [by apply Inv_doResolve|done].
  - destruct (children w !! pid); simplify_eq. unfold on_stderr_data.
    case_match; [by apply Inv_doResolve|done].
  - destruct (children w !! pid); simplify_eq. by apply Inv_doReject.
  - destruct (children w !! pid) as [c|] eqn:Hc; [|done].
    destruct (cp_exited c) eqn:He; simplify_eq. by apply Inv_emit_exit.
  - destruct (timers w !! t) as [tm|] eqn:Ht; [|done].
    destruct (t_pending tm); simplify_eq.
    pose proof (Inv_clearTimeout t w HI) as HC.
    unfold run_timer. destruct (t_callback tm) as [pid|sp] eqn:Hcb.
    + by apply Inv_doReject.
    + apply Inv_stop_timeout; [done|].
      eapply (not_attempt_grows w); [by apply grows_same|].
      eapply inv_grace; eauto.
  - destruct (servers w !! sid) as [s|] eqn:Hs; [|done].
    destruct (sv_state s) eqn:Hst; try done.
    apply start_throws_inv in H as [ds ->].
    assert (Ha : active s) by by right.
    destruct (inv_active w HI sid s Hs Ha) as (Hsp & Hp & Hrun & Hu & _).
    apply Inv_reject_probe; try done.
    + apply Inv_set_directories. apply (Inv_server_done Closed sid s); auto.
    + apply (server_done_no_probe Closed sid s w); auto.
Qed.

Theorem run_Inv es : ∀ w w', Inv w → run w es = Some w' → Inv w'.
Proof.
  induction es as [|e es IH]; intros w w' HI H; cbn [run] in H.
  - by simplify_eq.
  - destruct (step w e) as [w1|] eqn:E; [|done].
    eapply IH; [|exact H]. eapply step_Inv; eauto.
Qed.

Theorem reachable_Inv host config es w :
  run (constructor host config) es = Some w → Inv w.
Proof. apply run_Inv, Inv_constructor. Qed.

(* --------------------------------------------------------------------- *)
(* What every turn keeps                                                 *)
(* --------------------------------------------------------------------- *)

Lemma evolves_refl w : evolves w w.
Proof.
  split; [apply grows_refl|eauto..].
Qed.

Lemma evolves_trans w1 w2 w3 : evolves w1 w2 → evolves w2 w3 → evolves w1 w3.
Proof.
  intros [G1 C1 S1 R1] [G2 C2 S2 R2]. split.
  - by eapply grows_trans.
  - intros pid c Hc. destruct (C1 pid c Hc) as (c' & Hc' & E1 & E2 & E3).
    destruct (C2 pid c' Hc') as (c'' & Hc'' & F1 & F2 & F3).
    exists c''. repeat split; congruence.
  - intros p pr Hp. destruct (S1 p pr Hp) as (pr' & Hp' & E).
    destruct (S2 p pr' Hp') as (pr'' & Hp'' & F).
    exists pr''. split; [done|]. intros Hn. rewrite F; [by apply E|].
    by rewrite E.
  - intros p pr' m Hp Hst. destruct G1 as [Hl1 Ha1].
    destruct (R2 p pr' m Hp Hst) as [(pr & Hpr & Hst')|[Hin|Hlen]].
    + eapply R1; eauto.
    + destruct (Ha1 p Hin); auto.
    + right. right. lia.
Qed.

(* Nothing the relation reads has changed. *)
Lemma evolves_same w w' :
  promises w' = promises w → children w' = children w → servers w' = servers w →
  evolves w w'.
Proof.
  intros Hp Hc Hs. split.
  - apply grows_same; [by rewrite Hp|]. unfold attempt_promises.
    by rewrite Hc, Hs.
  - intros pid c H. rewrite Hc. eauto.
  - intros p pr H. rewrite Hp. eauto.
  - intros p pr' m H Hst. rewrite Hp in H. left. eauto.
Qed.

Lemma evolves_alter_child f pid w :
  (∀ c, cl_promise (f c) = cl_promise c) →
  (∀ c, cp_file (f c) = cp_file c) →
  (∀ c, cp_args (f c) = cp_args c) →
  evolves w (alter_child f pid w).
Proof.
  intros F1 F2 F3. split.
  - by apply grows_alter_child.
  - intros j c Hc. eexists. split; [by apply children_alter_Some|].
    case_decide; auto.
  - intros p pr H. eauto.
  - intros p pr' m H Hst. left. eauto.
Qed.

Lemma evolves_cleanup pid w : evolves w (cleanup pid w).
Proof.
  unfold cleanup. repeat case_match; try apply evolves_refl.
  by apply evolves_same.
Qed.

Lemma settle_state o pr : p_state pr ≠ Pending → p_state (settle o pr) = p_state pr.
Proof. unfold settle. cbn. by destruct (p_state pr). Qed.

Lemma evolves_call_resolve p w : evolves w (call_resolve p w).
Proof.
  split.
  - apply grows_call_resolve.
  - intros pid c H. eauto.
  - intros q pr H. cbn. destruct (decide (p = q)) as [->|Hne].
    + rewrite list_lookup_alter_eq, H. eexists. split; [done|].
      apply settle_state.
    + rewrite list_lookup_alter_ne by done. eauto.
  - intros q pr' m H Hst. left. cbn in H.
    apply lookup_alter_Some in H as (pr & Hpr & [[_ ->]|[_ ->]]);
      exists pr; split; try done.
    cbn in Hst. by destruct (p_state pr).
Qed.

Lemma evolves_call_reject p m w :
  p ∈ attempt_promises w → evolves w (call_reject p m w).
Proof.
  intros Hin. split.
  - apply grows_call_reject.
  - intros pid c H. eauto.
  - intros q pr H. cbn. destruct (decide (p = q)) as [->|Hne].
    + rewrite list_lookup_alter_eq, H. eexists. split; [done|].
      apply settle_state.
    + rewrite list_lookup_alter_ne by done. eauto.
  - intros q pr' m' H Hst. cbn in H.
    apply lookup_alter_Some in H as (pr & Hpr & [[<- ->]|[_ ->]]).
    + right. by left.
    + left. eauto.
Qed.

Lemma evolves_Promise_new w : evolves w (snd (Promise_new w)).
Proof.
  split.
  - apply grows_same; [|done]. cbn. rewrite length_app. lia.
  - intros pid c H. eauto.
  - intros p pr H. exists pr. split; [|done]. cbn. by apply lookup_app_l_Some.
  - intros p pr' m H Hst. cbn in H. apply lookup_snoc_inv in H as [H|[_ ->]].
    + left. eauto.
    + done.
Qed.

Lemma evolves_stop w : evolves w (snd (stop w)).
Proof.
  unfold stop. destruct (this_process w) as [pid|]; [|apply evolves_refl].
  destruct (negb (this_isRunning w)); [apply evolves_refl|].
  pose proof (evolves_Promise_new w) as H1.
  destruct (Promise_new w) as [sp w1]. unfold setTimeout, kill. cbn [snd] in *.
  eapply evolves_trans; [exact H1|].
  eapply evolves_trans; [|by apply evolves_alter_child].
  eapply evolves_trans; [|by apply evolves_alter_child].
  by apply evolves_same.
Qed.

Lemma evolves_doResolve pid w : evolves w (doResolve pid w).
Proof.
  unfold doResolve. repeat case_match; try apply evolves_refl.
  eapply evolves_trans; [|apply evolves_call_resolve].
  apply (evolves_trans _ (cleanup pid (alter_child child_set_resolved pid w)));
    [|by apply evolves_same].
  eapply evolves_trans; [|apply evolves_cleanup].
  by apply evolves_alter_child.
Qed.

Lemma evolves_doReject pid m w : evolves w (doReject pid m w).
Proof.
  unfold doReject. destruct (children w !! pid) as [c|] eqn:Hc;
    [|apply evolves_refl].
  destruct (cl_resolved c); [apply evolves_refl|].
  assert (H3 : evolves w (stop (cleanup pid
                 (alter_child child_set_resolved pid w))).2).
  { eapply evolves_trans; [|apply evolves_stop].
    eapply evolves_trans; [|apply evolves_cleanup].
    by apply evolves_alter_child. }
  eapply evolves_trans; [exact H3|].
  apply evolves_call_reject.
  destruct (ev_children _ _ H3 pid c Hc) as (c' & Hc' & <- & _).
  by eapply child_is_attempt.
Qed.

Lemma evolves_on_exit pid code w : evolves w (on_exit pid code w).
Proof.
  unfold on_exit. repeat case_match; try by apply evolves_same.
  eapply evolves_trans; [|apply evolves_doReject]. by apply evolves_same.
Qed.

Lemma evolves_stop_on_exit l w : evolves w (stop_on_exit l w).
Proof.
  unfold stop_on_exit.
  eapply evolves_trans; [|apply evolves_call_resolve]. by apply evolves_same.
Qed.

Lemma evolves_stop_listeners ls w :
  evolves w (foldl (λ acc l, stop_on_exit l acc) w ls).
Proof.
  revert w. induction ls as [|l ls IH]; intros w; [apply evolves_refl|].
  cbn [foldl]. eapply evolves_trans; [apply evolves_stop_on_exit|apply IH].
Qed.

Lemma evolves_emit_exit pid code c w : evolves w (emit_exit pid code c w).
Proof.
  unfold emit_exit.
  eapply evolves_trans; [|apply evolves_stop_listeners].
  eapply evolves_trans; [|apply evolves_on_exit].
  by apply evolves_alter_child.
Qed.

Lemma evolves_stop_timeout sp w : evolves w (stop_timeout sp w).
Proof.
  unfold stop_timeout.
  eapply evolves_trans; [|apply evolves_call_resolve].
  case_match; [|apply evolves_refl].
  by apply evolves_alter_child.
Qed.

Lemma evolves_set_servers ss w :
  grows w (set_servers ss w) → evolves w (set_servers ss w).
Proof.
  intros Hg. split; [done|eauto..].
Qed.

Lemma evolves_start w : evolves w (snd (start w)).
Proof.
  pose proof (grows_start w) as Hg. revert Hg. unfold start.
  destruct (negb (enabled (this_config w))); [intros _; apply evolves_refl|].
  destruct (this_startupPromise w); [intros _; apply evolves_refl|].
  unfold _start. pose proof (evolves_Promise_new w) as H1.
  destruct (Promise_new w) as [p w1] eqn:E. cbn [snd] in H1.
  destruct (this_isRunning w1); cbn [snd]; intros Hg.
  - eapply evolves_trans; [exact H1|].
    eapply evolves_trans; [apply evolves_call_resolve|]. by apply evolves_same.
  - unfold Promise_new in E. simplify_eq. unfold checkPortAvailable in *.
    destruct (valid_port _).
    + split; [done| | |].
      * intros pid c Hc. apply (ev_children _ _ H1 pid c Hc).
      * intros q pr Hq. apply (ev_sticky _ _ H1 q pr Hq).
      * intros q pr' m Hq Hst. apply (ev_rejected _ _ H1 q pr' m Hq Hst).
    + split; [done| | |].
      * intros pid c Hc. apply (ev_children _ _ H1 pid c Hc).
      * intros q pr Hq.
        destruct (ev_sticky _ _ H1 q pr Hq) as (pr' & Hq' & Hst).
        exists pr'. split; [|done]. cbn. rewrite list_lookup_alter_ne; [done|].
        apply lookup_lt_Some in Hq. lia.
      * intros q pr' m Hq Hst.
        destruct (decide (q = length (promises w))) as [->|Hne];
          [right; right; lia|].
        cbn in Hq. rewrite list_lookup_alter_ne in Hq by done.
        apply (ev_rejected _ _ H1 q pr' m Hq Hst).
Qed.

Lemma evolves_start_resume p w :
  p ∈ attempt_promises w → evolves w (_start_resume p w).
Proof.
  intros Hp. pose proof (grows_start_resume p w Hp) as Hg. revert Hg.
  unfold _start_resume, spawn, setTimeout. intros Hg.
  split; [done| | |].
  - intros pid c Hc. eexists. split.
    + repeat case_match; cbn;
        rewrite list_lookup_alter_ne by (apply lookup_lt_Some in Hc; lia);
        by apply lookup_app_l_Some.
    + done.
  - intros q pr Hq. exists pr. split; [|done]. by repeat case_match.
  - intros q pr' m Hq Hst. left. exists pr'. split; [|done].
    revert Hq. by repeat case_match.
Qed.

Theorem step_evolves w e w' : step w e = Some w' → evolves w w'.
Proof.
  intros H. pose proof (step_grows w e w' H) as Hg. revert H.
  destruct e; cbn [step]; intros H; repeat case_match; simplify_eq.
  - apply evolves_start.
  - apply evolves_stop.
  - by apply evolves_set_servers.
  - eapply evolves_trans; [|apply evolves_start_resume].
    + apply evolves_set_servers. apply grows_same; [done|].
      unfold attempt_promises. cbn. by rewrite sv_awaiter_alter.
    + unfold attempt_promises. cbn. rewrite sv_awaiter_alter.
      by eapply (server_is_attempt w).
  - eapply evolves_trans; [|apply evolves_call_reject].
    + apply evolves_set_servers. apply grows_same; [done|].
      unfold attempt_promises. cbn. by rewrite sv_awaiter_alter.
    + unfold attempt_promises. cbn. rewrite sv_awaiter_alter.
      by eapply (server_is_attempt w).
  - unfold on_stdout_data. case_match; [apply evolves_doResolve|apply evolves_refl].
  - unfold on_stderr_data. case_match; [apply evolves_doResolve|apply evolves_refl].
  - apply evolves_doReject.
  - apply evolves_emit_exit.
  - apply (evolves_trans _ (clearTimeout t w)); [by apply evolves_same|].
    unfold run_timer.
    case_match; [apply evolves_doReject|apply evolves_stop_timeout].
  - apply start_throws_inv in H as [ds ->].
    eapply evolves_trans; [|apply evolves_call_reject].
    + apply (evolves_trans _
               (set_servers (alter (server_set_state Closed) sid (servers w)) w));
        [|by apply evolves_same].
      apply evolves_set_servers. apply grows_same; [done|].
      unfold attempt_promises. cbn. by rewrite sv_awaiter_alter.
    + unfold attempt_promises. cbn. rewrite sv_awaiter_alter.
      by eapply (server_is_attempt w).
Qed.

Theorem run_evolves es : ∀ w w', run w es = Some w' → evolves w w'.
Proof.
  induction es as [|e es IH]; intros w w' H; cbn [run] in H.
  - simplify_eq. apply evolves_refl.
  - destruct (step w e) as [w1|] eqn:E; [|done].
    eapply evolves_trans; [by eapply step_evolves|by apply IH].
Qed.

(* --------------------------------------------------------------------- *)
(* Exactly-once settlement of a startup attempt                          *)
(* --------------------------------------------------------------------- *)

(* The first signal gives the promise of the attempt its state. *)
Lemma first_signal_state w pid c e o w1 :
  Inv w → children w !! pid = Some c → cl_resolved c = false →
  startup_signal w pid e = Some o → step w e = Some w1 →
  p_state <$> promises w1 !! cl_promise c = Some o ∧ o ≠ Pending.
Proof.
  intros HI Hc Hr Hsig Hstep.
  destruct (inv_unresolved w HI pid c Hc Hr) as (He & Hrun & Hun).
  assert (Hres : ∀ w0, promises w0 = promises w → children w0 = children w →
            p_state <$> promises (doResolve pid w0) !! cl_promise c = Some Fulfilled).
  { intros w0 Hp0 Hc0. rewrite (doResolve_first pid w0 c); [|congruence|done].
    cbn. rewrite cleanup_promises. cbn.
    by rewrite Hp0, list_lookup_alter_eq, Hun. }
  assert (Hrej : ∀ m w0, promises w0 = promises w →
            (∃ c0, children w0 !! pid = Some c0 ∧ cl_resolved c0 = false
                   ∧ cl_promise c0 = cl_promise c) →
            this_isRunning w0 = false →
            p_state <$> promises (doReject pid m w0) !! cl_promise c
            = Some (Rejected m)).
  { intros m w0 Hp0 (c0 & Hc0 & Hr0 & Hpc) Hrun0.
    rewrite (doReject_first pid m w0 c0); [|done..].
    cbn. rewrite cleanup_promises. cbn.
    by rewrite Hpc, Hp0, list_lookup_alter_eq, Hun. }
  destruct e; cbn in Hsig; try done.
  - destruct (Nat.eqb_spec pid0 pid) as [->|]; [|done].
    destruct (has_marker data) eqn:Hm; [|done]. cbn in Hsig, Hstep.
    rewrite Hc in Hstep. unfold on_stdout_data in Hstep. rewrite Hm in Hstep.
    simplify_eq. split; [by apply Hres|done].
  - destruct (Nat.eqb_spec pid0 pid) as [->|]; [|done].
    destruct (has_marker data) eqn:Hm; [|done]. cbn in Hsig, Hstep.
    rewrite Hc in Hstep. unfold on_stderr_data in Hstep. rewrite Hm in Hstep.
    simplify_eq. split; [by apply Hres|done].
  - destruct (Nat.eqb_spec pid0 pid) as [->|]; [|done].
    cbn in Hstep. rewrite Hc in Hstep. unfold on_error in Hstep.
    simplify_eq. split; [|done]. apply Hrej; eauto.
  - destruct (Nat.eqb_spec pid0 pid) as [->|]; [|done].
    cbn in Hstep. rewrite Hc, He in Hstep. simplify_eq. split; [|done].
    unfold emit_exit.
    set (m := "MongoDB subprocess exited with code "
              ++ String_or_null code ++ " before starting").
    set (w2 := on_exit pid code (alter_child child_exit pid w)).
    assert (H2 : p_state <$> promises w2 !! cl_promise c = Some (Rejected m)).
    { unfold w2, on_exit.
      set (w0 := set_process None _).
      assert (Hc0 : children w0 !! pid = Some (child_exit c)).
      { unfold w0. cbn. by rewrite list_lookup_alter_eq, Hc. }
      rewrite Hc0. cbn [cl_resolved child_exit]. rewrite Hr.
      apply Hrej; [done| |done]. exists (child_exit c). by repeat split. }
    destruct (promises w2 !! cl_promise c) as [pr|] eqn:Hpr; [|done].
    cbn in H2. simplify_eq.
    destruct (ev_sticky _ _ (evolves_stop_listeners (cp_once_exit c) w2)
                (cl_promise c) pr Hpr) as (pr' & -> & Hst).
    cbn. f_equal. rewrite Hst; [done|]. by rewrite H2.
  - destruct (timers w !! t) as [tm|] eqn:Ht; [|done]. cbn in Hsig.
    destruct (t_callback tm) as [pid'|] eqn:Hcb; [|done].
    destruct (Nat.eqb_spec pid' pid) as [->|]; [|done].
    cbn in Hstep. rewrite Ht in Hstep.
    destruct (t_pending tm); [|done]. rewrite Hcb in Hstep.
    cbn in Hstep. unfold on_startup_timeout in Hstep. simplify_eq.
    split; [|done]. apply Hrej; eauto.
Qed.

(** C1: take any state the controller can reach in which the attempt of
    child pid has not settled (resolved is false).  Its promise is the one
    start() returned, and neither resolve nor reject has been called on
    it.  Whichever of the four signals arrives first (a readiness marker
    on stdout or stderr, the 'error' event, the 'exit' event, the startup
    timer), and whatever events follow in whatever order, the promise
    ends with the outcome of that first signal and with exactly one call
    of resolve or reject. *)
Theorem startup_settles_exactly_once host config es w pid c e o later w' :
  run (constructor host config) es = Some w →
  children w !! pid = Some c →
  cl_resolved c = false →
  startup_signal w pid e = Some o →
  run w (e :: later) = Some w' →
  this_startupPromise w = Some (cl_promise c)
  ∧ promises w !! cl_promise c = Some (mkPromise Pending 0)
  ∧ promises w' !! cl_promise c = Some (mkPromise o 1).
Proof.
  intros Hreach Hc Hr Hsig Hrun.
  pose proof (reachable_Inv _ _ _ _ Hreach) as HI.
  destruct (inv_unresolved w HI pid c Hc Hr) as (He & _ & Hun).
  destruct (inv_alive w HI pid c Hc He) as [_ Hsp].
  split; [done|]. split; [done|].
  cbn [run] in Hrun. destruct (step w e) as [w1|] eqn:Hstep; [|done].
  destruct (first_signal_state w pid c e o w1 HI Hc Hr Hsig Hstep) as [H1 Ho].
  pose proof (run_Inv _ _ _ (step_Inv _ _ _ HI Hstep) Hrun) as HI'.
  pose proof (evolves_trans _ _ _ (step_evolves _ _ _ Hstep)
                (run_evolves _ _ _ Hrun)) as Hev.
  destruct (ev_children _ _ Hev pid c Hc) as (c' & Hc' & Hpc & _).
  destruct (promises w1 !! cl_promise c) as [pr1|] eqn:Hp1; [|done].
  cbn in H1. simplify_eq.
  destruct (ev_sticky _ _ (run_evolves _ _ _ Hrun) _ _ Hp1) as (pr' & Hp' & Hst).
  specialize (Hst Ho).
  destruct (cl_resolved c') eqn:Hr'.
  - destruct (inv_resolved w' HI' pid c' Hc' Hr') as (st & _ & Hl).
    rewrite Hpc in Hl. rewrite Hl in Hp'. simplify_eq. cbn in Hst.
    by subst st.
  - destruct (inv_unresolved w' HI' pid c' Hc' Hr') as (_ & _ & Hu).
    unfold untouched in Hu. rewrite Hpc, Hp' in Hu. by simplify_eq.
Qed.

Lemma startup_settles_exactly_once_witness :
  ∃ w c w',
    run (constructor sample_host sample_config) spawned = Some w
    ∧ children w !! 0 = Some c
    ∧ run w [ ProcessExit 0 (Some 1%Z);
              StderrData 0 "waiting for connections";
              ProcessError 0 "late";
              CallStart ] = Some w'
    ∧ promises w' !! cl_promise c
      = Some (mkPromise
                (Rejected "MongoDB subprocess exited with code 1 before starting")
                1).
Proof.
  eexists _, _, _. split; [vm_compute; reflexivity|].
  split; [vm_compute; reflexivity|].
  split; [vm_compute; reflexivity|].
  refine (proj2 (proj2
    (startup_settles_exactly_once sample_host sample_config spawned
       _ 0 _ (ProcessExit 0 (Some 1%Z)) _
       [ StderrData 0 "waiting for connections";
         ProcessError 0 "late"; CallStart ] _ _ _ _ _ _)));
    by_evaluation.
  all: by_evaluation.
  all: by_evaluation.
Defined.

(* --------------------------------------------------------------------- *)
(* start() while a startup promise is held                               *)
(* --------------------------------------------------------------------- *)

(** C4: in every state the controller can reach, if this.startupPromise
    holds a promise (in particular while that attempt is in flight),
    start() returns that same promise and changes nothing: no probe is
    started and no process is spawned.  At most one child belongs to the
    attempt. *)
Theorem start_returns_pending_startup host config es w p :
  run (constructor host config) es = Some w →
  this_startupPromise w = Some p →
  start w = (ThePromise p, w)
  ∧ step w CallStart = Some w
  ∧ ∀ pid pid' c c',
      children w !! pid = Some c → children w !! pid' = Some c' →
      cl_promise c = p → cl_promise c' = p → pid = pid'.
Proof.
  intros Hreach Hsp. pose proof (reachable_Inv _ _ _ _ Hreach) as HI.
  assert (Hen : enabled (this_config w) = true).
  { apply (inv_enabled w HI). congruence. }
  assert (Hstart : start w = (ThePromise p, w)).
  { unfold start. by rewrite Hen, Hsp. }
  split; [done|]. split; [cbn; by rewrite Hstart|].
  intros pid pid' c c' Hc Hc' E1 E2.
  eapply (inv_distinct w HI); eauto. congruence.
Qed.

Lemma start_returns_pending_startup_witness :
  ∃ w1 w2,
    start (constructor sample_host sample_config) = (ThePromise 0, w1)
    ∧ start w1 = (ThePromise 0, w1)
    ∧ promise_state w1 0 = Some Pending
    ∧ run w1 [ServerListening 0; CallStart; ServerClosed 0; CallStart] = Some w2
    ∧ start w2 = (ThePromise 0, w2)
    ∧ length (children w2) = 1.
Proof.
  eexists _, _. split; [vm_compute; reflexivity|].
  split.
  - refine (proj1 (start_returns_pending_startup sample_host sample_config
                     [CallStart] _ 0 _ _)); by_evaluation.
  all: by_evaluation.
  all: by_evaluation.
  - split; [vm_compute; reflexivity|]. split; [vm_compute; reflexivity|].
    split; [|vm_compute; reflexivity].
    refine (proj1 (start_returns_pending_startup sample_host sample_config
                     [CallStart; ServerListening 0; CallStart;
                      ServerClosed 0; CallStart] _ 0 _ _));
      by_evaluation.
  all: by_evaluation.
  all: by_evaluation.
Defined.

(* --------------------------------------------------------------------- *)
(* stop() during startup                                                 *)
(* --------------------------------------------------------------------- *)

(** C10: in every state the controller can reach in which a process has
    been spawned and the promise of this.startupPromise is still pending,
    isRunning is false, and stop() returns at once without a promise to
    wait for and leaves the whole state as it is: no signal is sent, the
    pending promise is neither settled nor cleared, and process,
    isRunning and startupPromise are unchanged. *)
Theorem stop_during_startup_is_noop host config es w pid p :
  run (constructor host config) es = Some w →
  this_process w = Some pid →
  this_startupPromise w = Some p →
  promise_state w p = Some Pending →
  this_isRunning w = false
  ∧ stop w = (Undefined, w)
  ∧ step w CallStop = Some w.
Proof.
  intros Hreach Hproc Hsp Hpend.
  pose proof (reachable_Inv _ _ _ _ Hreach) as HI.
  assert (Hrun : this_isRunning w = false).
  { destruct (inv_process w HI pid Hproc) as (c & Hc & He).
    destruct (inv_alive w HI pid c Hc He) as [_ Hsp'].
    assert (p = cl_promise c) as -> by congruence.
    destruct (cl_resolved c) eqn:Hr.
    - destruct (inv_resolved w HI pid c Hc Hr) as (st & Hst & Hl).
      unfold promise_state in Hpend. rewrite Hl in Hpend. cbn in Hpend.
      congruence.
    - by destruct (inv_unresolved w HI pid c Hc Hr) as (_ & ? & _). }
  split; [done|]. split; [by apply stop_not_running|].
  cbn. by rewrite stop_not_running.
Qed.

Lemma stop_during_startup_is_noop_witness :
  ∃ w, run (constructor sample_host sample_config) spawned = Some w
       ∧ this_process w = Some 0
       ∧ promise_state w 0 = Some Pending
       ∧ stop w = (Undefined, w).
Proof.
  eexists. split; [vm_compute; reflexivity|].
  split; [vm_compute; reflexivity|]. split; [vm_compute; reflexivity|].
  refine (proj1 (proj2
    (stop_during_startup_is_noop sample_host sample_config spawned _ 0 0
       _ _ _ _))); by_evaluation.
  all: by_evaluation.
  all: by_evaluation.
Defined.

(* --------------------------------------------------------------------- *)
(* stop() on a running controller                                        *)
(* --------------------------------------------------------------------- *)

(* stop() past the guard of line 143 (lines 147-164). *)
Lemma stop_running w pid :
  this_process w = Some pid → this_isRunning w = true →
  stop w
  = (ThePromise (length (promises w)),
     kill pid SIGTERM
       (alter_child
          (child_once_exit (length (timers w), length (promises w))) pid
          (set_timers
             (timers w ++ [mkTimer 5000 (StopGrace (length (promises w))) true])
             (set_promises (promises w ++ [new_promise]) w)))).
Proof. intros Hp Hr. unfold stop. by rewrite Hp, Hr. Qed.

Lemma stop_promise_not_attempt w :
  Inv w → not_attempt (snd (stop w)) (length (promises w)) ∨ stop w = (Undefined, w).
Proof.
  intros HI. unfold stop.
  destruct (this_process w) as [pid|]; [|by right].
  destruct (negb (this_isRunning w)); [by right|]. left.
  pose proof (Promise_new_not_attempt w HI) as Hn.
  unfold Promise_new, setTimeout, kill in *. cbn [fst snd] in *.
  eapply not_attempt_grows; [|exact Hn].
  eapply grows_trans; [|by apply grows_alter_child].
  eapply grows_trans; [|by apply grows_alter_child].
  by apply grows_same.
Qed.

Lemma stop_listeners_children ls : ∀ w,
  children (foldl (λ acc l, stop_on_exit l acc) w ls) = children w.
Proof. induction ls as [|l ls IH]; intros w; [done|]. cbn [foldl]. by rewrite IH. Qed.

Lemma stop_listeners_timers ls : ∀ w,
  length (timers (foldl (λ acc l, stop_on_exit l acc) w ls)) = length (timers w).
Proof.
  induction ls as [|l ls IH]; intros w; [done|]. cbn [foldl]. rewrite IH.
  cbn. by rewrite length_alter.
Qed.

(* A promise outside the attempts is never rejected. *)
Lemma not_attempt_never_rejected w w' sp pr :
  evolves w w' → not_attempt w sp →
  promises w !! sp = Some pr → (∀ m, p_state pr ≠ Rejected m) →
  ∃ pr', promises w' !! sp = Some pr' ∧ ∀ m, p_state pr' ≠ Rejected m.
Proof.
  intros Hev [Hlt Hn] Hpr Hst.
  destruct (ev_sticky _ _ Hev sp pr Hpr) as (pr' & Hpr' & _).
  exists pr'. split; [done|]. intros m Hm.
  destruct (ev_rejected _ _ Hev sp pr' m Hpr' Hm) as [(pr0 & H0 & Hm0)|[Hin|Hlen]].
  - rewrite Hpr in H0. simplify_eq. by apply (Hst m).
  - done.
  - lia.
Qed.

Lemma settle_Fulfilled_state pr :
  (∀ m, p_state pr ≠ Rejected m) → p_state (settle Fulfilled pr) = Fulfilled.
Proof.
  intros H. unfold settle. cbn. destruct (p_state pr) eqn:E; try done.
  by destruct (H message).
Qed.

Lemma promise_state_resolve w sp pr :
  promises w !! sp = Some pr → (∀ m, p_state pr ≠ Rejected m) →
  promise_state (call_resolve sp w) sp = Some Fulfilled.
Proof.
  intros Hpr Hst. unfold promise_state, call_resolve.
  cbn [promises set_promises]. rewrite list_lookup_alter_eq, Hpr.
  cbn [fmap option_fmap option_map]. by rewrite settle_Fulfilled_state.
Qed.

(* The child exits after stop(): the listener of line 155 runs. *)
Lemma stop_then_exit w pid code :
  Inv w → this_process w = Some pid → this_isRunning w = true →
  ∃ c w1 w2 c2 tm,
    children w !! pid = Some c
    ∧ stop w = (ThePromise (length (promises w)), w1)
    ∧ step w1 (ProcessExit pid code) = Some w2
    ∧ promise_state w2 (length (promises w)) = Some Fulfilled
    ∧ children w2 !! pid = Some c2
    ∧ cp_exited c2 = true
    ∧ cp_kill_calls c2 = (cp_kill_calls c ++ [SIGTERM])%list
    ∧ timers w2 !! length (timers w) = Some tm ∧ t_pending tm = false
    ∧ this_process w2 = None ∧ this_isRunning w2 = false
    ∧ this_startupPromise w2 = None
    ∧ this_config w2 = this_config w.
Proof.
  intros HI Hproc Hrun.
  destruct (inv_process w HI pid Hproc) as (c & Hc & He).
  assert (Hr : cl_resolved c = true).
  { destruct (cl_resolved c) eqn:Hr; [done|].
    destruct (inv_unresolved w HI pid c Hc Hr) as (_ & ? & _). congruence. }
  destruct (stop_promise_not_attempt w HI) as [Hn|Hn];
    [|rewrite (stop_running w pid Hproc Hrun) in Hn; done].
  rewrite (stop_running w pid Hproc Hrun) in Hn |- *. cbn [snd] in Hn.
  set (sp := length (promises w)) in *. set (t := length (timers w)) in *.
  set (w1 := kill pid SIGTERM _) in *.
  set (c1 := child_kill SIGTERM (child_once_exit (t, sp) c)).
  assert (Hc1 : children w1 !! pid = Some c1).
  { unfold w1, kill. cbn. by rewrite !list_lookup_alter_eq, Hc. }
  assert (Hsp1 : promises w1 !! sp = Some new_promise).
  { unfold w1. cbn. apply lookup_new. }
  assert (Ht1 : timers w1 !! t = Some (mkTimer 5000 (StopGrace sp) true)).
  { unfold w1. cbn. apply lookup_new. }
  assert (Hcfg1 : this_config w1 = this_config w) by done.
  clearbody w1.
  set (w_on := on_exit pid code (alter_child child_exit pid w1)).
  assert (Hon : w_on = set_process None (set_isRunning false
                         (alter_child child_exit pid w1))).
  { unfold w_on, on_exit. cbn [children set_process set_isRunning alter_child
      set_children]. rewrite list_lookup_alter_eq, Hc1. cbn. by rewrite Hr. }
  set (X := foldl (λ acc l, stop_on_exit l acc) w_on (cp_once_exit c)).
  assert (HX : evolves w1 X).
  { unfold X. eapply evolves_trans; [|apply evolves_stop_listeners].
    unfold w_on. eapply evolves_trans; [|apply evolves_on_exit].
    by apply evolves_alter_child. }
  destruct (not_attempt_never_rejected w1 X sp new_promise HX Hn Hsp1)
    as (pr & Hpr & Hst); [done|].
  assert (HcX : children X !! pid = Some (child_exit c1)).
  { unfold X. rewrite stop_listeners_children, Hon. cbn.
    by rewrite list_lookup_alter_eq, Hc1. }
  assert (HtX : is_Some (timers X !! t)).
  { apply lookup_lt_is_Some. unfold X. rewrite stop_listeners_timers, Hon.
    cbn. by apply lookup_lt_Some in Ht1. }
  destruct HtX as [tmX HtX].
  exists c, w1, (stop_on_exit (t, sp) X), (child_exit c1), (timer_off tmX).
  split; [done|]. split; [done|]. split.
  { cbn [step]. rewrite Hc1. cbn [cp_exited c1 child_kill child_once_exit].
    rewrite He. unfold emit_exit. f_equal.
    cbn [cp_once_exit c1 child_kill child_once_exit]. by rewrite foldl_app. }
  split.
  { unfold stop_on_exit. by apply promise_state_resolve with pr. }
  split; [done|]. split; [done|]. split; [done|]. split.
  { cbn. by rewrite list_lookup_alter_eq, HtX. }
  repeat split; try done.
  cbn. unfold X. rewrite stop_listeners_config. unfold w_on.
  by rewrite on_exit_config.
Qed.

(* The grace period ends after stop(): the callback of line 148 runs. *)
Lemma stop_then_timeout w pid :
  Inv w → this_process w = Some pid → this_isRunning w = true →
  ∃ c w1 w2 c2,
    children w !! pid = Some c
    ∧ stop w = (ThePromise (length (promises w)), w1)
    ∧ timers w1 !! length (timers w)
      = Some (mkTimer 5000 (StopGrace (length (promises w))) true)
    ∧ step w1 (TimerFire (length (timers w))) = Some w2
    ∧ children w2 !! pid = Some c2
    ∧ cp_kill_calls c2 = (cp_kill_calls c ++ [SIGTERM; SIGKILL])%list
    ∧ promise_state w2 (length (promises w)) = Some Fulfilled.
Proof.
  intros HI Hproc Hrun.
  destruct (inv_process w HI pid Hproc) as (c & Hc & He).
  rewrite (stop_running w pid Hproc Hrun).
  set (sp := length (promises w)) in *. set (t := length (timers w)) in *.
  set (w1 := kill pid SIGTERM _) in *.
  set (c1 := child_kill SIGTERM (child_once_exit (t, sp) c)).
  assert (Hc1 : children w1 !! pid = Some c1).
  { unfold w1, kill. cbn. by rewrite !list_lookup_alter_eq, Hc. }
  assert (Ht1 : timers w1 !! t = Some (mkTimer 5000 (StopGrace sp) true)).
  { unfold w1. cbn. apply lookup_new. }
  assert (Hsp1 : promises w1 !! sp = Some new_promise).
  { unfold w1. cbn. apply lookup_new. }
  assert (Hp1 : this_process w1 = Some pid) by done.
  clearbody w1.
  assert (Hw2 : stop_timeout sp (clearTimeout t w1)
                = call_resolve sp (kill pid SIGKILL (clearTimeout t w1))).
  { unfold stop_timeout. cbn [this_process clearTimeout set_timers].
    by rewrite Hp1. }
  exists c, w1, (stop_timeout sp (clearTimeout t w1)), (child_kill SIGKILL c1).
  split; [done|]. split; [done|]. split; [done|]. split.
  { cbn [step]. by rewrite Ht1. }
  rewrite Hw2. split.
  { cbn. by rewrite list_lookup_alter_eq, Hc1. }
  split.
  { cbn. by rewrite <- app_assoc. }
  by apply promise_state_resolve with new_promise.
Qed.

(* --------------------------------------------------------------------- *)
(* What every turn keeps of timers and children                          *)
(* --------------------------------------------------------------------- *)

Lemma keeps_refl w : keeps w w.
Proof.
  split.
  - intros t tm Ht. by exists tm.
  - intros pid c Hc. exists c. repeat split; try done.
    exists []. by rewrite app_nil_r.
  - intros pid c' t Hc Ht. left. by exists c'.
Qed.

Lemma keeps_trans w1 w2 w3 : keeps w1 w2 → keeps w2 w3 → keeps w1 w3.
Proof.
  intros [T1 C1 S1] [T2 C2 S2]. split.
  - intros t tm Ht. destruct (T1 t tm Ht) as (tm' & Ht' & E1 & E2 & E3).
    destruct (T2 t tm' Ht') as (tm'' & Ht'' & F1 & F2 & F3).
    exists tm''. repeat split; try congruence. auto.
  - intros pid c Hc. destruct (C1 pid c Hc) as (c' & Hc' & E1 & [m1 E2] & E3).
    destruct (C2 pid c' Hc') as (c'' & Hc'' & F1 & [m2 F2] & F3).
    exists c''. split; [done|]. split; [congruence|]. split.
    + exists (m1 ++ m2)%list. by rewrite F2, E2, app_assoc.
    + intros He. destruct (F3 He) as [He' Hl']. destruct (E3 He') as [He0 Hl0].
      split; [done|]. auto.
  - intros pid c'' t Hc'' Ht''.
    destruct (S2 pid c'' t Hc'' Ht'') as [(c' & Hc' & Ht')|H]; [|by right].
    destruct (S1 pid c' t Hc' Ht') as [H|H]; [by left|]. right.
    destruct (timers w2 !! t) as [tm|] eqn:Htm; [|done].
    destruct (T2 t tm Htm) as (tm' & -> & E & _). cbn in *. congruence.
Qed.

(* Only the timers change, each keeping its callback and delay and none
   being armed. *)
Lemma keeps_timers w w' :
  children w' = children w →
  (∀ t tm, timers w !! t = Some tm →
     ∃ tm', timers w' !! t = Some tm' ∧ t_callback tm' = t_callback tm
            ∧ t_ms tm' = t_ms tm ∧ (t_pending tm' = true → t_pending tm = true)) →
  keeps w w'.
Proof.
  intros Hc Ht. split; [done| |].
  - intros pid c H. rewrite Hc. exists c. repeat split; try done.
    exists []. by rewrite app_nil_r.
  - intros pid c' t H Hto. rewrite Hc in H. left. by exists c'.
Qed.

Lemma keeps_frame w w' :
  children w' = children w → timers w' = timers w → keeps w w'.
Proof.
  intros Hc Ht. apply keeps_timers; [done|].
  intros t tm H. rewrite Ht. by exists tm.
Qed.

Lemma keeps_clearTimeout t w : keeps w (clearTimeout t w).
Proof.
  apply keeps_timers; [done|]. intros t' tm H. cbn.
  destruct (decide (t = t')) as [->|Hne].
  - rewrite list_lookup_alter_eq, H. exists (timer_off tm). by repeat split.
  - rewrite list_lookup_alter_ne by done. by exists tm.
Qed.

Lemma keeps_setTimeout cb ms w : keeps w (snd (setTimeout cb ms w)).
Proof.
  apply keeps_timers; [done|]. intros t tm H. exists tm. split; [|done].
  cbn. by apply lookup_app_l_Some.
Qed.

Lemma keeps_alter_child f pid w :
  (∀ c, cl_startupTimeout (f c) = cl_startupTimeout c) →
  (∀ c, ∃ more, cp_kill_calls (f c) = (cp_kill_calls c ++ more)%list) →
  (∀ c, cp_exited (f c) = false →
        cp_exited c = false ∧ ∀ l, l ∈ cp_once_exit c → l ∈ cp_once_exit (f c)) →
  keeps w (alter_child f pid w).
Proof.
  intros F1 F2 F3. split.
  - intros t tm Ht. by exists tm.
  - intros j c Hc. eexists. split; [by apply children_alter_Some|].
    case_decide; [by auto|]. repeat split; try done.
    exists []. by rewrite app_nil_r.
  - intros j c' t Hc' Ht. left.
    apply children_alter_inv in Hc' as (c0 & Hc0 & [[-> ->]|[_ ->]]);
      exists c0; split; try done. by rewrite <- F1.
Qed.

Lemma keeps_set_resolved pid w : keeps w (alter_child child_set_resolved pid w).
Proof.
  apply keeps_alter_child; try done.
  intros c. exists []. cbn. by rewrite app_nil_r.
Qed.

Lemma keeps_kill pid sig w : keeps w (kill pid sig w).
Proof. apply keeps_alter_child; try done. intros c. by exists [sig]. Qed.

Lemma keeps_once_exit l pid w : keeps w (alter_child (child_once_exit l) pid w).
Proof.
  apply keeps_alter_child; try done.
  - intros c. exists []. cbn. by rewrite app_nil_r.
  - intros c He. split; [done|]. intros l' Hl'. cbn. apply elem_of_app. by left.
Qed.

Lemma keeps_child_exit pid w : keeps w (alter_child child_exit pid w).
Proof.
  apply keeps_alter_child; try done.
  intros c. exists []. cbn. by rewrite app_nil_r.
Qed.

Lemma keeps_cleanup pid w : keeps w (cleanup pid w).
Proof.
  unfold cleanup. repeat case_match; try apply keeps_refl.
  apply keeps_clearTimeout.
Qed.

Lemma keeps_stop w : keeps w (snd (stop w)).
Proof.
  unfold stop. destruct (this_process w) as [pid|]; [|apply keeps_refl].
  destruct (negb (this_isRunning w)); [apply keeps_refl|].
  unfold Promise_new. cbn [snd].
  eapply keeps_trans; [|apply keeps_kill].
  eapply keeps_trans; [|apply keeps_once_exit].
  apply (keeps_trans _ (set_promises (promises w ++ [new_promise]) w));
    [by apply keeps_frame|].
  apply (keeps_setTimeout (StopGrace (length (promises w))) 5000).
Qed.

Lemma keeps_doResolve pid w : keeps w (doResolve pid w).
Proof.
  unfold doResolve. repeat case_match; try apply keeps_refl.
  apply (keeps_trans _ (cleanup pid (alter_child child_set_resolved pid w)));
    [|by apply keeps_frame].
  eapply keeps_trans; [|apply keeps_cleanup]. apply keeps_set_resolved.
Qed.

Lemma keeps_doReject pid m w : keeps w (doReject pid m w).
Proof.
  unfold doReject. repeat case_match; try apply keeps_refl.
  apply (keeps_trans _
           (stop (cleanup pid (alter_child child_set_resolved pid w))).2);
    [|by apply keeps_frame].
  eapply keeps_trans; [|apply keeps_stop].
  eapply keeps_trans; [|apply keeps_cleanup]. apply keeps_set_resolved.
Qed.

Lemma keeps_on_exit pid code w : keeps w (on_exit pid code w).
Proof.
  unfold on_exit. repeat case_match; try by apply keeps_frame.
  eapply keeps_trans; [|apply keeps_doReject]. by apply keeps_frame.
Qed.

Lemma keeps_stop_on_exit l w : keeps w (stop_on_exit l w).
Proof.
  unfold stop_on_exit.
  apply (keeps_trans _ (clearTimeout l.1 w)); [apply keeps_clearTimeout|].
  by apply keeps_frame.
Qed.

Lemma keeps_stop_listeners ls w :
  keeps w (foldl (λ acc l, stop_on_exit l acc) w ls).
Proof.
  revert w. induction ls as [|l ls IH]; intros w; [apply keeps_refl|].
  cbn [foldl]. eapply keeps_trans; [apply keeps_stop_on_exit|apply IH].
Qed.

Lemma keeps_emit_exit pid code c w : keeps w (emit_exit pid code c w).
Proof.
  unfold emit_exit.
  eapply keeps_trans; [|apply keeps_stop_listeners].
  eapply keeps_trans; [|apply keeps_on_exit]. apply keeps_child_exit.
Qed.

Lemma keeps_stop_timeout sp w : keeps w (stop_timeout sp w).
Proof.
  unfold stop_timeout.
  destruct (this_process w) as [pid|]; [|by apply keeps_frame].
  apply (keeps_trans _ (kill pid SIGKILL w)); [apply keeps_kill|].
  by apply keeps_frame.
Qed.

Lemma keeps_start w : keeps w (snd (start w)).
Proof.
  unfold start, _start, Promise_new, checkPortAvailable.
  repeat case_match; simplify_eq; try apply keeps_refl; by apply keeps_frame.
Qed.

Lemma keeps_start_resume p w : keeps w (_start_resume p w).
Proof.
  unfold _start_resume, spawn, setTimeout.
  set (w1 := if existsSync _ w then w else _).
  set (w2 := if existsSync _ w1 then w1 else _).
  assert (Hc2 : children w2 = children w) by (unfold w2, w1; by repeat case_match).
  assert (Ht2 : timers w2 = timers w) by (unfold w2, w1; by repeat case_match).
  clearbody w2. clear w1. cbn [fst snd]. split.
  - intros t tm Ht. exists tm. split; [|done]. cbn. rewrite Ht2.
    by apply lookup_app_l_Some.
  - intros pid c Hc. exists c. split.
    + cbn. rewrite Hc2.
      rewrite list_lookup_alter_ne by (apply lookup_lt_Some in Hc; lia).
      by apply lookup_app_l_Some.
    + repeat split; try done. exists []. by rewrite app_nil_r.
  - intros pid c' t Hc' Ht. cbn in Hc'. rewrite Hc2, alter_last in Hc'.
    apply lookup_snoc_inv in Hc' as [Hc'|[-> ->]].
    + left. by exists c'.
    + right. cbn in Ht. simplify_eq. cbn. rewrite Hc2. by rewrite lookup_new.
Qed.

Theorem step_keeps w e w' : step w e = Some w' → keeps w w'.
Proof.
  destruct e; cbn [step]; intros H; repeat case_match; simplify_eq.
  - apply keeps_start.
  - apply keeps_stop.
  - by apply keeps_frame.
  - eapply keeps_trans; [|apply keeps_start_resume]. by apply keeps_frame.
  - by apply keeps_frame.
  - unfold on_stdout_data. case_match; [apply keeps_doResolve|apply keeps_refl].
  - unfold on_stderr_data. case_match; [apply keeps_doResolve|apply keeps_refl].
  - apply keeps_doReject.
  - apply keeps_emit_exit.
  - apply (keeps_trans _ (clearTimeout t w)); [apply keeps_clearTimeout|].
    unfold run_timer.
    case_match; [apply keeps_doReject|apply keeps_stop_timeout].
  - apply start_throws_inv in H as [ds ->]. by apply keeps_frame.
Qed.

Theorem run_keeps es : ∀ w w', run w es = Some w' → keeps w w'.
Proof.
  induction es as [|e es IH]; intros w w' H; cbn [run] in H.
  - simplify_eq. apply keeps_refl.
  - destruct (step w e) as [w1|] eqn:E; [|done].
    eapply keeps_trans; [by eapply step_keeps|by apply IH].
Qed.

Lemma startup_timers_ok_keeps w w' :
  startup_timers_ok w → keeps w w' → startup_timers_ok w'.
Proof.
  intros Hok Hk pid c' t Hc' Ht.
  destruct (kp_startupTimeout _ _ Hk pid c' t Hc' Ht) as [(c & Hc & Htc)|H];
    [|done].
  specialize (Hok pid c t Hc Htc).
  destruct (timers w !! t) as [tm|] eqn:Htm; [|done].
  destruct (kp_timers _ _ Hk t tm Htm) as (tm' & -> & E & _).
  cbn in *. congruence.
Qed.

Lemma reachable_startup_timers_ok host config es w :
  run (constructor host config) es = Some w → startup_timers_ok w.
Proof.
  intros H. eapply startup_timers_ok_keeps; [|by eapply run_keeps].
  intros pid c t Hc. done.
Qed.

(* --------------------------------------------------------------------- *)
(* Between stop() and the end of the process                             *)
(* --------------------------------------------------------------------- *)

Lemma start_process w : this_process (snd (start w)) = this_process w.
Proof.
  unfold start, _start, Promise_new, checkPortAvailable.
  repeat case_match; simplify_eq; cbn; congruence.
Qed.

Lemma doResolve_process pid w : this_process (doResolve pid w) = this_process w.
Proof.
  unfold doResolve. repeat case_match; try reflexivity.
  cbn. by rewrite cleanup_process.
Qed.

Lemma stop_timeout_process sp w : this_process (stop_timeout sp w) = this_process w.
Proof. unfold stop_timeout. by repeat case_match. Qed.

Lemma stop_isRunning w : this_isRunning (snd (stop w)) = this_isRunning w.
Proof.
  unfold stop, Promise_new, setTimeout. repeat case_match; cbn; congruence.
Qed.

Lemma on_exit_isRunning pid code w : this_isRunning (on_exit pid code w) = false.
Proof.
  unfold on_exit. repeat case_match; try reflexivity.
  unfold doReject. repeat case_match; try reflexivity.
  cbn. by rewrite stop_isRunning, cleanup_isRunning.
Qed.

Lemma stop_listeners_reset ls : ∀ w,
  this_process w = None → this_isRunning w = false →
  this_process (foldl (λ acc l, stop_on_exit l acc) w ls) = None
  ∧ this_isRunning (foldl (λ acc l, stop_on_exit l acc) w ls) = false.
Proof.
  induction ls as [|l ls IH]; intros w Hp Hr; [done|]. cbn [foldl]. by apply IH.
Qed.

(* While no 'exit' event of the held process arrives, it stays held. *)
Lemma step_keeps_process w pid e w' :
  Inv w → this_process w = Some pid → step w e = Some w' →
  (∀ code, e ≠ ProcessExit pid code) →
  this_process w' = Some pid.
Proof.
  intros HI Hproc Hstep Hne. destruct e; cbn [step] in Hstep.
  - simplify_eq. by rewrite start_process.
  - simplify_eq. by rewrite stop_process.
  - repeat case_match; by simplify_eq.
  - destruct (servers w !! sid) as [s|] eqn:Hs; [|done].
    destruct (sv_state s) eqn:Hst; try done.
    destruct (process_no_probe w pid sid s HI Hproc Hs). by right.
  - destruct (servers w !! sid) as [s|] eqn:Hs; [|done].
    destruct (sv_state s) eqn:Hst; try done.
    destruct (process_no_probe w pid sid s HI Hproc Hs). by left.
  - case_match; [|done]. simplify_eq. unfold on_stdout_data.
    case_match; [by rewrite doResolve_process|done].
  - case_match; [|done]. simplify_eq. unfold on_stderr_data.
    case_match; [by rewrite doResolve_process|done].
  - case_match; [|done]. simplify_eq. unfold on_error.
    by rewrite doReject_process.
  - destruct (children w !! pid0) as [c|] eqn:Hc; [|done].
    destruct (cp_exited c) eqn:He; [done|].
    destruct (inv_alive w HI pid0 c Hc He) as [Hp _].
    assert (pid0 = pid) as -> by congruence. by destruct (Hne code).
  - destruct (timers w !! t) as [tm|]; [|done].
    destruct (t_pending tm); [|done]. simplify_eq.
    unfold run_timer. destruct (t_callback tm).
    + unfold on_startup_timeout. by rewrite doReject_process.
    + by rewrite stop_timeout_process.
  - destruct (servers w !! sid) as [s|] eqn:Hs; [|done].
    destruct (sv_state s) eqn:Hst; try done.
    destruct (process_no_probe w pid sid s HI Hproc Hs). by right.
Qed.

Lemma clearTimeout_other t t' w : t' ≠ t → timers (clearTimeout t' w) !! t = timers w !! t.
Proof. intros Hne. cbn. by rewrite list_lookup_alter_ne. Qed.

Lemma stop_timer_kept w t tm :
  timers w !! t = Some tm → timers (snd (stop w)) !! t = Some tm.
Proof.
  intros Ht. unfold stop, Promise_new, setTimeout.
  repeat case_match; try done. cbn. by apply lookup_app_l_Some.
Qed.

(* cleanup clears a startup timer only. *)
Lemma cleanup_timer_kept pid w t tm sp :
  startup_timers_ok w → timers w !! t = Some tm → t_callback tm = StopGrace sp →
  timers (cleanup pid w) !! t = Some tm.
Proof.
  intros Hok Ht Hcb. unfold cleanup.
  destruct (children w !! pid) as [c|] eqn:Hc; [|done].
  destruct (cl_startupTimeout c) as [t'|] eqn:Ht'; [|done].
  rewrite clearTimeout_other; [done|]. intros ->.
  specialize (Hok pid c t Hc Ht'). rewrite Ht in Hok. cbn in Hok. congruence.
Qed.

Lemma set_resolved_startup_timers_ok pid w :
  startup_timers_ok w → startup_timers_ok (alter_child child_set_resolved pid w).
Proof.
  intros Hok. eapply startup_timers_ok_keeps; [exact Hok|].
  apply keeps_set_resolved.
Qed.

Lemma doResolve_timer_kept pid w t tm sp :
  startup_timers_ok w → timers w !! t = Some tm → t_callback tm = StopGrace sp →
  timers (doResolve pid w) !! t = Some tm.
Proof.
  intros Hok Ht Hcb. unfold doResolve. repeat case_match; try done.
  cbn [timers call_resolve set_promises set_isRunning].
  apply (cleanup_timer_kept _ _ _ _ sp); [|done..].
  by apply set_resolved_startup_timers_ok.
Qed.

Lemma doReject_timer_kept pid m w t tm sp :
  startup_timers_ok w → timers w !! t = Some tm → t_callback tm = StopGrace sp →
  timers (doReject pid m w) !! t = Some tm.
Proof.
  intros Hok Ht Hcb. unfold doReject. repeat case_match; try done.
  cbn [timers call_reject set_promises]. apply stop_timer_kept.
  apply (cleanup_timer_kept _ _ _ _ sp); [|done..].
  by apply set_resolved_startup_timers_ok.
Qed.

Lemma start_timers w : timers (snd (start w)) = timers w.
Proof.
  unfold start, _start, Promise_new, checkPortAvailable.
  by repeat case_match; simplify_eq.
Qed.

Lemma stop_timeout_timers sp w : timers (stop_timeout sp w) = timers w.
Proof. unfold stop_timeout. by repeat case_match. Qed.

(* While the grace timer neither fires nor the held process exits, the
   timer stays as it is. *)
Lemma step_keeps_armed w pid t tm sp e w' :
  Inv w → startup_timers_ok w → this_process w = Some pid →
  timers w !! t = Some tm → t_callback tm = StopGrace sp →
  step w e = Some w' → e ≠ TimerFire t → (∀ code, e ≠ ProcessExit pid code) →
  timers w' !! t = Some tm.
Proof.
  intros HI Hok Hproc Ht Hcb Hstep Hnt Hne. destruct e; cbn [step] in Hstep.
  - simplify_eq. by rewrite start_timers.
  - simplify_eq. by apply stop_timer_kept.
  - repeat case_match; by simplify_eq.
  - destruct (servers w !! sid) as [s|] eqn:Hs; [|done].
    destruct (sv_state s) eqn:Hst; try done.
    destruct (process_no_probe w pid sid s HI Hproc Hs). by right.
  - repeat case_match; by simplify_eq.
  - case_match; [|done]. simplify_eq. unfold on_stdout_data.
    case_match; [by apply (doResolve_timer_kept _ _ _ _ sp)|done].
  - case_match; [|done]. simplify_eq. unfold on_stderr_data.
    case_match; [by apply (doResolve_timer_kept _ _ _ _ sp)|done].
  - case_match; [|done]. simplify_eq.
    by apply (doReject_timer_kept _ _ _ _ _ sp).
  - destruct (children w !! pid0) as [c|] eqn:Hc; [|done].
    destruct (cp_exited c) eqn:He; [done|].
    destruct (inv_alive w HI pid0 c Hc He) as [Hp _].
    assert (pid0 = pid) as -> by congruence. by destruct (Hne code).
  - destruct (timers w !! t0) as [tm0|] eqn:Ht0; [|done].
    destruct (t_pending tm0); [|done]. simplify_eq.
    assert (t0 ≠ t) by congruence.
    assert (Ht' : timers (clearTimeout t0 w) !! t = Some tm)
      by by rewrite clearTimeout_other.
    unfold run_timer. destruct (t_callback tm0).
    + apply (doReject_timer_kept _ _ _ _ _ sp); try done.
      eapply startup_timers_ok_keeps; [exact Hok|apply keeps_clearTimeout].
    + by rewrite stop_timeout_timers.
  - destruct (servers w !! sid) as [s|] eqn:Hs; [|done].
    destruct (sv_state s) eqn:Hst; try done.
    destruct (process_no_probe w pid sid s HI Hproc Hs). by right.
Qed.

Lemma run_keeps_process mid : ∀ w pid w',
  Inv w → this_process w = Some pid → run w mid = Some w' →
  (∀ code, ProcessExit pid code ∉ mid) →
  this_process w' = Some pid.
Proof.
  induction mid as [|e mid IH]; intros w pid w' HI Hproc Hrun Hne;
    cbn [run] in Hrun; [by simplify_eq|].
  destruct (step w e) as [w1|] eqn:Hstep; [|done].
  apply (IH w1 pid w'); try done.
  - by eapply step_Inv.
  - eapply step_keeps_process; eauto.
    intros code ->. apply (Hne code). by left.
  - intros code Hin. apply (Hne code). by right.
Qed.

Lemma run_keeps_armed mid : ∀ w pid t tm sp w',
  Inv w → startup_timers_ok w → this_process w = Some pid →
  timers w !! t = Some tm → t_callback tm = StopGrace sp →
  run w mid = Some w' →
  (∀ code, ProcessExit pid code ∉ mid) → TimerFire t ∉ mid →
  timers w' !! t = Some tm.
Proof.
  induction mid as [|e mid IH]; intros w pid t tm sp w' HI Hok Hproc Ht Hcb Hrun
    Hne Hnt; cbn [run] in Hrun; [by simplify_eq|].
  destruct (step w e) as [w1|] eqn:Hstep; [|done].
  assert (He : ∀ code, e ≠ ProcessExit pid code).
  { intros code ->. apply (Hne code). by left. }
  apply (IH w1 pid t tm sp w'); try done.
  - by eapply step_Inv.
  - eapply startup_timers_ok_keeps; [exact Hok|by eapply step_keeps].
  - eapply step_keeps_process; eauto.
  - eapply step_keeps_armed; eauto. intros ->. apply Hnt. by left.
  - intros code Hin. apply (Hne code). by right.
  - intros Hin. apply Hnt. by right.
Qed.

(* The listener of a stop() settles the promise of that stop() and clears
   its timer. *)
Lemma stop_listeners_settle ls : ∀ w t sp pr,
  (t, sp) ∈ ls → promises w !! sp = Some pr →
  ∃ pr', promises (foldl (λ acc l, stop_on_exit l acc) w ls) !! sp = Some pr'
         ∧ p_state pr' ≠ Pending.
Proof.
  induction ls as [|l ls IH]; intros w t sp pr Hin Hpr;
    [by apply elem_of_nil in Hin|].
  cbn [foldl]. apply elem_of_cons in Hin as [<-|Hin].
  - assert (Hpr1 : promises (stop_on_exit (t, sp) w) !! sp
                   = Some (settle Fulfilled pr)).
    { cbn. by rewrite list_lookup_alter_eq, Hpr. }
    destruct (ev_sticky _ _ (evolves_stop_listeners ls (stop_on_exit (t, sp) w))
                sp _ Hpr1) as (pr' & Hpr' & Hst).
    assert (Hn : p_state (settle Fulfilled pr) ≠ Pending).
    { unfold settle. cbn. by destruct (p_state pr). }
    exists pr'. split; [done|]. by rewrite (Hst Hn).
  - destruct (ev_sticky _ _ (evolves_stop_on_exit l w) sp pr Hpr)
      as (pr1 & Hpr1 & _).
    by apply (IH _ t sp pr1).
Qed.

Lemma stop_listeners_clear ls : ∀ w t sp tm,
  (t, sp) ∈ ls → timers w !! t = Some tm →
  ∃ tm', timers (foldl (λ acc l, stop_on_exit l acc) w ls) !! t = Some tm'
         ∧ t_pending tm' = false.
Proof.
  induction ls as [|l ls IH]; intros w t sp tm Hin Ht;
    [by apply elem_of_nil in Hin|].
  cbn [foldl]. apply elem_of_cons in Hin as [<-|Hin].
  - assert (Ht1 : timers (stop_on_exit (t, sp) w) !! t = Some (timer_off tm)).
    { cbn. by rewrite list_lookup_alter_eq, Ht. }
    destruct (kp_timers _ _ (keeps_stop_listeners ls (stop_on_exit (t, sp) w))
                t _ Ht1) as (tm' & Ht' & _ & _ & Hp).
    exists tm'. split; [done|]. destruct (t_pending tm'); [|done].
    by specialize (Hp eq_refl).
  - destruct (kp_timers _ _ (keeps_stop_on_exit l w) t tm Ht)
      as (tm1 & Ht1 & _).
    by apply (IH _ t sp tm1).
Qed.

(* After stop() on a running controller, and after any events that do
   not include the exit of the process: the grace timer, unless it has
   fired, sends SIGKILL and resolves; the exit of the process resolves
   and clears the timer. *)
Lemma stop_then_later w pid mid w2 :
  Inv w → startup_timers_ok w →
  this_process w = Some pid → this_isRunning w = true →
  run (snd (stop w)) mid = Some w2 →
  (∀ code, ProcessExit pid code ∉ mid) →
  (TimerFire (length (timers w)) ∉ mid →
   ∃ w3 c3,
     step w2 (TimerFire (length (timers w))) = Some w3
     ∧ children w3 !! pid = Some c3
     ∧ SIGTERM ∈ cp_kill_calls c3
     ∧ last (cp_kill_calls c3) = Some SIGKILL
     ∧ promise_state w3 (length (promises w)) = Some Fulfilled)
  ∧ (∀ code, ∃ w3,
       step w2 (ProcessExit pid code) = Some w3
       ∧ promise_state w3 (length (promises w)) = Some Fulfilled
       ∧ step w3 (TimerFire (length (timers w))) = None
       ∧ this_process w3 = None ∧ this_isRunning w3 = false).
Proof.
  intros HI Hok Hproc Hrun Hmid Hne.
  destruct (inv_process w HI pid Hproc) as (c & Hc & He).
  pose proof (Inv_stop w HI) as HI1.
  pose proof (startup_timers_ok_keeps _ _ Hok (keeps_stop w)) as Hok1.
  pose proof (stop_process w) as Hproc1. rewrite Hproc in Hproc1.
  destruct (stop_promise_not_attempt w HI) as [Hn1|Hn1];
    [|rewrite (stop_running w pid Hproc Hrun) in Hn1; done].
  revert HI1 Hok1 Hproc1 Hn1 Hmid. rewrite (stop_running w pid Hproc Hrun).
  cbn [snd].
  set (sp := length (promises w)). set (t := length (timers w)).
  set (w1 := kill pid SIGTERM _).
  set (c1 := child_kill SIGTERM (child_once_exit (t, sp) c)).
  assert (Hc1 : children w1 !! pid = Some c1).
  { unfold w1, kill. cbn. by rewrite !list_lookup_alter_eq, Hc. }
  assert (Hsp1 : promises w1 !! sp = Some new_promise) by apply lookup_new.
  assert (Ht1 : timers w1 !! t = Some (mkTimer 5000 (StopGrace sp) true))
    by apply lookup_new.
  clearbody w1. intros HI1 Hok1 Hproc1 Hn1 Hmid.
  pose proof (run_Inv _ _ _ HI1 Hmid) as HI2.
  pose proof (run_keeps_process mid w1 pid w2 HI1 Hproc1 Hmid Hne) as Hproc2.
  pose proof (run_keeps _ _ _ Hmid) as K.
  pose proof (run_evolves _ _ _ Hmid) as E.
  destruct (inv_process w2 HI2 pid Hproc2) as (c2 & Hc2 & He2).
  destruct (kp_children _ _ K pid c1 Hc1) as (c2' & Hc2' & _ & [more Hk2] & Hl2).
  assert (c2' = c2) as -> by congruence.
  destruct (Hl2 He2) as [_ Hl2'].
  assert (Hin2 : (t, sp) ∈ cp_once_exit c2).
  { apply Hl2'. cbn. apply elem_of_app. right. by apply list_elem_of_singleton. }
  destruct (not_attempt_never_rejected w1 w2 sp new_promise E Hn1 Hsp1)
    as (pr2 & Hpr2 & Hst2); [done|].
  pose proof (not_attempt_grows _ _ sp (ev_grows _ _ E) Hn1) as Hn2.
  destruct (kp_timers _ _ K t _ Ht1) as (tm2 & Htm2 & _).
  split.
  - intros Hnt.
    pose proof (run_keeps_armed mid w1 pid t _ sp w2 HI1 Hok1 Hproc1 Ht1 eq_refl
                  Hmid Hne Hnt) as Harmed.
    exists (call_resolve sp (kill pid SIGKILL (clearTimeout t w2))),
      (child_kill SIGKILL c2).
    split.
    { cbn [step]. rewrite Harmed. cbn [t_pending t_callback run_timer].
      unfold stop_timeout. cbn [this_process clearTimeout set_timers].
      by rewrite Hproc2. }
    split; [cbn; by rewrite list_lookup_alter_eq, Hc2|].
    split.
    { cbn. rewrite Hk2. cbn. rewrite !elem_of_app.
      left. left. right. by apply list_elem_of_singleton. }
    split; [cbn; apply last_snoc|].
    by apply promise_state_resolve with pr2.
  - intros code. exists (emit_exit pid code c2 w2).
    split; [cbn [step]; by rewrite Hc2, He2|].
    unfold emit_exit.
    set (w_on := on_exit pid code (alter_child child_exit pid w2)).
    assert (Eon : evolves w2 w_on).
    { unfold w_on. eapply evolves_trans; [|apply evolves_on_exit].
      by apply evolves_alter_child. }
    assert (Kon : keeps w2 w_on).
    { unfold w_on. eapply keeps_trans; [|apply keeps_on_exit].
      apply keeps_child_exit. }
    destruct (ev_sticky _ _ Eon sp pr2 Hpr2) as (pr_on & Hpr_on & _).
    destruct (kp_timers _ _ Kon t tm2 Htm2) as (tm_on & Htm_on & _).
    destruct (stop_listeners_settle (cp_once_exit c2) w_on t sp pr_on Hin2 Hpr_on)
      as (pr3 & Hpr3 & Hst3).
    destruct (stop_listeners_clear (cp_once_exit c2) w_on t sp tm_on Hin2 Htm_on)
      as (tm3 & Htm3 & Hoff3).
    destruct (stop_listeners_reset (cp_once_exit c2) w_on) as [Hp3 Hr3];
      [apply on_exit_process|apply on_exit_isRunning|].
    split.
    { destruct (not_attempt_never_rejected w2 _ sp pr2
                  (evolves_emit_exit pid code c2 w2) Hn2 Hpr2 Hst2)
        as (pr3' & Hpr3' & Hnr3).
      unfold emit_exit in Hpr3'. fold w_on in Hpr3'.
      assert (pr3' = pr3) as -> by congruence.
      unfold promise_state. rewrite Hpr3. cbn. f_equal.
      destruct (p_state pr3) eqn:Hs; [done|done|]. by destruct (Hnr3 message). }
    split; [cbn [step]; by rewrite Htm3, Hoff3|]. by split.
Qed.

(** C5: in every state the controller can reach with a process held and
    isRunning set, stop() sends SIGTERM to that process, arms a timer of
    5000 ms and returns a pending promise.  If the 'exit' event comes
    first, the timer is cleared, no SIGKILL is sent and the promise is
    fulfilled; if the timer fires first, SIGKILL is sent and the promise
    is fulfilled.  The same holds after any other events in between: as
    long as the process has not exited, the timer (unless it has fired
    already) sends SIGKILL and fulfils the promise, and the exit of the
    process fulfils the promise and disarms the timer.  Whatever happens,
    the promise of stop() is never rejected. *)
Theorem stop_escalates_and_resolves host config es w pid :
  run (constructor host config) es = Some w →
  this_process w = Some pid →
  this_isRunning w = true →
  ∃ c sp t w1,
    children w !! pid = Some c ∧ cp_exited c = false
    ∧ stop w = (ThePromise sp, w1)
    ∧ (∃ c1, children w1 !! pid = Some c1
             ∧ cp_kill_calls c1 = (cp_kill_calls c ++ [SIGTERM])%list)
    ∧ timers w1 !! t = Some (mkTimer 5000 (StopGrace sp) true)
    ∧ promise_state w1 sp = Some Pending
    ∧ (∀ code, ∃ w2 c2,
         step w1 (ProcessExit pid code) = Some w2
         ∧ promise_state w2 sp = Some Fulfilled
         ∧ children w2 !! pid = Some c2
         ∧ cp_exited c2 = true
         ∧ cp_kill_calls c2 = (cp_kill_calls c ++ [SIGTERM])%list
         ∧ step w2 (TimerFire t) = None
         ∧ this_process w2 = None ∧ isProcessRunning w2 = false)
    ∧ (∃ w2 c2,
         step w1 (TimerFire t) = Some w2
         ∧ children w2 !! pid = Some c2
         ∧ cp_kill_calls c2 = (cp_kill_calls c ++ [SIGTERM; SIGKILL])%list
         ∧ promise_state w2 sp = Some Fulfilled)
    ∧ (∀ mid w2,
         run w1 mid = Some w2 →
         (∀ code, ProcessExit pid code ∉ mid) →
         (TimerFire t ∉ mid →
          ∃ w3 c3,
            step w2 (TimerFire t) = Some w3
            ∧ children w3 !! pid = Some c3
            ∧ SIGTERM ∈ cp_kill_calls c3
            ∧ last (cp_kill_calls c3) = Some SIGKILL
            ∧ promise_state w3 sp = Some Fulfilled)
         ∧ (∀ code, ∃ w3,
              step w2 (ProcessExit pid code) = Some w3
              ∧ promise_state w3 sp = Some Fulfilled
              ∧ step w3 (TimerFire t) = None
              ∧ this_process w3 = None ∧ isProcessRunning w3 = false))
    ∧ (∀ later w' m,
         run w1 later = Some w' → promise_state w' sp ≠ Some (Rejected m)).
Proof.
  intros Hreach Hproc Hrun. pose proof (reachable_Inv _ _ _ _ Hreach) as HI.
  pose proof (reachable_startup_timers_ok _ _ _ _ Hreach) as Hok.
  destruct (inv_process w HI pid Hproc) as (c & Hc & He).
  destruct (stop_then_timeout w pid HI Hproc Hrun)
    as (c' & w1 & w2 & c2 & Hc' & Hstop & Ht & Hfire & Hc2 & Hk2 & Hp2).
  assert (c' = c) as -> by congruence.
  exists c, (length (promises w)), (length (timers w)), w1.
  split; [done|]. split; [done|]. split; [done|].
  assert (Hw1 : w1 = snd (stop w)) by by rewrite Hstop.
  assert (Hsp1 : promises w1 !! length (promises w) = Some new_promise).
  { rewrite Hw1, (stop_running w pid Hproc Hrun). cbn. apply lookup_new. }
  split.
  { rewrite Hw1, (stop_running w pid Hproc Hrun). eexists. split.
    - unfold kill. cbn. by rewrite !list_lookup_alter_eq, Hc.
    - done. }
  split; [done|]. split; [unfold promise_state; by rewrite Hsp1|].
  split.
  { intros code.
    destruct (stop_then_exit w pid code HI Hproc Hrun)
      as (c0 & w1' & w3 & c3 & tm & Hc0 & Hstop' & Hexit & Hp3 & Hc3 & He3 & Hk3
          & Ht3 & Hoff & Hproc3 & Hrun3 & _).
    assert (c0 = c) as -> by congruence.
    assert (w1' = w1) as -> by congruence.
    exists w3, c3. repeat split; try done.
    cbn [step]. by rewrite Ht3, Hoff. }
  split; [by exists w2, c2|].
  split.
  { intros mid w3 Hmid Hne. rewrite Hw1 in Hmid.
    exact (stop_then_later w pid mid w3 HI Hok Hproc Hrun Hmid Hne). }
  intros later w' m Hlater Hrej.
  destruct (stop_promise_not_attempt w HI) as [Hn|Hn]; [|congruence].
  rewrite <- Hw1 in Hn.
  destruct (not_attempt_never_rejected w1 w' _ new_promise
              (run_evolves _ _ _ Hlater) Hn Hsp1) as (pr' & Hpr' & Hst); [done|].
  unfold promise_state in Hrej. rewrite Hpr' in Hrej. cbn in Hrej.
  simplify_eq. by eapply Hst.
Qed.

Lemma stop_escalates_and_resolves_witness :
  ∃ w w1 w2 w3,
    run (constructor sample_host sample_config) started = Some w
    ∧ stop w = (ThePromise 1, w1)
    ∧ step w1 (TimerFire 1) = Some w2
    ∧ (cp_kill_calls <$> children w2 !! 0) = Some [SIGTERM; SIGKILL]
    ∧ step w1 (ProcessExit 0 (Some 0%Z)) = Some w3
    ∧ (cp_kill_calls <$> children w3 !! 0) = Some [SIGTERM]
    ∧ promise_state w2 1 = Some Fulfilled
    ∧ promise_state w3 1 = Some Fulfilled
    ∧ ∀ later w' m,
        run w1 later = Some w' → promise_state w' 1 ≠ Some (Rejected m).
Proof.
  eexists _, _, _, _.
  split; [vm_compute; reflexivity|]. split; [vm_compute; reflexivity|].
  split; [vm_compute; reflexivity|]. split; [vm_compute; reflexivity|].
  split; [vm_compute; reflexivity|]. split; [vm_compute; reflexivity|].
  split; [vm_compute; reflexivity|]. split; [vm_compute; reflexivity|].
  assert (Hreach : run (constructor sample_host sample_config) started
                   = Some (default (constructor sample_host sample_config)
                             (run (constructor sample_host sample_config) started)))
    by (vm_compute; reflexivity).
  destruct (stop_escalates_and_resolves sample_host sample_config started _ 0
              Hreach ltac:(vm_compute; reflexivity) ltac:(vm_compute; reflexivity))
    as (c & sp & t & w1 & _ & _ & Hstop & _ & _ & _ & _ & _ & _ & Hnever).
  vm_compute in Hstop. injection Hstop as <- <-.
  exact Hnever.
Defined.

(* --------------------------------------------------------------------- *)
(* Cleanup after a failed startup                                        *)
(* --------------------------------------------------------------------- *)

(** C2: the startup timer fires on a spawned child that has not reported
    readiness.  start() is rejected, but the stop() of doReject returns on
    line 144 because isRunning is still false: the child receives no
    signal, has not exited, and is still held in this.process.  The same
    happens after an 'error' event. *)
Theorem startup_timeout_leaves_child_running :
  ∃ w c,
    run (constructor sample_host sample_config) (spawned ++ [TimerFire 0])
    = Some w
    ∧ promise_state w 0
      = Some (Rejected "MongoDB subprocess startup timeout (30s)")
    ∧ this_process w = Some 0
    ∧ children w !! 0 = Some c
    ∧ cp_kill_calls c = []
    ∧ cp_exited c = false
    ∧ stop w = (Undefined, w)
    ∧ ∃ w' c',
        run (constructor sample_host sample_config)
            (spawned ++ [ProcessError 0 "spawn mongod EACCES"])
        = Some w'
        ∧ promise_state w' 0
          = Some (Rejected
                    "Failed to start MongoDB subprocess: spawn mongod EACCES")
        ∧ this_process w' = Some 0
        ∧ children w' !! 0 = Some c'
        ∧ cp_kill_calls c' = [].
Proof.
  eexists _, _. split; [vm_compute; reflexivity|].
  split; [reflexivity|]. split; [reflexivity|]. split; [reflexivity|].
  split; [reflexivity|]. split; [reflexivity|]. split; [reflexivity|].
  eexists _, _. split; [vm_compute; reflexivity|].
  split; [reflexivity|]. split; [reflexivity|]. split; reflexivity.
Qed.

(* --------------------------------------------------------------------- *)
(* Lifetime of this.startupPromise                                       *)
(* --------------------------------------------------------------------- *)




(* start() on a controller without startup promise (lines 51-52 and
   55-60, with isRunning false). *)
Lemma start_fresh w :
  enabled (this_config w) = true → this_startupPromise w = None →
  this_isRunning w = false →
  start w
  = (ThePromise (length (promises w)),
     set_startupPromise (Some (length (promises w)))
       (checkPortAvailable (port (this_config w)) (length (promises w))
          (set_promises (promises w ++ [new_promise]) w))).
Proof.
  intros Hen Hsp Hrun. unfold start, _start, Promise_new.
  rewrite Hen, Hsp. cbn [negb this_isRunning set_promises]. by rewrite Hrun.
Qed.


(* --------------------------------------------------------------------- *)
(* Port preflight                                                        *)
(* --------------------------------------------------------------------- *)

Lemma promise_state_reject w p m :
  promises w !! p = Some new_promise →
  promise_state (call_reject p m w) p = Some (Rejected m).
Proof.
  intros Hp. unfold promise_state, call_reject. cbn [promises set_promises].
  by rewrite list_lookup_alter_eq, Hp.
Qed.

(* After a rejected port probe nothing can start a process: no child is
   alive, no probe is under way, and start() keeps returning the
   rejected promise. *)
Lemma step_after_failed_probe w p e w' :
  Inv w → failed_probe w p → step w e = Some w' →
  failed_probe w' p ∧ children w' = children w.
Proof.
  intros HI (Hsp & (m & pr & Hpr & Hm) & Hproc & Hs) Hstep.
  assert (Hen : enabled (this_config w) = true).
  { apply (inv_enabled w HI). congruence. }
  assert (Hdone : ∀ pid c, children w !! pid = Some c →
            cp_exited c = true ∧ cl_resolved c = true).
  { intros pid c Hc. by apply (no_process_all_done w pid). }
  assert (Hsame : failed_probe w p ∧ children w = children w).
  { split; [|done]. split; [done|]. split; [by exists m, pr|]. by split. }
  destruct e; cbn [step] in Hstep.
  - unfold start in Hstep. rewrite Hen, Hsp in Hstep. by simplify_eq.
  - rewrite (stop_no_process w Hproc) in Hstep. by simplify_eq.
  - destruct (servers w !! sid) as [s|] eqn:Hsid; [|done].
    destruct (sv_state s) eqn:Hst; try done. destruct (Hs sid s Hsid). by left.
  - destruct (servers w !! sid) as [s|] eqn:Hsid; [|done].
    destruct (sv_state s) eqn:Hst; try done. destruct (Hs sid s Hsid). by right.
  - destruct (servers w !! sid) as [s|] eqn:Hsid; [|done].
    destruct (sv_state s) eqn:Hst; try done. destruct (Hs sid s Hsid). by left.
  - destruct (children w !! pid) as [c|] eqn:Hc; [|done].
    destruct (Hdone pid c Hc) as [_ Hr]. unfold on_stdout_data in Hstep.
    rewrite (doResolve_settled pid w c Hc Hr) in Hstep.
    destruct (has_marker data); by simplify_eq.
  - destruct (children w !! pid) as [c|] eqn:Hc; [|done].
    destruct (Hdone pid c Hc) as [_ Hr]. unfold on_stderr_data in Hstep.
    rewrite (doResolve_settled pid w c Hc Hr) in Hstep.
    destruct (has_marker data); by simplify_eq.
  - destruct (children w !! pid) as [c|] eqn:Hc; [|done].
    destruct (Hdone pid c Hc) as [_ Hr]. unfold on_error in Hstep.
    rewrite (doReject_settled pid _ w c Hc Hr) in Hstep. by simplify_eq.
  - destruct (children w !! pid) as [c|] eqn:Hc; [|done].
    destruct (Hdone pid c Hc) as [He _]. by rewrite He in Hstep.
  - destruct (timers w !! t) as [tm|] eqn:Ht; [|done].
    destruct (t_pending tm); [|done]. simplify_eq.
    assert (Hclear : failed_probe (clearTimeout t w) p
                     ∧ children (clearTimeout t w) = children w).
    { split; [|done]. split; [done|]. split; [by exists m, pr|]. by split. }
    unfold run_timer. destruct (t_callback tm) as [pid|sp].
    + unfold on_startup_timeout.
      destruct (children (clearTimeout t w) !! pid) as [c|] eqn:Hc.
      * destruct (Hdone pid c Hc) as [_ Hr].
        by rewrite (doReject_settled pid _ _ c Hc Hr).
      * unfold doReject. by rewrite Hc.
    + unfold stop_timeout. cbn [this_process clearTimeout set_timers].
      rewrite Hproc. split; [|done]. split; [done|]. split; [|by split].
      destruct (ev_sticky _ _ (evolves_call_resolve sp (clearTimeout t w)) p pr Hpr)
        as (pr' & Hpr' & Hst).
      exists m, pr'. split; [done|]. rewrite Hst; [done|]. by rewrite Hm.
  - destruct (servers w !! sid) as [s|] eqn:Hsid; [|done].
    destruct (sv_state s) eqn:Hst; try done. destruct (Hs sid s Hsid). by right.
Qed.

Lemma run_after_failed_probe es : ∀ w p w',
  Inv w → failed_probe w p → run w es = Some w' →
  failed_probe w' p ∧ children w' = children w.
Proof.
  induction es as [|e es IH]; intros w p w' HI Hf Hrun; cbn [run] in Hrun.
  - by simplify_eq.
  - destruct (step w e) as [w1|] eqn:Hstep; [|done].
    destruct (step_after_failed_probe w p e w1 HI Hf Hstep) as [Hf1 Hc1].
    destruct (IH w1 p w' (step_Inv _ _ _ HI Hstep) Hf1 Hrun) as [Hf' Hc'].
    split; [done|]. congruence.
Qed.

(** C8: in every state the controller can reach, start() on an enabled
    controller without startup promise begins an attempt with a new
    promise, and spawns nothing and makes no directory yet.
    When the configured port is one that server.listen accepts
    (0..65535), a probe server binds 127.0.0.1 on that port and the
    promise is pending.  When the probe reports 'listening' it is closed,
    and once closed _start goes on: the child is spawned from the
    configuration with the promise still pending, unless mkdirSync or
    spawn throws, in which case the promise is rejected with the error
    thrown and no process is spawned then or later.  When the probe
    reports an error with code EADDRINUSE the promise is rejected with
    the port-in-use message; with any other code it is rejected with
    "Port check failed: " and the message of the error.  After either
    rejection the probe cannot proceed, and whatever happens later no
    process is spawned.
    When the configured port is outside 0..65535, server.listen throws:
    the promise is rejected at once with the error of the host's Node,
    the probe reports nothing, and whatever happens later no process is
    spawned. *)
Theorem port_preflight host config es w :
  run (constructor host config) es = Some w →
  enabled (this_config w) = true →
  this_startupPromise w = None →
  let p := length (promises w) in
  let sid := length (servers w) in
  ∃ w1,
    start w = (ThePromise p, w1)
    ∧ children w1 = children w
    ∧ directories w1 = directories w
    ∧ this_startupPromise w1 = Some p
    ∧ (valid_port (port (this_config w)) = true →
       servers w1 !! sid
       = Some (mkServer "127.0.0.1" (port (this_config w)) Binding p)
       ∧ promise_state w1 p = Some Pending
       ∧ (∃ w2,
            step w1 (ServerListening sid) = Some w2
            ∧ sv_state <$> servers w2 !! sid = Some Closing
            ∧ children w2 = children w
            ∧ (∃ w3 c,
                 step w2 (ServerClosed sid) = Some w3
                 ∧ sv_state <$> servers w3 !! sid = Some Closed
                 ∧ children w3 = (children w ++ [c])%list
                 ∧ cp_file c = mongodPath (this_config w)
                 ∧ cp_args c = spawn_args (this_config w)
                 ∧ this_process w3 = Some (length (children w))
                 ∧ promise_state w3 p = Some Pending)
            ∧ (∀ site message w3,
                 step w2 (ResumeThrows sid site message) = Some w3 →
                 promise_state w3 p = Some (Rejected message)
                 ∧ children w3 = children w
                 ∧ this_process w3 = None
                 ∧ ∀ later w', run w3 later = Some w' →
                               children w' = children w))
       ∧ (∀ message, ∃ w2,
            step w1 (ServerError sid "EADDRINUSE" message) = Some w2
            ∧ promise_state w2 p
              = Some (Rejected ("Port " ++ String_ (port (this_config w))
                       ++ " is already in use. Cannot start MongoDB subprocess."))
            ∧ children w2 = children w
            ∧ step w2 (ServerListening sid) = None
            ∧ step w2 (ServerClosed sid) = None
            ∧ ∀ later w', run w2 later = Some w' → children w' = children w)
       ∧ (∀ code message, code ≠ "EADDRINUSE" → ∃ w2,
            step w1 (ServerError sid code message) = Some w2
            ∧ promise_state w2 p
              = Some (Rejected ("Port check failed: " ++ message))
            ∧ children w2 = children w
            ∧ step w2 (ServerListening sid) = None
            ∧ step w2 (ServerClosed sid) = None
            ∧ ∀ later w', run w2 later = Some w' → children w' = children w))
    ∧ (valid_port (port (this_config w)) = false →
       promise_state w1 p
       = Some (Rejected (bad_port_message host (port (this_config w))))
       ∧ step w1 (ServerListening sid) = None
       ∧ step w1 (ServerClosed sid) = None
       ∧ (∀ code message, step w1 (ServerError sid code message) = None)
       ∧ ∀ later w', run w1 later = Some w' → children w' = children w).
Proof.
  intros Hreach Hen Hsp p sid.
  pose proof (reachable_Inv _ _ _ _ Hreach) as HI.
  pose proof (run_runtime _ _ _ Hreach) as Hrt.
  change (runtime (constructor host config)) with host in Hrt.
  destruct (inv_stopped w HI Hsp) as [Hproc Hrun].
  pose proof (Inv_start w HI) as HI1.
  rewrite (start_fresh w Hen Hsp Hrun) in HI1 |- *. fold p in HI1 |- *.
  cbn [snd] in HI1.
  assert (Hnone : ∀ j s0, servers w !! j = Some s0 → ¬ active s0).
  { intros j s0 Hj Ha.
    destruct (inv_active w HI j s0 Hj Ha) as (Hsp0 & _). congruence. }
  eexists. split; [done|]. revert HI1.
  change (this_config (set_promises (promises w ++ [new_promise]) w))
    with (this_config w).
  destruct (valid_port (port (this_config w))) eqn:Hv.
  - (* the port is accepted: a probe is under way *)
    rewrite (checkPortAvailable_valid _ _ _ Hv).
    change (servers (set_promises (promises w ++ [new_promise]) w))
      with (servers w).
    set (s := mkServer "127.0.0.1" (port (this_config w)) Binding p).
    set (w1 := set_startupPromise _ _). intros HI1.
    assert (Hs1 : servers w1 !! sid = Some s) by apply lookup_new.
    assert (Hp1 : promises w1 !! p = Some new_promise) by apply lookup_new.
    assert (Hc1 : children w1 = children w) by done.
    assert (Hd1 : directories w1 = directories w) by done.
    assert (Hcfg1 : this_config w1 = this_config w) by done.
    assert (Hsp1 : this_startupPromise w1 = Some p) by done.
    assert (Hproc1 : this_process w1 = None) by done.
    clearbody w1.
    split; [done|]. split; [done|]. split; [done|].
    split; [|intros ?; done]. intros _.
    split; [done|]. split; [unfold promise_state; by rewrite Hp1|].
    assert (Herr : ∀ code message, ∃ w2,
              step w1 (ServerError sid code message) = Some w2
              ∧ promise_state w2 p
                = Some (Rejected (port_error_message (port (this_config w))
                                    code message))
              ∧ children w2 = children w
              ∧ step w2 (ServerListening sid) = None
              ∧ step w2 (ServerClosed sid) = None
              ∧ ∀ later w', run w2 later = Some w' → children w' = children w).
    { intros code message.
      assert (Hstep : step w1 (ServerError sid code message)
                = Some (call_reject p
                          (port_error_message (port (this_config w)) code message)
                          (set_servers
                             (alter (server_set_state Failed) sid (servers w1)) w1)))
        by (cbn [step]; by rewrite Hs1).
      eexists. split; [exact Hstep|].
      assert (Hrej : promise_state
                       (call_reject p
                          (port_error_message (port (this_config w)) code message)
                          (set_servers
                             (alter (server_set_state Failed) sid (servers w1)) w1))
                       p
                     = Some (Rejected (port_error_message (port (this_config w))
                                         code message)))
        by by apply promise_state_reject.
      split; [exact Hrej|]. split; [done|].
      split; [|split].
      - cbn [step servers call_reject set_promises set_servers].
        by rewrite list_lookup_alter_eq, Hs1.
      - cbn [step servers call_reject set_promises set_servers].
        by rewrite list_lookup_alter_eq, Hs1.
      - intros later w' Hlater.
        destruct (run_after_failed_probe later _ p w'
                    (step_Inv _ _ _ HI1 Hstep)) as [_ Hch]; [|exact Hlater|].
        + split; [done|]. split.
          * exists (port_error_message (port (this_config w)) code message),
              (settle (Rejected (port_error_message (port (this_config w))
                                   code message)) new_promise).
            split; [|done]. cbn [promises call_reject set_promises set_servers].
            by rewrite list_lookup_alter_eq, Hp1.
          * split; [done|].
            apply (server_done_no_probe Failed sid s w1); auto. by left.
        + by rewrite Hch. }
    split; [|split].
    + set (w2 := set_servers (alter (server_set_state Closing) sid (servers w1)) w1).
      assert (Hs2 : servers w2 !! sid = Some (server_set_state Closing s)).
      { unfold w2. cbn. by rewrite list_lookup_alter_eq, Hs1. }
      assert (Hstep2 : step w1 (ServerListening sid) = Some w2)
        by (cbn [step]; by rewrite Hs1).
      pose proof (step_Inv _ _ _ HI1 Hstep2) as HI2.
      exists w2. split; [done|]. split; [by rewrite Hs2|]. split; [done|]. split.
      * eexists _, _. split; [cbn [step]; by rewrite Hs2|].
        unfold _start_resume, spawn, setTimeout.
        split.
        { repeat case_match; cbn; by rewrite !list_lookup_alter_eq, Hs1. }
        split.
        { repeat case_match; cbn; rewrite Hc1; by rewrite alter_last. }
        split; [by rewrite <- Hcfg1|]. split; [by rewrite <- Hcfg1|].
        split; [repeat case_match; cbn; by rewrite Hc1|].
        unfold promise_state. repeat case_match; cbn; by rewrite Hp1.
      * intros site message w3 Hstep3.
        pose proof (step_Inv _ _ _ HI2 Hstep3) as HI3.
        cbn [step] in Hstep3. rewrite Hs2 in Hstep3. cbn in Hstep3.
        apply start_throws_inv in Hstep3 as [ds ->].
        assert (Hrej : promise_state
                         (call_reject p message
                            (set_directories ds
                               (set_servers
                                  (alter (server_set_state Closed) sid (servers w2))
                                  w2))) p
                       = Some (Rejected message))
          by by apply promise_state_reject.
        split; [exact Hrej|]. split; [done|]. split; [done|].
        intros later w' Hlater.
        destruct (run_after_failed_probe later _ p w' HI3) as [_ Hch];
          [|exact Hlater|by rewrite Hch].
        split; [done|]. split.
        { exists message, (settle (Rejected message) new_promise).
          split; [|done]. cbn. by rewrite list_lookup_alter_eq, Hp1. }
        split; [done|].
        apply (server_done_no_probe Closed sid (server_set_state Closing s) w2);
          auto. by right.
    + intros message. destruct (Herr "EADDRINUSE" message) as (w2 & H1 & H2 & H3).
      by exists w2.
    + intros code message Hne. destruct (Herr code message) as (w2 & H1 & H2 & H3).
      exists w2. split; [done|]. split; [|done]. rewrite H2.
      unfold port_error_message.
      destruct (String.eqb_spec code "EADDRINUSE"); [done|reflexivity].
  - (* the port is refused: listen throws *)
    rewrite (checkPortAvailable_invalid _ _ _ Hv).
    change (servers (set_promises (promises w ++ [new_promise]) w))
      with (servers w).
    change (runtime (set_promises (promises w ++ [new_promise]) w))
      with (runtime w).
    rewrite Hrt.
    set (s := mkServer "127.0.0.1" (port (this_config w)) Failed p).
    set (w1 := set_startupPromise _ _). intros HI1.
    assert (Hs1 : servers w1 !! sid = Some s) by apply lookup_new.
    assert (Hss1 : servers w1 = (servers w ++ [s])%list) by done.
    assert (Hp1 : promises w1 !! p
                  = Some (settle (Rejected (bad_port_message host
                                              (port (this_config w))))
                            new_promise)).
    { unfold w1, call_reject, p.
      cbn [promises set_startupPromise set_promises set_servers].
      rewrite alter_last. apply lookup_new. }
    assert (Hc1 : children w1 = children w) by done.
    assert (Hd1 : directories w1 = directories w) by done.
    assert (Hsp1 : this_startupPromise w1 = Some p) by done.
    assert (Hproc1 : this_process w1 = None) by done.
    clearbody w1.
    split; [done|]. split; [done|]. split; [done|].
    split; [intros ?; done|]. intros _.
    split; [unfold promise_state; by rewrite Hp1|].
    split; [cbn [step]; by rewrite Hs1|].
    split; [cbn [step]; by rewrite Hs1|].
    split; [intros code message; cbn [step]; by rewrite Hs1|].
    intros later w' Hlater.
    destruct (run_after_failed_probe later _ p w' HI1) as [_ Hch];
      [|exact Hlater|by rewrite Hch].
    split; [done|]. split; [by eexists _, _|]. split; [done|].
    intros j s0 Hj Ha. rewrite Hss1 in Hj.
    apply lookup_snoc_inv in Hj as [Hj|[_ ->]]; [by destruct (Hnone j s0)|].
    by destruct Ha.
Qed.

Lemma port_preflight_witness :
  (∃ w1 w2,
     start (constructor sample_host sample_config) = (ThePromise 0, w1)
     ∧ step w1 (ServerError 0 "EADDRINUSE"
                  "listen EADDRINUSE: address already in use 127.0.0.1:27017")
       = Some w2
     ∧ promise_state w2 0
       = Some (Rejected
                 "Port 27017 is already in use. Cannot start MongoDB subprocess.")
     ∧ ∀ later w', run w2 later = Some w' → children w' = [])
  ∧ (∃ w1,
       start (constructor sample_host
                (mkMongoSubprocessConfig true None None (Some 70000%Z) None None))
       = (ThePromise 0, w1)
       ∧ promise_state w1 0
         = Some (Rejected
                   "options.port should be >= 0 and < 65536. Received type number (70000).")
       ∧ ∀ later w', run w1 later = Some w' → children w' = []).
Proof.
  split.
  - destruct (port_preflight sample_host sample_config []
                (constructor sample_host sample_config)
                ltac:(vm_compute; reflexivity) ltac:(vm_compute; reflexivity)
                ltac:(vm_compute; reflexivity))
      as (w1 & Hstart & _ & _ & _ & Hvalid & _).
    destruct (Hvalid ltac:(vm_compute; reflexivity)) as (_ & _ & _ & Hin & _).
    destruct (Hin "listen EADDRINUSE: address already in use 127.0.0.1:27017")
      as (w2 & Hstep & Hrej & _ & _ & _ & Hnever).
    exists w1, w2. split; [exact Hstart|]. split; [exact Hstep|].
    split; [|exact Hnever].
    etrans; [exact Hrej|]. vm_compute. reflexivity.
  - destruct (port_preflight sample_host
                (mkMongoSubprocessConfig true None None (Some 70000%Z) None None)
                []
                (constructor sample_host
                   (mkMongoSubprocessConfig true None None (Some 70000%Z)
                      None None))
                ltac:(vm_compute; reflexivity) ltac:(vm_compute; reflexivity)
                ltac:(vm_compute; reflexivity))
      as (w1 & Hstart & _ & _ & _ & _ & Hbad).
    destruct (Hbad ltac:(vm_compute; reflexivity)) as (Hrej & _ & _ & _ & Hnever).
    exists w1. split; [exact Hstart|]. split; [|exact Hnever].
    etrans; [exact Hrej|]. vm_compute. reflexivity.
Defined.

(* ===================================================================== *)
(* Further properties of the class                                       *)
(* ===================================================================== *)

(* --------------------------------------------------------------------- *)
(* The readiness test on a chunk                                         *)
(* --------------------------------------------------------------------- *)

Lemma prefix_app pat s :
  String.prefix pat s = true ↔ ∃ post, s = pat ++ post.
Proof.
  revert s. induction pat as [|a pat IH]; intros s.
  - split; [intros _; by exists s|intros _; by destruct s].
  - destruct s as [|b s]; cbn.
    + split; [intros ?; discriminate|intros [post ?]; discriminate].
    + destruct (Ascii.ascii_dec a b) as [->|Hne].
      * rewrite IH. split; intros [post H]; exists post; congruence.
      * split; [intros ?; discriminate|]. intros [post H]. congruence.
Qed.

Lemma includes_app s pat :
  includes s pat = true ↔ ∃ pre post, s = pre ++ pat ++ post.
Proof.
  induction s as [|c s IH]; cbn [includes]; rewrite orb_true_iff, prefix_app.
  - split.
    + intros [[post H]|H]; [|done]. by exists "", post.
    + intros (pre & post & H). left. destruct pre; [by exists post|done].
  - rewrite IH. split.
    + intros [[post H]|(pre & post & H)]; [by exists "", post|].
      exists (String c pre), post. cbn. by rewrite H.
    + intros (pre & post & H). destruct pre as [|c' pre]; [left; by exists post|].
      right. exists pre, post. cbn in H. congruence.
Qed.

(** X1: a chunk passes the readiness test of the data listeners exactly
    when it can be written as some text, then "Waiting for connections"
    or "waiting for connections", then some text: the phrase is found
    anywhere in the chunk, whatever surrounds it. *)
Theorem has_marker_anywhere data :
  has_marker data = true ↔
  ∃ pre post,
    data = pre ++ "Waiting for connections" ++ post
    ∨ data = pre ++ "waiting for connections" ++ post.
Proof.
  unfold has_marker. rewrite orb_true_iff, !includes_app. split.
  - intros [(pre & post & H)|(pre & post & H)]; exists pre, post; auto.
  - intros (pre & post & [H|H]); [left|right]; by exists pre, post.
Qed.

(* --------------------------------------------------------------------- *)
(* A controller that is not enabled                                      *)
(* --------------------------------------------------------------------- *)

Lemma disabled_step host config e w' :
  in_enabled config = false →
  step (constructor host config) e = Some w' →
  w' = constructor host config ∧ (e = CallStart ∨ e = CallStop).
Proof.
  intros Hen. destruct e; cbn [step]; intros H.
  - unfold start in H. cbn in H. rewrite Hen in H. cbn in H.
    simplify_eq. auto.
  - cbn in H. simplify_eq. auto.
  - by cbn in H.
  - by cbn in H.
  - by cbn in H.
  - by cbn in H.
  - by cbn in H.
  - by cbn in H.
  - by cbn in H.
  - by cbn in H.
  - by cbn in H.
Qed.

(** X2: with enabled false, whatever is called and in whatever order, the
    controller stays exactly as the constructor left it: start() returns
    at once without a promise to wait for, no promise, timer, probe or
    process is ever created, isProcessRunning() stays false, and the
    only events that can occur are the calls of start() and stop(). *)
Theorem disabled_controller_is_inert host config es w :
  in_enabled config = false →
  run (constructor host config) es = Some w →
  w = constructor host config
  ∧ start w = (Undefined, w)
  ∧ stop w = (Undefined, w)
  ∧ isProcessRunning w = false
  ∧ children w = [] ∧ servers w = [] ∧ timers w = [] ∧ promises w = []
  ∧ Forall (λ e, e = CallStart ∨ e = CallStop) es.
Proof.
  intros Hen Hrun.
  assert (H : w = constructor host config
              ∧ Forall (λ e, e = CallStart ∨ e = CallStop) es).
  { revert Hrun. induction es as [|e es IH]; cbn [run]; intros Hrun.
    - by simplify_eq.
    - destruct (step (constructor host config) e) as [w1|] eqn:Hstep; [|done].
      destruct (disabled_step host config e w1 Hen Hstep) as [-> He].
      destruct (IH Hrun) as [-> Hes]. split; [done|]. by constructor. }
  destruct H as [-> Hes]. split; [done|]. split.
  { unfold start. cbn. by rewrite Hen. }
  by repeat split.
Qed.

Lemma disabled_controller_is_inert_witness :
  ∃ w, run (constructor sample_host
              (mkMongoSubprocessConfig false None None (Some 27018%Z) None None))
           [CallStart; CallStop; CallStart] = Some w
       ∧ start w = (Undefined, w)
       ∧ children w = [].
Proof.
  eexists. split; [vm_compute; reflexivity|].
  refine ((λ H, conj (proj1 (proj2 H))
                     (proj1 (proj2 (proj2 (proj2 (proj2 H))))))
            (disabled_controller_is_inert sample_host
               (mkMongoSubprocessConfig false None None (Some 27018%Z) None None)
               [CallStart; CallStop; CallStart] _ _ _));
    by_evaluation.
  all: by_evaluation.
  all: by_evaluation.
Defined.

(* --------------------------------------------------------------------- *)
(* Paths                                                                 *)
(* --------------------------------------------------------------------- *)

Lemma prefix_empty s : String.prefix "" s = true.
Proof. by destruct s. Qed.

Lemma split_slash_nonempty s : split_slash s ≠ [].
Proof.
  destruct s as [|c s]; [done|]. cbn [split_slash].
  destruct (Ascii.eqb c "/"); [done|]. by destruct (split_slash s).
Qed.

Lemma split_slash_app_slash a b :
  split_slash (a ++ String "/" b) = (split_slash a ++ split_slash b)%list.
Proof.
  induction a as [|c a IH]; [done|].
  cbn [String.append split_slash]. rewrite IH.
  destruct (Ascii.eqb c "/"); [done|].
  pose proof (split_slash_nonempty a). by destruct (split_slash a).
Qed.

Lemma includes_slash_cons c s :
  includes (String c s) "/" = Ascii.eqb c "/" || includes s "/".
Proof.
  cbn [includes String.prefix].
  destruct (ascii_dec "/" c) as [<-|Hne]; [by destruct s|].
  destruct (Ascii.eqb_spec c "/"); [by subst|done].
Qed.

Lemma split_slash_plain s : includes s "/" = false → split_slash s = [s].
Proof.
  induction s as [|c s IH]; [done|].
  rewrite includes_slash_cons. intros [Hc Hs]%orb_false_iff.
  cbn [split_slash]. by rewrite Hc, (IH Hs).
Qed.

Lemma ends_with_slash_plain s : includes s "/" = false → ends_with_slash s = false.
Proof.
  induction s as [|c s IH]; [done|].
  rewrite includes_slash_cons. intros [Hc Hs]%orb_false_iff.
  cbn [ends_with_slash]. destruct s; [done|]. by apply IH.
Qed.

Lemma ends_with_slash_cons c s :
  s ≠ "" → ends_with_slash (String c s) = ends_with_slash s.
Proof. by destruct s. Qed.

Lemma ends_with_slash_app a b :
  b ≠ "" → ends_with_slash (a ++ b) = ends_with_slash b.
Proof.
  intros Hb. induction a as [|c a IH]; [done|].
  cbn [String.append ends_with_slash]. rewrite IH.
  destruct (a ++ b) eqn:E; [|done].
  destruct a; cbn in E; [by subst|done].
Qed.

Lemma plain_segment_inv s :
  plain_segment s = true →
  String.eqb s "" = false ∧ includes s "/" = false
  ∧ String.eqb s "." = false ∧ String.eqb s ".." = false.
Proof.
  unfold plain_segment. rewrite !andb_true_iff, !negb_true_iff. tauto.
Qed.

Lemma concat_cons sep x l :
  l ≠ [] → String.concat sep (x :: l) = x ++ sep ++ String.concat sep l.
Proof. by destruct l. Qed.

Lemma concat_plain_nonempty l :
  Forall (λ s, plain_segment s = true) l → l ≠ [] → String.concat "/" l ≠ "".
Proof.
  intros Hl Hne. destruct l as [|s l]; [done|].
  apply Forall_cons in Hl as [Hs _].
  apply plain_segment_inv in Hs as (Hs & _).
  destruct s as [|c s]; [done|]. by destruct l.
Qed.

Lemma split_slash_concat l :
  Forall (λ s, plain_segment s = true) l → l ≠ [] →
  split_slash (String.concat "/" l) = l.
Proof.
  induction l as [|s l IH]; [done|]. intros [Hs Hl]%Forall_cons _.
  apply plain_segment_inv in Hs as (_ & Hs & _).
  destruct l as [|s' l]; [by apply split_slash_plain|].
  rewrite concat_cons by done.
  change (s ++ "/" ++ String.concat "/" (s' :: l))
    with (s ++ String "/" (String.concat "/" (s' :: l))).
  rewrite split_slash_app_slash, (split_slash_plain s Hs), IH by done. done.
Qed.

Lemma ends_with_slash_concat l :
  Forall (λ s, plain_segment s = true) l → l ≠ [] →
  ends_with_slash (String.concat "/" l) = false.
Proof.
  induction l as [|s l IH]; [done|]. intros [Hs Hl]%Forall_cons _.
  destruct l as [|s' l].
  { apply plain_segment_inv in Hs as (_ & Hs & _).
    by apply ends_with_slash_plain. }
  rewrite concat_cons by done.
  pose proof (concat_plain_nonempty (s' :: l) Hl ltac:(done)) as Hne.
  rewrite ends_with_slash_app by done.
  change ("/" ++ String.concat "/" (s' :: l))
    with (String "/" (String.concat "/" (s' :: l))).
  rewrite ends_with_slash_cons by done. by apply IH.
Qed.

Lemma normalize_segments_plain b l res :
  Forall (λ s, s = "" ∨ plain_segment s = true) l →
  normalize_segments b l res
  = (List.rev (List.filter (λ s, negb (String.eqb s "")) l) ++ res)%list.
Proof.
  revert res. induction l as [|s l IH]; intros res; [done|].
  intros [Hs Hl]%Forall_cons. cbn [normalize_segments List.filter].
  destruct Hs as [->|Hs]; [by apply IH|].
  apply plain_segment_inv in Hs as (H1 & _ & H2 & H3).
  rewrite H1, H2, H3. cbn [orb negb List.rev].
  rewrite IH by done. by rewrite <- app_assoc.
Qed.

Lemma filter_plain l :
  Forall (λ s, plain_segment s = true) l →
  List.filter (λ s, negb (String.eqb s "")) l = l.
Proof.
  induction l as [|s l IH]; [done|]. intros [Hs Hl]%Forall_cons.
  apply plain_segment_inv in Hs as (H1 & _).
  cbn [List.filter]. rewrite H1. cbn [negb]. by rewrite IH.
Qed.

Lemma path_normalize_nonempty p : path_normalize p ≠ "".
Proof.
  unfold path_normalize. destruct (String.eqb p ""); [done|].
  destruct (String.eqb_spec
              (String.concat "/"
                 (List.rev (normalize_segments (negb (String.prefix "/" p))
                              (split_slash p) []))) "") as [E|E].
  - by destruct (String.prefix "/" p), (ends_with_slash p).
  - destruct (String.prefix "/" p); [done|].
    cbn [String.append].
    destruct (String.concat "/" _); done.
Qed.

Lemma path_join_nonempty l : path_join l ≠ "".
Proof.
  unfold path_join. destruct (List.filter _ l); [done|].
  apply path_normalize_nonempty.
Qed.

(* path.join of a normalised absolute directory and names below it. *)
Lemma path_join_under segs names :
  Forall (λ s, plain_segment s = true) segs →
  Forall (λ s, plain_segment s = true) names → names ≠ [] →
  path_join (("/" ++ String.concat "/" segs) :: names)
  = "/" ++ String.concat "/" (segs ++ names).
Proof.
  intros Hsegs Hnames Hne. unfold path_join.
  cbn [List.filter String.append String.eqb negb].
  rewrite (filter_plain names Hnames).
  rewrite concat_cons by done.
  set (dir := String "/" (String.concat "/" segs)).
  assert (Hn : String.concat "/" names ≠ "")
    by by apply concat_plain_nonempty.
  unfold path_normalize.
  assert (Hp : String.eqb (dir ++ "/" ++ String.concat "/" names) "" = false)
    by done.
  rewrite Hp.
  assert (Habs : String.prefix "/" (dir ++ "/" ++ String.concat "/" names) = true).
  { unfold dir. cbn [String.append String.prefix].
    destruct (ascii_dec "/" "/") as [_|Hd]; [|by destruct Hd].
    apply prefix_empty. }
  rewrite Habs. cbn [negb].
  assert (Hend : ends_with_slash (dir ++ "/" ++ String.concat "/" names) = false).
  { rewrite ends_with_slash_app by done.
    change ("/" ++ String.concat "/" names)
      with (String "/" (String.concat "/" names)).
    rewrite ends_with_slash_cons by done.
    by apply ends_with_slash_concat. }
  rewrite Hend.
  assert (Hsplit : ∃ l, split_slash (dir ++ "/" ++ String.concat "/" names) = l
                        ∧ Forall (λ s, s = "" ∨ plain_segment s = true) l
                        ∧ List.filter (λ s, negb (String.eqb s "")) l
                          = (segs ++ names)%list).
  { eexists. split; [done|].
    change (dir ++ "/" ++ String.concat "/" names)
      with (dir ++ String "/" (String.concat "/" names)).
    rewrite split_slash_app_slash, (split_slash_concat names) by done.
    unfold dir. cbn [split_slash Ascii.eqb Bool.eqb].
    destruct segs as [|s segs].
    - cbn. split.
      + constructor; [by left|]. constructor; [by left|].
        eapply Forall_impl; [exact Hnames|]. by right.
      + by apply filter_plain.
    - rewrite split_slash_concat by done. rewrite <- app_comm_cons. split.
      + constructor; [by left|]. apply Forall_app. split.
        all: eapply Forall_impl; [eassumption|]; by right.
      + change (List.filter (λ s0, negb (String.eqb s0 ""))
                  ("" :: ((s :: segs) ++ names)%list))
          with (List.filter (λ s0, negb (String.eqb s0 ""))
                  ((s :: segs) ++ names)%list).
        apply filter_plain. apply Forall_app. done. }
  destruct Hsplit as (l & -> & Hl & Hf).
  rewrite (normalize_segments_plain _ _ _ Hl), Hf, app_nil_r, rev_involutive.
  assert (Hbody : String.concat "/" (segs ++ names) ≠ "").
  { apply concat_plain_nonempty; [by apply Forall_app|].
    by destruct segs, names. }
  destruct (String.eqb_spec (String.concat "/" (segs ++ names)) "");
    [done|].
  generalize (String.concat "/" (segs ++ names)). intros s.
  cbn [String.append]. f_equal. induction s; [done|]. cbn. by f_equal.
Qed.

(* --------------------------------------------------------------------- *)
(* The constructor                                                       *)
(* --------------------------------------------------------------------- *)

Lemma or_string_nonempty a b : b ≠ "" → or_string a b ≠ "".
Proof.
  intros Hb. unfold or_string. destruct a as [s|]; [|done].
  destruct (String.eqb_spec s ""); done.
Qed.

Lemma resolve_config_paths cwd config :
  mongodPath (resolve_config cwd config) ≠ ""
  ∧ dbPath (resolve_config cwd config) ≠ ""
  ∧ logPath (resolve_config cwd config) ≠ "".
Proof.
  cbn. split; [by apply or_string_nonempty|].
  split; apply or_string_nonempty, path_join_nonempty.
Qed.

(** X3: the constructor fills every optional setting.  A path that is
    missing or the empty string gets its default: 'mongod', and what
    path.join makes of the working directory with '.mongodb-data', and
    with 'logs' and 'mongodb.log'.  When the working directory is the
    normalised absolute path of the names segs ('/' when there are
    none), these two are the directory .mongodb-data and the file
    logs/mongodb.log below it, with one separator between the names
    ('/.mongodb-data' in the root directory).  A port that is missing or
    0 becomes 27017, and any other value the caller gave is kept; so
    afterwards no path is empty and the port is not 0.  The controller
    starts stopped, with no process and no startup promise. *)
Theorem constructor_fills_defaults host config :
  let w := constructor host config in
  let cfg := this_config w in
  (mongodPath cfg ≠ "" ∧ dbPath cfg ≠ "" ∧ logPath cfg ≠ "" ∧ port cfg ≠ 0%Z)
  ∧ enabled cfg = in_enabled config
  ∧ (∀ s, in_mongodPath config = Some s → s ≠ "" → mongodPath cfg = s)
  ∧ (∀ s, in_dbPath config = Some s → s ≠ "" → dbPath cfg = s)
  ∧ (∀ s, in_logPath config = Some s → s ≠ "" → logPath cfg = s)
  ∧ (∀ n, in_port config = Some n → n ≠ 0%Z → port cfg = n)
  ∧ (in_mongodPath config = None ∨ in_mongodPath config = Some "" →
     mongodPath cfg = "mongod")
  ∧ (in_dbPath config = None ∨ in_dbPath config = Some "" →
     dbPath cfg = path_join [cwd host; ".mongodb-data"]
     ∧ ∀ segs, Forall (λ s, plain_segment s = true) segs →
               cwd host = "/" ++ String.concat "/" segs →
               dbPath cfg
               = "/" ++ String.concat "/" (segs ++ [".mongodb-data"]))
  ∧ (in_logPath config = None ∨ in_logPath config = Some "" →
     logPath cfg = path_join [cwd host; "logs"; "mongodb.log"]
     ∧ ∀ segs, Forall (λ s, plain_segment s = true) segs →
               cwd host = "/" ++ String.concat "/" segs →
               logPath cfg
               = "/" ++ String.concat "/" (segs ++ ["logs"; "mongodb.log"]))
  ∧ (in_port config = None ∨ in_port config = Some 0%Z → port cfg = 27017%Z)
  ∧ this_process w = None ∧ isProcessRunning w = false
  ∧ this_startupPromise w = None.
Proof.
  cbn zeta.
  change (this_config (constructor host config))
    with (resolve_config (cwd host) config).
  destruct (resolve_config_paths (cwd host) config) as (Hm & Hd & Hl).
  split.
  { split; [done|]. split; [done|]. split; [done|].
    cbn. unfold or_number. destruct (in_port config) as [n|]; [|done].
    destruct (Z.eqb_spec n 0); done. }
  clear Hm Hd Hl. cbn.
  split; [done|].
  assert (Hs : ∀ a b s, a = Some s → s ≠ "" → or_string a b = s).
  { intros a b s -> Hne. unfold or_string.
    by destruct (String.eqb_spec s ""). }
  assert (Hd : ∀ a b, a = None ∨ a = Some "" → or_string a b = b).
  { by intros a b [-> | ->]. }
  split; [apply Hs|]. split; [apply Hs|]. split; [apply Hs|].
  split.
  { intros n -> Hne. unfold or_number. by destruct (Z.eqb_spec n 0). }
  split; [apply Hd|].
  split.
  { intros H. rewrite (Hd _ _ H). split; [done|]. intros segs Hsegs ->.
    apply path_join_under; [done| |done].
    constructor; [by vm_compute|constructor]. }
  split.
  { intros H. rewrite (Hd _ _ H). split; [done|]. intros segs Hsegs ->.
    apply path_join_under; [done| |done].
    constructor; [by vm_compute|].
    constructor; [by vm_compute|constructor]. }
  split; [by intros [-> | ->]|].
  done.
Qed.

Lemma constructor_fills_defaults_witness :
  port (this_config
          (constructor sample_host
             (mkMongoSubprocessConfig true (Some "") None (Some 0%Z) None None)))
  = 27017%Z
  ∧ mongodPath (this_config
          (constructor sample_host
             (mkMongoSubprocessConfig true (Some "") None (Some 0%Z) None None)))
    = "mongod"
  ∧ port (this_config
            (constructor sample_host
               (mkMongoSubprocessConfig true None None (Some 27018%Z) None None)))
    = 27018%Z
  ∧ dbPath (this_config
              (constructor (mkHost "/" [] "" "")
                 (mkMongoSubprocessConfig true None (Some "") None None None)))
    = "/.mongodb-data"
  ∧ logPath (this_config
               (constructor sample_host
                  (mkMongoSubprocessConfig true None None None None None)))
    = "/srv/ps/logs/mongodb.log".
Proof.
  split.
  - apply (constructor_fills_defaults sample_host
             (mkMongoSubprocessConfig true (Some "") None (Some 0%Z) None None)).
    by right.
  - split.
    + apply (constructor_fills_defaults sample_host
               (mkMongoSubprocessConfig true (Some "") None (Some 0%Z) None None)).
      by right.
    + split.
      * by apply (constructor_fills_defaults sample_host
                    (mkMongoSubprocessConfig true None None (Some 27018%Z)
                       None None)).
      * split.
        -- apply (constructor_fills_defaults (mkHost "/" [] "" "")
                    (mkMongoSubprocessConfig true None (Some "") None None None)
                    ) with (segs := []);
             [by right|constructor|reflexivity].
        -- apply (constructor_fills_defaults sample_host
                    (mkMongoSubprocessConfig true None None None None None))
             with (segs := ["srv"; "ps"]);
             [by left| |reflexivity].
           constructor; [vm_compute; reflexivity|].
           constructor; [vm_compute; reflexivity|constructor].
Defined.

(* --------------------------------------------------------------------- *)
(* The exit of a child                                                   *)
(* --------------------------------------------------------------------- *)

(** X4: in every state the controller can reach, the 'exit' event of a
    child leaves the controller without process: this.process is null,
    isProcessRunning() is false, every child has exited, the promise of
    the child's startup attempt has settled (so a start() that was
    waiting is not left pending), and a later stop() has nothing to do. *)
Theorem exit_releases_the_process host config es w pid code w' :
  run (constructor host config) es = Some w →
  step w (ProcessExit pid code) = Some w' →
  this_process w' = None
  ∧ isProcessRunning w' = false
  ∧ (∀ pid' c', children w' !! pid' = Some c' →
       cp_exited c' = true ∧ cl_resolved c' = true
       ∧ ∃ st, st ≠ Pending ∧ promises w' !! cl_promise c' = Some (mkPromise st 1))
  ∧ stop w' = (Undefined, w').
Proof.
  intros Hreach Hstep. pose proof (reachable_Inv _ _ _ _ Hreach) as HI.
  pose proof (step_Inv _ _ _ HI Hstep) as HI'.
  cbn [step] in Hstep.
  destruct (children w !! pid) as [c|] eqn:Hc; [|done].
  destruct (cp_exited c); [done|]. simplify_eq.
  destruct (stop_listeners_reset (cp_once_exit c)
              (on_exit pid code (alter_child child_exit pid w)))
    as [Hp Hr]; [apply on_exit_process|apply on_exit_isRunning|].
  fold (emit_exit pid code c w) in Hp, Hr.
  split; [done|]. split; [done|]. split.
  - intros pid' c' Hc'.
    destruct (no_process_all_done _ pid' c' HI' Hp Hc') as [He' Hr'].
    split; [done|]. split; [done|]. exact (inv_resolved _ HI' pid' c' Hc' Hr').
  - by apply stop_no_process.
Qed.

Lemma exit_releases_the_process_witness :
  ∃ w w',
    run (constructor sample_host sample_config) spawned = Some w
    ∧ step w (ProcessExit 0 (Some 48%Z)) = Some w'
    ∧ this_process w' = None
    ∧ promise_state w' 0
      = Some (Rejected "MongoDB subprocess exited with code 48 before starting").
Proof.
  eexists _, _. split; [vm_compute; reflexivity|].
  split; [vm_compute; reflexivity|].
  split; [|vm_compute; reflexivity].
  refine (proj1 (exit_releases_the_process sample_host sample_config spawned
                   _ 0 (Some 48%Z) _ _ _)); by_evaluation.
  all: by_evaluation.
  all: by_evaluation.
Defined.

(* --------------------------------------------------------------------- *)
(* What the listeners leave alone                                        *)
(* --------------------------------------------------------------------- *)

Lemma quiet_refl w : quiet w w.
Proof. split; [done|]. split; [done|]. split; [done|]. by left. Qed.

Lemma quiet_fields w w' :
  children w' = children w → servers w' = servers w →
  directories w' = directories w →
  this_startupPromise w' = this_startupPromise w → quiet w w'.
Proof.
  intros Hc Hs Hd Hp. split; [by rewrite Hc|]. split; [done|].
  split; [done|]. by left.
Qed.

Lemma quiet_trans w1 w2 w3 : quiet w1 w2 → quiet w2 w3 → quiet w1 w3.
Proof.
  intros (Hc & Hs & Hd & Hp) (Hc' & Hs' & Hd' & Hp'). split; [congruence|].
  split; [congruence|]. split; [congruence|].
  destruct Hp' as [Hp'|Hp']; [|by right].
  destruct Hp as [Hp|Hp]; [left|right]; congruence.
Qed.

Lemma quiet_alter_child f pid w : quiet w (alter_child f pid w).
Proof.
  split; [cbn; by rewrite length_alter|]. split; [done|]. split; [done|].
  by left.
Qed.

Lemma quiet_cleanup pid w : quiet w (cleanup pid w).
Proof. unfold cleanup. repeat case_match; by apply quiet_fields. Qed.

Lemma quiet_stop w : quiet w (snd (stop w)).
Proof.
  destruct (this_process w) as [pid|] eqn:Hp;
    [|rewrite (stop_no_process w Hp); apply quiet_refl].
  destruct (this_isRunning w) eqn:Hr;
    [|rewrite (stop_not_running w Hr); apply quiet_refl].
  rewrite (stop_running w pid Hp Hr).
  split; [cbn; by rewrite !length_alter|]. split; [done|]. split; [done|].
  by left.
Qed.

Lemma quiet_doResolve pid w : quiet w (doResolve pid w).
Proof.
  unfold doResolve. repeat case_match; try apply quiet_refl.
  apply (quiet_trans _ (alter_child child_set_resolved pid w));
    [apply quiet_alter_child|].
  apply (quiet_trans _ (cleanup pid (alter_child child_set_resolved pid w)));
    [apply quiet_cleanup|]. by apply quiet_fields.
Qed.

Lemma quiet_doReject pid m w : quiet w (doReject pid m w).
Proof.
  unfold doReject. repeat case_match; try apply quiet_refl.
  apply (quiet_trans _ (alter_child child_set_resolved pid w));
    [apply quiet_alter_child|].
  apply (quiet_trans _ (cleanup pid (alter_child child_set_resolved pid w)));
    [apply quiet_cleanup|].
  apply (quiet_trans _ (snd (stop (cleanup pid (alter_child child_set_resolved pid w)))));
    [apply quiet_stop|]. by apply quiet_fields.
Qed.

Lemma quiet_on_exit pid code w : quiet w (on_exit pid code w).
Proof.
  unfold on_exit. repeat case_match; try by apply quiet_fields.
  apply (quiet_trans _ (set_process None (set_isRunning false w)));
    [by apply quiet_fields|].
  apply quiet_doReject.
Qed.

Lemma quiet_stop_listeners ls : ∀ w,
  quiet w (foldl (λ acc l, stop_on_exit l acc) w ls).
Proof.
  induction ls as [|l ls IH]; intros w; [apply quiet_refl|]. cbn [foldl].
  apply (quiet_trans _ (stop_on_exit l w)); [|apply IH].
  split; [done|]. split; [done|]. split; [done|]. by right.
Qed.

Lemma quiet_emit_exit pid code c w : quiet w (emit_exit pid code c w).
Proof.
  unfold emit_exit.
  apply (quiet_trans _ (alter_child child_exit pid w)); [apply quiet_alter_child|].
  apply (quiet_trans _ (on_exit pid code (alter_child child_exit pid w)));
    [apply quiet_on_exit|apply quiet_stop_listeners].
Qed.

Lemma quiet_stop_timeout sp w : quiet w (stop_timeout sp w).
Proof.
  unfold stop_timeout. case_match; [|by apply quiet_fields].
  split; [cbn; by rewrite length_alter|]. split; [done|]. split; [done|].
  by left.
Qed.

Lemma quiet_run_timer cb w : quiet w (run_timer cb w).
Proof. destruct cb; [apply quiet_doReject|apply quiet_stop_timeout]. Qed.

Lemma step_quiet w e w' :
  step w e = Some w' → launching e = false → quiet w w'.
Proof.
  intros Hstep He. destruct e; try done; cbn [step] in Hstep.
  - simplify_eq. apply quiet_stop.
  - case_match; [|done]. simplify_eq. unfold on_stdout_data.
    case_match; [apply quiet_doResolve|apply quiet_refl].
  - case_match; [|done]. simplify_eq. unfold on_stderr_data.
    case_match; [apply quiet_doResolve|apply quiet_refl].
  - case_match; [|done]. simplify_eq. apply quiet_doReject.
  - repeat case_match; try done. simplify_eq. apply quiet_emit_exit.
  - repeat case_match; try done. simplify_eq.
    apply (quiet_trans _ (clearTimeout t w));
      [by apply quiet_fields|apply quiet_run_timer].
Qed.

(* start() spawns nothing and makes no directory; it makes a probe on the
   configured port exactly when this.startupPromise is empty. *)
Lemma start_launch w :
  Inv w →
  snd (start w) = w
  ∨ ∃ p, this_startupPromise w = None
         ∧ this_startupPromise (snd (start w)) = Some p
         ∧ children (snd (start w)) = children w
         ∧ directories (snd (start w)) = directories w
         ∧ ∃ st, st ≠ Closed
                 ∧ (st ≠ Failed → valid_port (port (this_config w)) = true)
                 ∧ servers (snd (start w))
                   = (servers w
                      ++ [mkServer "127.0.0.1" (port (this_config w)) st p])%list.
Proof.
  intros HI. unfold start.
  destruct (enabled (this_config w)); cbn [negb]; [|by left].
  destruct (this_startupPromise w) as [p|] eqn:Hsp; [by left|].
  destruct (inv_stopped w HI Hsp) as [_ Hrun].
  unfold _start, Promise_new, checkPortAvailable.
  cbn [this_isRunning set_promises this_config]. rewrite Hrun.
  right. exists (length (promises w)).
  destruct (valid_port (port (this_config w)));
    (split; [done|]); (split; [done|]); (split; [done|]); (split; [done|]).
  - by exists Binding.
  - by exists Failed.
Qed.

(* --------------------------------------------------------------------- *)
(* Paths that exist                                                      *)
(* --------------------------------------------------------------------- *)

Lemma is_prefix_of_refl l : is_prefix_of l l = true.
Proof. induction l as [|a l IH]; [done|]. cbn. by rewrite String.eqb_refl. Qed.

Lemma is_ancestor_or_self_refl w p : is_ancestor_or_self w p p = true.
Proof. apply is_prefix_of_refl. Qed.

Lemma is_ancestor_or_self_ext w w' q p :
  runtime w' = runtime w →
  is_ancestor_or_self w' q p = is_ancestor_or_self w q p.
Proof. intros Hr. unfold is_ancestor_or_self. by rewrite Hr. Qed.

Lemma existsSync_iff p w :
  existsSync p w = true
  ↔ p ≠ "" ∧ ∃ d, d ∈ cwd (runtime w) :: directories w
                  ∧ is_ancestor_or_self w p d = true.
Proof.
  unfold existsSync. rewrite andb_true_iff, negb_true_iff, existsb_exists.
  split.
  - intros [Hp (d & Hin & Hd)]. split.
    + intros ->. done.
    + exists d. split; [by apply list_elem_of_In|done].
  - intros [Hp (d & Hin & Hd)]. split.
    + by destruct (String.eqb_spec p "").
    + exists d. split; [by apply list_elem_of_In|done].
Qed.

Lemma existsSync_ext p w w' :
  runtime w' = runtime w → directories w' = directories w →
  existsSync p w' = existsSync p w.
Proof.
  intros Hr Hd. apply eq_true_iff_eq. rewrite !existsSync_iff, Hr, Hd.
  by setoid_rewrite (is_ancestor_or_self_ext w w' p _ Hr).
Qed.

(* What exists keeps existing when directories are made. *)
Lemma existsSync_more p more w :
  existsSync p w = true →
  existsSync p (set_directories (more ++ directories w) w) = true.
Proof.
  rewrite !existsSync_iff. intros [Hp (d & Hin & Hd)]. split; [done|].
  exists d. split; [|exact Hd].
  cbn [runtime directories set_directories].
  apply elem_of_cons in Hin as [->|Hin]; [by left|].
  right. apply elem_of_app. by right.
Qed.

Lemma existsSync_mkdirSync p d w :
  existsSync p w = true → existsSync p (mkdirSync d w) = true.
Proof. apply (existsSync_more p [d] w). Qed.

Lemma existsSync_made d w : d ≠ "" → existsSync d (mkdirSync d w) = true.
Proof.
  intros Hd. apply existsSync_iff. split; [done|]. exists d. split.
  - right. by left.
  - apply is_ancestor_or_self_refl.
Qed.

Lemma ensured_frame d w :
  this_config (ensured d w) = this_config w
  ∧ runtime (ensured d w) = runtime w
  ∧ servers (ensured d w) = servers w
  ∧ children (ensured d w) = children w
  ∧ ∃ more, directories (ensured d w) = (more ++ directories w)%list.
Proof.
  unfold ensured. destruct (existsSync d w).
  - repeat (split; [done|]). by exists [].
  - repeat (split; [done|]). by exists [d].
Qed.

Lemma existsSync_ensured d w : d ≠ "" → existsSync d (ensured d w) = true.
Proof.
  intros Hd. unfold ensured. destruct (existsSync d w) eqn:E; [done|].
  by apply existsSync_made.
Qed.

Lemma existsSync_ensured_kept p d w :
  existsSync p w = true → existsSync p (ensured d w) = true.
Proof.
  intros Hp. unfold ensured. destruct (existsSync d w); [done|].
  by apply existsSync_mkdirSync.
Qed.

Lemma dirname_end_pos rev m e : dirname_end rev m = Some e → e ≠ 0.
Proof.
  revert m. induction rev as [|c rev IH]; intros m; [done|].
  cbn [dirname_end]. destruct (Ascii.eqb c "/").
  - destruct m; [apply IH|]. intros H. by simplify_eq.
  - apply IH.
Qed.

Lemma path_dirname_nonempty p : path_dirname p ≠ "".
Proof.
  unfold path_dirname. destruct p as [|c0 rest]; [done|].
  destruct (dirname_end _ _) as [e|] eqn:E.
  - destruct (_ && _); [done|]. apply dirname_end_pos in E.
    destruct e; done.
  - by destruct (Ascii.eqb c0 "/").
Qed.

(* --------------------------------------------------------------------- *)
(* What _start does after the probe has closed                           *)
(* --------------------------------------------------------------------- *)

Lemma start_resume_shape p w :
  children (_start_resume p w)
  = (children w
     ++ [mkChildProcess (mongodPath (this_config w)) (spawn_args (this_config w))
           [] false false (Some (length (timers w))) p []])%list
  ∧ timers (_start_resume p w)
    = (timers w ++ [mkTimer 30000 (StartupTimeout (length (children w))) true])%list
  ∧ servers (_start_resume p w) = servers w
  ∧ promises (_start_resume p w) = promises w
  ∧ this_process (_start_resume p w) = Some (length (children w))
  ∧ this_isRunning (_start_resume p w) = this_isRunning w
  ∧ this_startupPromise (_start_resume p w) = this_startupPromise w
  ∧ this_config (_start_resume p w) = this_config w.
Proof.
  unfold _start_resume, spawn, setTimeout.
  destruct (existsSync (dbPath (this_config w)) w);
    (destruct (existsSync (path_dirname (logPath (this_config w))) _));
    cbn; by rewrite alter_last.
Qed.

Lemma start_resume_fs p w :
  directories (_start_resume p w)
  = directories (ensured (path_dirname (logPath (this_config w)))
                   (ensured (dbPath (this_config w)) w))
  ∧ runtime (_start_resume p w) = runtime w.
Proof.
  unfold _start_resume, ensured, spawn, setTimeout.
  destruct (existsSync (dbPath (this_config w)) w);
    (destruct (existsSync (path_dirname (logPath (this_config w))) _));
    done.
Qed.

Lemma start_resume_exists p w :
  dbPath (this_config w) ≠ "" →
  existsSync (dbPath (this_config w)) (_start_resume p w) = true
  ∧ existsSync (path_dirname (logPath (this_config w))) (_start_resume p w)
    = true.
Proof.
  intros Hdb. destruct (start_resume_fs p w) as [Hd Hr].
  set (w1 := ensured (dbPath (this_config w)) w) in *.
  set (w2 := ensured (path_dirname (logPath (this_config w))) w1) in *.
  assert (Hr2 : runtime (_start_resume p w) = runtime w2).
  { rewrite Hr. unfold w2, w1.
    by rewrite !(proj1 (proj2 (ensured_frame _ _))). }
  rewrite !(existsSync_ext _ w2 (_start_resume p w) Hr2 Hd). split.
  - apply existsSync_ensured_kept. by apply existsSync_ensured.
  - apply existsSync_ensured, path_dirname_nonempty.
Qed.

(* --------------------------------------------------------------------- *)
(* Launched holds in every state the controller can reach                *)
(* --------------------------------------------------------------------- *)

Lemma Launched_constructor host config : Launched (constructor host config).
Proof. split; try done. apply resolve_config_paths. Qed.

Lemma Launched_quiet w w' :
  Launched w → evolves w w' → quiet w w' → this_config w' = this_config w →
  runtime w' = runtime w →
  Launched w'.
Proof.
  intros HL He (Hlen & Hs & Hd & Hsp) Hcfg Hrt.
  assert (Hold : ∀ pid c', children w' !! pid = Some c' →
            ∃ c, children w !! pid = Some c ∧ cl_promise c' = cl_promise c
                 ∧ cp_file c' = cp_file c ∧ cp_args c' = cp_args c).
  { intros pid c' Hc'.
    assert (pid < length (children w)) as Hlt.
    { rewrite <- Hlen. by eapply lookup_lt_Some. }
    apply lookup_lt_is_Some in Hlt as [c Hc]. exists c. split; [done|].
    destruct (ev_children _ _ He pid c Hc) as (c'' & Hc'' & ?).
    by simplify_eq. }
  split.
  - intros pid c' Hc'. destruct (Hold pid c' Hc') as (c & Hc & _ & Hf & Ha).
    rewrite Hf, Ha, Hcfg. by apply (ln_child w HL pid).
  - intros pid c' Hc'. destruct (Hold pid c' Hc') as (c & Hc & Hp & _).
    rewrite Hs, Hp. by apply (ln_probe w HL pid).
  - intros sid s Hsid. rewrite Hs in Hsid. rewrite Hcfg.
    by apply (ln_server w HL sid).
  - intros Hne. rewrite !(existsSync_ext _ w w' Hrt Hd), Hcfg.
    apply (ln_dirs w HL).
    intros Hnil. rewrite Hnil in Hlen. by destruct (children w').
  - rewrite Hcfg. apply (ln_paths w HL).
  - intros p Hp. rewrite Hs. destruct Hsp as [Hsp|Hsp]; [|congruence].
    apply (ln_startup w HL). congruence.
Qed.

Lemma Launched_set_state st sid w :
  Launched w →
  (∀ s, servers w !! sid = Some s → sv_state s ≠ Closed) →
  Launched (set_servers (alter (server_set_state st) sid (servers w)) w).
Proof.
  intros HL Hopen.
  assert (Hkeep : ∀ j s, servers w !! j = Some s →
            ∃ s', alter (server_set_state st) sid (servers w) !! j = Some s'
                  ∧ sv_awaiter s' = sv_awaiter s
                  ∧ (sv_state s = Closed → sv_state s' = Closed)).
  { intros j s Hs. destruct (decide (j = sid)) as [->|Hne].
    - exists (server_set_state st s). rewrite list_lookup_alter_eq, Hs.
      split; [done|]. split; [done|]. intros Hc. by destruct (Hopen s Hs).
    - exists s. by rewrite list_lookup_alter_ne. }
  split.
  - exact (ln_child w HL).
  - intros pid c Hc. destruct (ln_probe w HL pid c Hc) as (j & s & Hs & Ha & Hst).
    destruct (Hkeep j s Hs) as (s' & Hs' & Ha' & Hst').
    exists j, s'. split; [done|]. split; [congruence|by apply Hst'].
  - intros j s' Hs'. apply lookup_alter_Some in Hs' as (s & Hs & [[_ ->]|[_ ->]]);
      cbn; by apply (ln_server w HL j).
  - exact (ln_dirs w HL).
  - exact (ln_paths w HL).
  - intros p Hp. destruct (ln_startup w HL p Hp) as (j & s & Hs & Ha).
    destruct (Hkeep j s Hs) as (s' & Hs' & Ha' & _).
    exists j, s'. split; [done|congruence].
Qed.

Lemma Launched_promises ps w : Launched w → Launched (set_promises ps w).
Proof.
  intros HL. split.
  - exact (ln_child w HL).
  - exact (ln_probe w HL).
  - exact (ln_server w HL).
  - exact (ln_dirs w HL).
  - exact (ln_paths w HL).
  - exact (ln_startup w HL).
Qed.

Lemma Launched_more more w :
  Launched w → Launched (set_directories (more ++ directories w) w).
Proof.
  intros HL. split.
  - exact (ln_child w HL).
  - exact (ln_probe w HL).
  - exact (ln_server w HL).
  - intros Hne. destruct (ln_dirs w HL Hne) as [Hdb Hlog].
    split; by apply existsSync_more.
  - exact (ln_paths w HL).
  - exact (ln_startup w HL).
Qed.

Lemma Launched_start_resume sid s w :
  Launched w → servers w !! sid = Some s → sv_state s = Closed →
  Launched (_start_resume (sv_awaiter s) w).
Proof.
  intros HL Hs Hst.
  destruct (start_resume_shape (sv_awaiter s) w)
    as (Hch & _ & Hsv & _ & _ & _ & Hsp & Hcfg).
  pose proof (start_resume_exists (sv_awaiter s) w (ln_paths w HL)) as Hex.
  split; rewrite ?Hch, ?Hsv, ?Hsp, ?Hcfg.
  - intros pid c Hc. apply lookup_snoc_inv in Hc as [Hc|[_ ->]]; [|done].
    by apply (ln_child w HL pid).
  - intros pid c Hc. apply lookup_snoc_inv in Hc as [Hc|[_ ->]].
    + by apply (ln_probe w HL pid).
    + by exists sid, s.
  - apply (ln_server w HL).
  - done.
  - apply (ln_paths w HL).
  - apply (ln_startup w HL).
Qed.

Lemma step_Launched w e w' :
  Inv w → Launched w → step w e = Some w' → Launched w'.
Proof.
  intros HI HL Hstep.
  pose proof (step_runtime _ _ _ Hstep) as Hrt.
  destruct (launching e) eqn:He.
  2:{ apply (Launched_quiet w); [done|by eapply step_evolves
                                |by eapply step_quiet|by eapply step_config
                                |done]. }
  destruct e; try done; cbn [step] in Hstep.
  - simplify_eq.
    destruct (start_launch w HI)
      as [->|(p & Hnone & Hsp & Hc & Hd & st & Hst & _ & Hs)]; [done|].
    pose proof (start_config w) as Hcfg.
    split; rewrite ?Hc, ?Hs, ?Hcfg.
    + apply (ln_child w HL).
    + intros pid c Hpc. destruct (ln_probe w HL pid c Hpc) as (j & s & Hj & ?).
      exists j, s. split; [|done]. by apply lookup_app_l_Some.
    + intros j s Hj. apply lookup_snoc_inv in Hj as [Hj|[_ ->]]; [|done].
      by apply (ln_server w HL j).
    + rewrite !(existsSync_ext _ w (snd (start w)) Hrt Hd).
      apply (ln_dirs w HL).
    + apply (ln_paths w HL).
    + intros p' Hp'.
      exists (length (servers w)),
        (mkServer "127.0.0.1" (port (this_config w)) st p).
      rewrite lookup_new. split; [done|]. cbn. congruence.
  - destruct (servers w !! sid) as [s|] eqn:Hs; [|done].
    destruct (sv_state s) eqn:Hst; try done. simplify_eq.
    apply Launched_set_state; [done|]. intros s' Hs'. congruence.
  - destruct (servers w !! sid) as [s|] eqn:Hs; [|done].
    destruct (sv_state s) eqn:Hst; try done. simplify_eq.
    apply (Launched_start_resume sid (server_set_state Closed s)
             (set_servers (alter (server_set_state Closed) sid (servers w)) w)).
    + apply Launched_set_state; [done|]. intros s' Hs'. congruence.
    + cbn. by rewrite list_lookup_alter_eq, Hs.
    + done.
  - destruct (servers w !! sid) as [s|] eqn:Hs; [|done].
    destruct (sv_state s) eqn:Hst; try done. simplify_eq.
    apply Launched_promises.
    apply Launched_set_state; [done|]. intros s' Hs'. congruence.
  - destruct (servers w !! sid) as [s|] eqn:Hs; [|done].
    destruct (sv_state s) eqn:Hst; try done.
    apply start_throws_inv in Hstep as [more ->].
    apply Launched_promises.
    apply (Launched_more more
             (set_servers (alter (server_set_state Closed) sid (servers w)) w)).
    apply Launched_set_state; [done|]. intros s' Hs'. congruence.
Qed.

Lemma run_Launched es : ∀ w w',
  Inv w → Launched w → run w es = Some w' → Launched w'.
Proof.
  induction es as [|e es IH]; intros w w' HI HL Hrun; cbn [run] in Hrun.
  - by simplify_eq.
  - destruct (step w e) as [w1|] eqn:Hstep; [|done].
    apply (IH w1); [by eapply step_Inv|by eapply step_Launched|done].
Qed.

Lemma reachable_Launched host config es w :
  run (constructor host config) es = Some w → Launched w.
Proof.
  apply run_Launched; [apply Inv_constructor|apply Launched_constructor].
Qed.

(** X5: every child the controller has spawned, in every state it can
    reach, was spawned as the configured mongodPath with exactly the
    arguments --dbpath, --port, --logpath of the resolved configuration
    and --bind_ip 127.0.0.1, so that the port it was told to listen on
    is the port of getConnectionUri(); and the probe of its own startup
    attempt, a server bound to 127.0.0.1 on that port, has been closed. *)
Theorem child_is_spawned_from_config host config es w pid c :
  run (constructor host config) es = Some w →
  children w !! pid = Some c →
  let cfg := resolve_config (cwd host) config in
  cp_file c = mongodPath cfg
  ∧ cp_args c = [ "--dbpath"; dbPath cfg;
                  "--port"; String_ (port cfg);
                  "--logpath"; logPath cfg;
                  "--bind_ip"; "127.0.0.1" ]
  ∧ (∃ port_arg, cp_args c !! 3 = Some port_arg
                 ∧ getConnectionUri w = "mongodb://127.0.0.1:" ++ port_arg)
  ∧ ∃ sid s, servers w !! sid = Some s
             ∧ sv_awaiter s = cl_promise c
             ∧ sv_state s = Closed
             ∧ sv_host s = "127.0.0.1"
             ∧ sv_port s = port cfg.
Proof.
  intros Hreach Hc cfg.
  pose proof (reachable_Launched _ _ _ _ Hreach) as HL.
  assert (Hcfg : this_config w = cfg) by apply (run_config _ _ _ Hreach).
  destruct (ln_child w HL pid c Hc) as [Hf Ha]. rewrite Hcfg in Hf, Ha.
  split; [done|]. split; [done|]. split.
  - exists (String_ (port cfg)). rewrite Ha. split; [done|].
    unfold getConnectionUri. by rewrite Hcfg.
  - destruct (ln_probe w HL pid c Hc) as (sid & s & Hs & Haw & Hst).
    destruct (ln_server w HL sid s Hs) as [Hh Hp]. rewrite Hcfg in Hp.
    by exists sid, s.
Qed.

Lemma child_is_spawned_from_config_witness :
  ∃ w c,
    run (constructor sample_host sample_config) started = Some w
    ∧ children w !! 0 = Some c
    ∧ cp_file c = "mongod"
    ∧ cp_args c = [ "--dbpath"; "/srv/ps/.mongodb-data";
                    "--port"; "27017";
                    "--logpath"; "/srv/ps/logs/mongodb.log";
                    "--bind_ip"; "127.0.0.1" ].
Proof.
  eexists _, _. split; [vm_compute; reflexivity|].
  split; [vm_compute; reflexivity|].
  refine ((λ H, conj (proj1 H) (proj1 (proj2 H)))
            (child_is_spawned_from_config sample_host sample_config started
               _ 0 _ _ _)); by_evaluation.
  all: by_evaluation.
  all: by_evaluation.
Defined.

(* --------------------------------------------------------------------- *)
(* Directories                                                           *)
(* --------------------------------------------------------------------- *)













(* A log file kept above the data directory: making the data directory
   makes the directory of the log file with it, and mkdirSync is called
   once. *)
Example directory_of_the_log_comes_with_dbPath :
  directories
    <$> run (constructor (mkHost "/srv/ps" ["/var"] "" "")
               (mkMongoSubprocessConfig true None (Some "/var/mongo/data/db")
                  None (Some "/var/mongo/mongod.log") None))
          spawned
  = Some ["/var/mongo/data/db"; "/var"].
Proof. vm_compute. reflexivity. Qed.

(* mkdirSync throws on the directory of the log file: the data directory
   stays, no process is spawned and start() is rejected with the error. *)
Example mkdirSync_throws_rejects :
  (λ w, (directories w, children w, promise_state w 0))
    <$> run (constructor sample_host sample_config)
          [CallStart; ServerListening 0;
           ResumeThrows 0 (AtMkdirLog None)
             "EACCES: permission denied, mkdir '/srv/ps/logs'"]
  = Some (["/srv/ps/.mongodb-data"], [],
          Some (Rejected "EACCES: permission denied, mkdir '/srv/ps/logs'")).
Proof. vm_compute. reflexivity. Qed.

(** X7: in every state the controller can reach, at most one child is
    alive, and it is the one held in this.process; while a port probe is
    under way no child is alive and no other probe is under way.  So the
    controller never has two mongod processes at a time and never probes
    the port while its own mongod holds it. *)
Theorem one_child_at_a_time host config es w :
  run (constructor host config) es = Some w →
  (∀ pid c, children w !! pid = Some c →
     cp_exited c = false → this_process w = Some pid)
  ∧ (∀ pid, this_process w = Some pid →
       ∃ c, children w !! pid = Some c ∧ cp_exited c = false)
  ∧ (∀ pid pid' c c',
       children w !! pid = Some c → children w !! pid' = Some c' →
       cp_exited c = false → cp_exited c' = false → pid = pid')
  ∧ (∀ sid s, servers w !! sid = Some s → active s →
       (∀ pid c, children w !! pid = Some c → cp_exited c = true)
       ∧ ∀ sid' s', servers w !! sid' = Some s' → active s' → sid' = sid).
Proof.
  intros Hreach. pose proof (reachable_Inv _ _ _ _ Hreach) as HI.
  split; [intros pid c Hc He; by apply (inv_alive w HI pid c)|].
  split; [apply (inv_process w HI)|]. split.
  - intros pid pid' c c' Hc Hc' He He'.
    destruct (inv_alive w HI pid c Hc He) as [Hp _].
    destruct (inv_alive w HI pid' c' Hc' He') as [Hp' _]. congruence.
  - intros sid s Hs Ha.
    destruct (inv_active w HI sid s Hs Ha) as (_ & Hp & _ & _ & Hone).
    split; [|done]. intros pid c Hc.
    by apply (no_process_all_done w pid c HI Hp Hc).
Qed.

Lemma one_child_at_a_time_witness :
  ∃ w,
    run (constructor sample_host sample_config) started = Some w
    ∧ this_process w = Some 0.
Proof.
  eexists. split; [vm_compute; reflexivity|].
  refine (proj1 (one_child_at_a_time sample_host sample_config started _ _)
            0 _ _ _); by_evaluation.
  all: by_evaluation.
  all: by_evaluation.
Defined.

(* --------------------------------------------------------------------- *)
(* isRunning                                                             *)
(* --------------------------------------------------------------------- *)

Lemma start_isRunning w : this_isRunning (snd (start w)) = this_isRunning w.
Proof.
  unfold start. destruct (enabled (this_config w)); [|done]. cbn [negb].
  destruct (this_startupPromise w); [done|].
  unfold _start, Promise_new, checkPortAvailable.
  cbn [this_isRunning set_promises this_config].
  destruct (this_isRunning w) eqn:Hr; [cbn; by rewrite Hr|].
  by destruct (valid_port (port (this_config w))).
Qed.

Lemma doReject_isRunning pid m w :
  this_isRunning (doReject pid m w) = this_isRunning w.
Proof.
  unfold doReject. repeat case_match; try done.
  cbn [call_reject set_promises this_isRunning].
  by rewrite stop_isRunning, cleanup_isRunning.
Qed.

Lemma stop_timeout_isRunning sp w :
  this_isRunning (stop_timeout sp w) = this_isRunning w.
Proof. unfold stop_timeout. by case_match. Qed.

Lemma emit_exit_isRunning pid code c w :
  this_isRunning (emit_exit pid code c w) = false.
Proof.
  unfold emit_exit.
  by apply stop_listeners_reset; [apply on_exit_process|apply on_exit_isRunning].
Qed.

(* isRunning is set by the first readiness marker of a child that has not
   settled, and by nothing else. *)
Lemma step_isRunning_rise w e w' :
  Inv w → step w e = Some w' →
  this_isRunning w = false → this_isRunning w' = true →
  ∃ pid c, marker_from pid e = true ∧ children w !! pid = Some c
           ∧ cl_resolved c = false ∧ w' = doResolve pid w.
Proof.
  intros HI Hstep Hoff Hon.
  assert (Hdata : ∀ pid data,
            match children w !! pid with
            | Some _ => Some (if has_marker data then doResolve pid w else w)
            | None => None
            end = Some w' →
            ∃ c, (Nat.eqb pid pid && has_marker data = true)
                 ∧ children w !! pid = Some c
                 ∧ cl_resolved c = false ∧ w' = doResolve pid w).
  { intros pid data H. destruct (children w !! pid) as [c|] eqn:Hc; [|done].
    exists c. rewrite Nat.eqb_refl.
    destruct (has_marker data); simplify_eq; [|congruence].
    destruct (cl_resolved c) eqn:Hr; [|done].
    rewrite (doResolve_settled pid w c Hc Hr) in Hon. congruence. }
  destruct e; cbn [step] in Hstep.
  - simplify_eq. rewrite start_isRunning in Hon. congruence.
  - simplify_eq. rewrite stop_isRunning in Hon. congruence.
  - repeat case_match; try done. simplify_eq. cbn in Hon. congruence.
  - repeat case_match; try done. simplify_eq.
    destruct (start_resume_shape (sv_awaiter s)
                (set_servers (alter (server_set_state Closed) sid (servers w)) w))
      as (_ & _ & _ & _ & _ & Hr & _).
    rewrite Hr in Hon. cbn in Hon. congruence.
  - repeat case_match; try done. simplify_eq. cbn in Hon. congruence.
  - destruct (Hdata pid data Hstep) as (c & ?). by exists pid, c.
  - destruct (Hdata pid data Hstep) as (c & ?). by exists pid, c.
  - case_match; [|done]. simplify_eq. unfold on_error in Hon.
    rewrite doReject_isRunning in Hon. congruence.
  - repeat case_match; try done. simplify_eq.
    rewrite emit_exit_isRunning in Hon. congruence.
  - repeat case_match; try done. simplify_eq. unfold run_timer in Hon.
    destruct (t_callback _).
    + unfold on_startup_timeout in Hon. rewrite doReject_isRunning in Hon.
      cbn in Hon. congruence.
    + rewrite stop_timeout_isRunning in Hon. cbn in Hon. congruence.
  - repeat case_match; try done.
    apply start_throws_inv in Hstep as [more ->]. cbn in Hon. congruence.
Qed.

Lemma step_isRunning_exit w pid code w' :
  step w (ProcessExit pid code) = Some w' → this_isRunning w' = false.
Proof.
  cbn [step]. intros H. repeat case_match; try done. simplify_eq.
  apply emit_exit_isRunning.
Qed.

Lemma ready_constructor host config : ready (constructor host config).
Proof. intros H. by cbn in H. Qed.

Lemma step_ready w e w' : Inv w → ready w → step w e = Some w' → ready w'.
Proof.
  intros HI HR Hstep Hon.
  pose proof (step_evolves _ _ _ Hstep) as He.
  destruct (this_isRunning w) eqn:Hrun.
  - destruct (HR Hrun) as (pid & c & Hp & Hc & Hf).
    assert (Hp' : this_process w' = Some pid).
    { apply (step_keeps_process w pid e w' HI Hp Hstep).
      intros code ->. rewrite (step_isRunning_exit _ _ _ _ Hstep) in Hon.
      congruence. }
    destruct (ev_children _ _ He pid c Hc) as (c' & Hc' & Hpr & _).
    exists pid, c'. split; [done|]. split; [done|]. rewrite Hpr.
    unfold promise_state in Hf |- *.
    destruct (promises w !! cl_promise c) as [pr|] eqn:Hpc; [|done].
    destruct (ev_sticky _ _ He _ pr Hpc) as (pr' & Hpc' & Hst).
    rewrite Hpc'. cbn in Hf |- *.
    assert (Hful : p_state pr = Fulfilled) by congruence.
    rewrite Hst; [by rewrite Hful|]. by rewrite Hful.
  - destruct (step_isRunning_rise w e w' HI Hstep Hrun Hon)
      as (pid & c & _ & Hc & Hr & ->).
    destruct (inv_unresolved w HI pid c Hc Hr) as (Hex & _ & Hun).
    destruct (inv_alive w HI pid c Hc Hex) as [Hp _].
    rewrite (doResolve_first pid w c Hc Hr).
    exists pid, (child_set_resolved c).
    split; [cbn; by rewrite cleanup_process|].
    split.
    { cbn. rewrite cleanup_children. cbn. by rewrite list_lookup_alter_eq, Hc. }
    apply (promise_state_resolve _ _ new_promise); [|done].
    cbn. by rewrite cleanup_promises.
Qed.

Lemma run_ready es : ∀ w w', Inv w → ready w → run w es = Some w' → ready w'.
Proof.
  induction es as [|e es IH]; intros w w' HI HR Hrun; cbn [run] in Hrun.
  - by simplify_eq.
  - destruct (step w e) as [w1|] eqn:Hstep; [|done].
    apply (IH w1); [by eapply step_Inv|by eapply step_ready|done].
Qed.

Lemma reachable_ready host config es w :
  run (constructor host config) es = Some w → ready w.
Proof. apply run_ready; [apply Inv_constructor|apply ready_constructor]. Qed.

Lemma run_snoc w es e w' :
  run w (es ++ [e])%list = Some w' ↔
  ∃ w1, run w es = Some w1 ∧ step w1 e = Some w'.
Proof.
  revert w. induction es as [|e0 es IH]; intros w; cbn [run app].
  - split.
    + intros H. exists w. split; [done|]. by destruct (step w e).
    + intros (w1 & ? & Hs). simplify_eq. by rewrite Hs.
  - destruct (step w e0) as [w1|]; [apply IH|].
    split; [done|]. by intros (w2 & ? & ?).
Qed.

(* --------------------------------------------------------------------- *)
(* Only the four signals settle a startup attempt                        *)
(* --------------------------------------------------------------------- *)

(* An event that is none of the four signals for child pid leaves the
   attempt of pid unsettled and its startup timer as it is. *)
Lemma step_no_signal w pid c e w' :
  Inv w → children w !! pid = Some c → cl_resolved c = false →
  startup_signal w pid e = None → step w e = Some w' →
  (∃ c', children w' !! pid = Some c' ∧ cl_resolved c' = false)
  ∧ ∀ t tm, timers w !! t = Some tm → t_callback tm = StartupTimeout pid →
            timers w' !! t = Some tm.
Proof.
  intros HI Hc Hr Hsig Hstep.
  destruct (inv_unresolved w HI pid c Hc Hr) as (Hex & Hrun & _).
  destruct (inv_alive w HI pid c Hc Hex) as [Hp _].
  assert (Hsame : (∃ c', children w !! pid = Some c' ∧ cl_resolved c' = false)
                  ∧ ∀ t tm, timers w !! t = Some tm →
                            t_callback tm = StartupTimeout pid →
                            timers w !! t = Some tm).
  { split; [by exists c|done]. }
  assert (Hother : ∀ pid' c', children w !! pid' = Some c' → pid' ≠ pid →
            cp_exited c' = true ∧ cl_resolved c' = true).
  { intros pid' c' Hc' Hne. by apply (unresolved_others_done w pid c pid' c'). }
  assert (Hnoprobe : ∀ sid s, servers w !! sid = Some s → ¬ active s).
  { intros sid s. by apply (process_no_probe w pid). }
  assert (Hdata : ∀ pid' data,
            (Nat.eqb pid' pid && has_marker data) = false →
            (if has_marker data then doResolve pid' w else w) = w).
  { intros pid' data Hm. destruct (has_marker data); [|done].
    rewrite andb_true_r in Hm. apply Nat.eqb_neq in Hm.
    destruct (children w !! pid') as [c'|] eqn:Hc'.
    - destruct (Hother pid' c' Hc' Hm) as [_ Hr'].
      by apply (doResolve_settled pid' w c').
    - unfold doResolve. by rewrite Hc'. }
  destruct e; cbn [step] in Hstep; cbn [startup_signal] in Hsig.
  - simplify_eq. rewrite start_timers.
    destruct (start_launch w HI) as [->|(p & _ & _ & Hch & _)]; [done|].
    by rewrite Hch.
  - simplify_eq. by rewrite (stop_not_running w Hrun).
  - destruct (servers w !! sid) as [s|] eqn:Hs; [|done].
    destruct (sv_state s) eqn:Hst; try done.
    destruct (Hnoprobe sid s Hs). by left.
  - destruct (servers w !! sid) as [s|] eqn:Hs; [|done].
    destruct (sv_state s) eqn:Hst; try done.
    destruct (Hnoprobe sid s Hs). by right.
  - destruct (servers w !! sid) as [s|] eqn:Hs; [|done].
    destruct (sv_state s) eqn:Hst; try done.
    destruct (Hnoprobe sid s Hs). by left.
  - case_match; [|done]. unfold on_stdout_data in Hstep.
    rewrite Hdata in Hstep by (by destruct (_ && _)). by simplify_eq.
  - case_match; [|done]. unfold on_stderr_data in Hstep.
    rewrite Hdata in Hstep by (by destruct (_ && _)). by simplify_eq.
  - destruct (children w !! pid0) as [c0|] eqn:Hc0; [|done]. simplify_eq.
    destruct (Nat.eqb pid0 pid) eqn:Heq; [done|]. apply Nat.eqb_neq in Heq.
    destruct (Hother pid0 c0 Hc0 Heq) as [_ Hr0]. unfold on_error.
    by rewrite (doReject_settled pid0 _ w c0 Hc0 Hr0).
  - destruct (children w !! pid0) as [c0|] eqn:Hc0; [|done].
    destruct (Nat.eqb pid0 pid) eqn:Heq; [done|]. apply Nat.eqb_neq in Heq.
    destruct (Hother pid0 c0 Hc0 Heq) as [He0 _]. by rewrite He0 in Hstep.
  - destruct (timers w !! t) as [tm|] eqn:Ht; [|done].
    destruct (t_pending tm); [|done]. simplify_eq. cbn in Hsig.
    assert (Hclear : ∀ t' tm', timers w !! t' = Some tm' →
              t_callback tm' = StartupTimeout pid →
              t_callback tm ≠ StartupTimeout pid →
              timers (clearTimeout t w) !! t' = Some tm').
    { intros t' tm' Ht' Hcb' Hcb. rewrite clearTimeout_other; [done|].
      intros ->. congruence. }
    unfold run_timer. destruct (t_callback tm) as [pid0|sp] eqn:Hcb.
    + destruct (Nat.eqb pid0 pid) eqn:Heq; [done|]. apply Nat.eqb_neq in Heq.
      unfold on_startup_timeout.
      assert (doReject pid0 "MongoDB subprocess startup timeout (30s)"
                (clearTimeout t w) = clearTimeout t w) as ->.
      { destruct (children (clearTimeout t w) !! pid0) as [c0|] eqn:Hc0.
        - destruct (Hother pid0 c0 Hc0 Heq) as [_ Hr0].
          by rewrite (doReject_settled pid0 _ _ c0 Hc0 Hr0).
        - unfold doReject. by rewrite Hc0. }
      split; [by exists c|]. intros t' tm' Ht' Hcb'. apply Hclear; [done|done|].
      congruence.
    + unfold stop_timeout. cbn [this_process clearTimeout set_timers].
      rewrite Hp. split.
      * exists (child_kill SIGKILL c). split; [|done].
        cbn. by rewrite list_lookup_alter_eq, Hc.
      * intros t' tm' Ht' Hcb'. by apply (Hclear t' tm').
  - destruct (servers w !! sid) as [s|] eqn:Hs; [|done].
    destruct (sv_state s) eqn:Hst; try done.
    destruct (Hnoprobe sid s Hs). by right.
Qed.

Lemma signal_Fulfilled_marker w pid e :
  startup_signal w pid e = Some Fulfilled → marker_from pid e = true.
Proof.
  destruct e; cbn; try done.
  - by destruct (_ && _).
  - by destruct (_ && _).
  - by destruct (Nat.eqb _ _).
  - by destruct (Nat.eqb _ _).
  - destruct (timers w !! t) as [tm|]; [|done]. cbn.
    destruct (t_callback tm); [|done]. by destruct (Nat.eqb _ _).
Qed.

(* A child that appears in this turn is the one _start spawns when its
   probe has closed. *)
Lemma step_new_child w e w' pid c' :
  Inv w → step w e = Some w' →
  children w !! pid = None → children w' !! pid = Some c' →
  pid = length (children w)
  ∧ (∃ p, c' = mkChildProcess (mongodPath (this_config w))
                 (spawn_args (this_config w)) [] false false
                 (Some (length (timers w))) p [])
  ∧ timers w'
    = (timers w ++ [mkTimer 30000 (StartupTimeout pid) true])%list.
Proof.
  intros HI Hstep Hnone Hc'.
  assert (Hlen : length (children w') = length (children w) → False).
  { intros Hlen. apply lookup_lt_Some in Hc'. apply lookup_ge_None in Hnone. lia. }
  destruct (launching e) eqn:He.
  2:{ destruct (step_quiet _ _ _ Hstep He) as (Hl & _). by destruct Hlen. }
  destruct e; try done; cbn [step] in Hstep.
  - simplify_eq.
    destruct (start_launch w HI) as [Heq|(p & _ & _ & Hch & _)];
      destruct Hlen; congruence.
  - repeat case_match; simplify_eq; by destruct Hlen.
  - repeat case_match; try done. simplify_eq.
    destruct (start_resume_shape (sv_awaiter s)
                (set_servers (alter (server_set_state Closed) sid (servers w)) w))
      as (Hch & Ht & _).
    cbn [children set_servers timers this_config] in Hch, Ht.
    rewrite Hch in Hc'. apply lookup_snoc_inv in Hc' as [Hc'|[-> ->]];
      [congruence|].
    split; [done|]. split; [by eexists|done].
  - repeat case_match; simplify_eq; by destruct Hlen.
  - repeat case_match; try done.
    apply start_throws_inv in Hstep as [more ->]. by destruct Hlen.
Qed.

Lemma fulfilled_has_marker host config es : ∀ w pid c,
  run (constructor host config) es = Some w →
  children w !! pid = Some c →
  promise_state w (cl_promise c) = Some Fulfilled →
  ∃ e, e ∈ es ∧ marker_from pid e = true.
Proof.
  induction es as [|e es IH] using rev_ind; intros w pid c Hrun Hc Hful.
  { cbn in Hrun. by simplify_eq. }
  apply run_snoc in Hrun as (w1 & Hrun & Hstep).
  pose proof (reachable_Inv _ _ _ _ Hrun) as HI.
  pose proof (step_Inv _ _ _ HI Hstep) as HI'.
  pose proof (step_evolves _ _ _ Hstep) as He.
  assert (Hpending : cl_resolved c = false → False).
  { intros Hr. destruct (inv_unresolved w HI' pid c Hc Hr) as (_ & _ & Hun).
    unfold promise_state in Hful. unfold untouched in Hun.
    by rewrite Hun in Hful. }
  destruct (children w1 !! pid) as [c1|] eqn:Hc1.
  2:{ destruct (step_new_child w1 e w pid c HI Hstep Hc1 Hc) as (_ & (p & ->) & _).
      by destruct Hpending. }
  destruct (ev_children _ _ He pid c1 Hc1) as (c' & Hc' & Hpr & _).
  assert (c' = c) as -> by congruence.
  destruct (cl_resolved c1) eqn:Hr1.
  - destruct (inv_resolved w1 HI pid c1 Hc1 Hr1) as (st & Hst & Hp1).
    destruct (ev_sticky _ _ He _ _ Hp1) as (pr' & Hp' & Hkeep).
    cbn in Hkeep. unfold promise_state in Hful.
    rewrite Hpr, Hp' in Hful. cbn in Hful. rewrite Hkeep in Hful by done.
    destruct (IH w1 pid c1 Hrun Hc1) as (e0 & Hin & Hm).
    { unfold promise_state. rewrite Hp1. cbn. congruence. }
    exists e0. split; [|done]. apply elem_of_app. by left.
  - destruct (startup_signal w1 pid e) as [o|] eqn:Hsig.
    + destruct (first_signal_state w1 pid c1 e o w HI Hc1 Hr1 Hsig Hstep)
        as [Ho _].
      unfold promise_state in Hful. rewrite Hpr, Ho in Hful.
      exists e. split; [apply elem_of_app; right; by apply list_elem_of_singleton|].
      apply (signal_Fulfilled_marker w1). congruence.
    + destruct (step_no_signal w1 pid c1 e w HI Hc1 Hr1 Hsig Hstep)
        as [(c' & Hc'' & Hr') _].
      destruct Hpending. congruence.
Qed.

(** X8: in every state the controller can reach, isProcessRunning() is
    true only if a process is held that has not exited, the startup
    attempt of that process is the one this.startupPromise refers to and
    its promise is fulfilled, and a chunk with the readiness marker from
    that process has been received. *)
Theorem running_means_ready host config es w :
  run (constructor host config) es = Some w →
  isProcessRunning w = true →
  ∃ pid c,
    this_process w = Some pid
    ∧ children w !! pid = Some c
    ∧ cp_exited c = false
    ∧ cl_resolved c = true
    ∧ this_startupPromise w = Some (cl_promise c)
    ∧ promise_state w (cl_promise c) = Some Fulfilled
    ∧ ∃ e, e ∈ es ∧ marker_from pid e = true.
Proof.
  intros Hreach Hrun. pose proof (reachable_Inv _ _ _ _ Hreach) as HI.
  destruct (reachable_ready _ _ _ _ Hreach Hrun) as (pid & c & Hp & Hc & Hful).
  destruct (inv_process w HI pid Hp) as (c0 & Hc0 & Hex).
  assert (c0 = c) as -> by congruence.
  destruct (inv_alive w HI pid c Hc Hex) as [_ Hsp].
  exists pid, c. split; [done|]. split; [done|]. split; [done|].
  split.
  { destruct (cl_resolved c) eqn:Hr; [done|].
    destruct (inv_unresolved w HI pid c Hc Hr) as (_ & Hoff & _).
    unfold isProcessRunning in Hrun. congruence. }
  split; [done|]. split; [done|].
  by apply (fulfilled_has_marker host config es w pid c).
Qed.

Lemma running_means_ready_witness :
  ∃ w,
    run (constructor sample_host sample_config) started = Some w
    ∧ ∃ pid c, this_process w = Some pid ∧ children w !! pid = Some c
               ∧ cp_exited c = false.
Proof.
  eexists. split; [vm_compute; reflexivity|].
  refine ((λ H, match H with
                | ex_intro _ pid (ex_intro _ c (conj H1 (conj H2 (conj H3 _)))) =>
                    ex_intro _ pid (ex_intro _ c (conj H1 (conj H2 H3)))
                end)
            (running_means_ready sample_host sample_config started _ _ _));
    by_evaluation.
  all: by_evaluation.
  all: by_evaluation.
Defined.

(** X9: in every state the controller can reach, the promise of the
    startup attempt of a child is fulfilled only if a chunk with the
    readiness marker ("Waiting for connections" or "waiting for
    connections") from that child, on stdout or stderr, is among the
    events that have happened; nothing else fulfils it. *)
Theorem fulfilled_only_by_marker host config es w pid c :
  run (constructor host config) es = Some w →
  children w !! pid = Some c →
  promise_state w (cl_promise c) = Some Fulfilled →
  ∃ e, e ∈ es ∧ marker_from pid e = true
       ∧ ∃ data, (e = StdoutData pid data ∨ e = StderrData pid data)
                 ∧ has_marker data = true.
Proof.
  intros Hreach Hc Hful.
  destruct (fulfilled_has_marker host config es w pid c Hreach Hc Hful)
    as (e & Hin & Hm).
  exists e. split; [done|]. split; [done|].
  destruct e; cbn in Hm; try done;
    apply andb_true_iff in Hm as [Heq Hm]; apply Nat.eqb_eq in Heq; subst;
    exists data; by auto.
Qed.

Lemma fulfilled_only_by_marker_witness :
  ∃ w e,
    run (constructor sample_host sample_config) started = Some w
    ∧ e ∈ started ∧ marker_from 0 e = true.
Proof.
  eexists. 
  refine ((λ Hrun H, match H with
                     | ex_intro _ e (conj H1 (conj H2 _)) =>
                         ex_intro _ e (conj Hrun (conj H1 H2))
                     end) _
            (fulfilled_only_by_marker sample_host sample_config started _ 0 _
               _ _ _));
    by_evaluation.
  all: by_evaluation.
  all: by_evaluation.
Defined.

(* --------------------------------------------------------------------- *)
(* A settled startup attempt with no process left                        *)
(* --------------------------------------------------------------------- *)

Lemma step_idle w p e w' :
  Inv w → this_startupPromise w = Some p → this_process w = None →
  (∀ sid s, servers w !! sid = Some s → ¬ active s) →
  step w e = Some w' →
  this_startupPromise w' = Some p ∧ this_process w' = None
  ∧ children w' = children w ∧ servers w' = servers w
  ∧ directories w' = directories w.
Proof.
  intros HI Hsp Hproc Hs Hstep.
  assert (Hen : enabled (this_config w) = true).
  { apply (inv_enabled w HI). congruence. }
  assert (Hdone : ∀ pid c, children w !! pid = Some c →
            cp_exited c = true ∧ cl_resolved c = true).
  { intros pid c Hc. by apply (no_process_all_done w pid). }
  destruct e; cbn [step] in Hstep.
  - unfold start in Hstep. rewrite Hen, Hsp in Hstep. by simplify_eq.
  - rewrite (stop_no_process w Hproc) in Hstep. by simplify_eq.
  - destruct (servers w !! sid) as [s|] eqn:Hsid; [|done].
    destruct (sv_state s) eqn:Hst; try done. destruct (Hs sid s Hsid). by left.
  - destruct (servers w !! sid) as [s|] eqn:Hsid; [|done].
    destruct (sv_state s) eqn:Hst; try done. destruct (Hs sid s Hsid). by right.
  - destruct (servers w !! sid) as [s|] eqn:Hsid; [|done].
    destruct (sv_state s) eqn:Hst; try done. destruct (Hs sid s Hsid). by left.
  - destruct (children w !! pid) as [c|] eqn:Hc; [|done].
    destruct (Hdone pid c Hc) as [_ Hr]. unfold on_stdout_data in Hstep.
    rewrite (doResolve_settled pid w c Hc Hr) in Hstep.
    destruct (has_marker data); by simplify_eq.
  - destruct (children w !! pid) as [c|] eqn:Hc; [|done].
    destruct (Hdone pid c Hc) as [_ Hr]. unfold on_stderr_data in Hstep.
    rewrite (doResolve_settled pid w c Hc Hr) in Hstep.
    destruct (has_marker data); by simplify_eq.
  - destruct (children w !! pid) as [c|] eqn:Hc; [|done].
    destruct (Hdone pid c Hc) as [_ Hr]. unfold on_error in Hstep.
    rewrite (doReject_settled pid _ w c Hc Hr) in Hstep. by simplify_eq.
  - destruct (children w !! pid) as [c|] eqn:Hc; [|done].
    destruct (Hdone pid c Hc) as [He _]. by rewrite He in Hstep.
  - destruct (timers w !! t) as [tm|] eqn:Ht; [|done].
    destruct (t_pending tm); [|done]. simplify_eq.
    unfold run_timer. destruct (t_callback tm) as [pid|sp].
    + unfold on_startup_timeout.
      destruct (children (clearTimeout t w) !! pid) as [c|] eqn:Hc.
      * destruct (Hdone pid c Hc) as [_ Hr].
        by rewrite (doReject_settled pid _ _ c Hc Hr).
      * unfold doReject. by rewrite Hc.
    + unfold stop_timeout. cbn [this_process clearTimeout set_timers].
      by rewrite Hproc.
  - destruct (servers w !! sid) as [s|] eqn:Hsid; [|done].
    destruct (sv_state s) eqn:Hst; try done. destruct (Hs sid s Hsid). by right.
Qed.

Lemma run_idle es : ∀ w p w',
  Inv w → this_startupPromise w = Some p → this_process w = None →
  (∀ sid s, servers w !! sid = Some s → ¬ active s) →
  run w es = Some w' →
  this_startupPromise w' = Some p ∧ this_process w' = None
  ∧ children w' = children w ∧ servers w' = servers w
  ∧ directories w' = directories w.
Proof.
  induction es as [|e es IH]; intros w p w' HI Hsp Hproc Hs Hrun;
    cbn [run] in Hrun.
  - by simplify_eq.
  - destruct (step w e) as [w1|] eqn:Hstep; [|done].
    destruct (step_idle w p e w1 HI Hsp Hproc Hs Hstep)
      as (Hsp1 & Hproc1 & Hc1 & Hs1 & Hd1).
    destruct (IH w1 p w' (step_Inv _ _ _ HI Hstep) Hsp1 Hproc1) as (? & ? & ? & ? & ?);
      [by rewrite Hs1|done|].
    repeat split; congruence.
Qed.

(** X10: in every state the controller can reach in which the promise of
    this.startupPromise has settled (fulfilled or rejected) and no
    process is held (the port check failed, the child exited before it
    was ready, or a ready child exited without a stop() in between), the
    controller stays as it is whatever happens afterwards: start()
    returns that same settled promise and begins no new attempt, stop()
    returns at once, isProcessRunning() is false, and no probe is made,
    no process is spawned and no directory is made. *)
Theorem settled_startup_without_process_is_final
    host config es w p st later w' :
  run (constructor host config) es = Some w →
  this_startupPromise w = Some p →
  promise_state w p = Some st → st ≠ Pending →
  this_process w = None →
  run w later = Some w' →
  start w' = (ThePromise p, w')
  ∧ stop w' = (Undefined, w')
  ∧ promise_state w' p = Some st
  ∧ isProcessRunning w' = false
  ∧ this_process w' = None
  ∧ children w' = children w
  ∧ servers w' = servers w
  ∧ directories w' = directories w.
Proof.
  intros Hreach Hsp Hst Hne Hproc Hlater.
  pose proof (reachable_Inv _ _ _ _ Hreach) as HI.
  pose proof (run_Inv _ _ _ HI Hlater) as HI'.
  pose proof (run_ready _ _ _ HI (reachable_ready _ _ _ _ Hreach) Hlater) as HR'.
  unfold promise_state in Hst.
  destruct (promises w !! p) as [pr|] eqn:Hpr; [|done]. cbn in Hst.
  assert (Hstate : p_state pr = st) by congruence.
  assert (Hs : ∀ sid s, servers w !! sid = Some s → ¬ active s).
  { intros sid s Hsid Ha.
    destruct (inv_active w HI sid s Hsid Ha) as (Hsp' & _ & _ & Hu & _).
    assert (sv_awaiter s = p) as Heq by congruence.
    unfold untouched in Hu. rewrite Heq, Hpr in Hu. by simplify_eq. }
  destruct (run_idle later w p w' HI Hsp Hproc Hs Hlater)
    as (Hsp' & Hproc' & Hc' & Hs' & Hd').
  split.
  { unfold start. rewrite Hsp', (inv_enabled w' HI'); [done|congruence]. }
  split; [by apply stop_no_process|].
  split.
  { destruct (ev_sticky _ _ (run_evolves _ _ _ Hlater) p pr Hpr)
      as (pr' & Hpr' & Hkeep).
    unfold promise_state. rewrite Hpr'. cbn.
    rewrite Hkeep; [by rewrite Hstate|]. by rewrite Hstate. }
  split; [|done].
  unfold isProcessRunning. destruct (this_isRunning w') eqn:Hrun; [|done].
  destruct (HR' Hrun) as (pid & c & Hp & _). congruence.
Qed.

Lemma settled_startup_without_process_is_final_witness :
  ∃ w w',
    run (constructor sample_host sample_config)
        (started ++ [ProcessExit 0 (Some 1%Z)]) = Some w
    ∧ run w [CallStart; CallStop; CallStart] = Some w'
    ∧ start w' = (ThePromise 0, w')
    ∧ promise_state w' 0 = Some Fulfilled
    ∧ isProcessRunning w' = false.
Proof.
  eexists _, _. split; [vm_compute; reflexivity|].
  split; [vm_compute; reflexivity|].
  refine ((λ H, conj (proj1 H)
                  (conj (proj1 (proj2 (proj2 H)))
                        (proj1 (proj2 (proj2 (proj2 H))))))
            (settled_startup_without_process_is_final
               sample_host sample_config
               (started ++ [ProcessExit 0 (Some 1%Z)]) _ 0 Fulfilled
               [CallStart; CallStop; CallStart] _ _ _ _ _ _ _));
    by_evaluation.
  all: by_evaluation.
  all: by_evaluation.
  discriminate.
Defined.

(* --------------------------------------------------------------------- *)
(* What one turn does to a child                                         *)
(* --------------------------------------------------------------------- *)

Lemma doResolve_children pid w :
  children (doResolve pid w) = children w
  ∨ ∃ c, children w !! pid = Some c ∧ cl_resolved c = false
         ∧ children (doResolve pid w)
           = alter child_set_resolved pid (children w).
Proof.
  unfold doResolve. destruct (children w !! pid) as [c|] eqn:Hc; [|by left].
  destruct (cl_resolved c) eqn:Hr; [by left|]. right. exists c.
  split; [done|]. split; [done|]. cbn. by rewrite cleanup_children.
Qed.

Lemma doReject_children pid m w :
  this_isRunning w = false →
  children (doReject pid m w) = children w
  ∨ ∃ c, children w !! pid = Some c ∧ cl_resolved c = false
         ∧ children (doReject pid m w)
           = alter child_set_resolved pid (children w).
Proof.
  intros Hoff.
  destruct (children w !! pid) as [c|] eqn:Hc;
    [|left; unfold doReject; by rewrite Hc].
  destruct (cl_resolved c) eqn:Hr;
    [left; by rewrite (doReject_settled pid m w c Hc Hr)|].
  right. exists c. split; [done|]. split; [done|].
  rewrite (doReject_first pid m w c Hc Hr Hoff). cbn.
  by rewrite cleanup_children.
Qed.

(* Between two states of one turn a child is unchanged, or its attempt
   was settled by one of the four signals, or it exited, or stop() sent
   it SIGTERM and added its listener, or a grace timer sent it SIGKILL. *)
Lemma step_child w e w' pid c c' :
  Inv w → step w e = Some w' →
  children w !! pid = Some c → children w' !! pid = Some c' →
  c' = c
  ∨ (c' = child_set_resolved c ∧ cl_resolved c = false
     ∧ startup_signal w pid e ≠ None)
  ∨ ((∃ code, e = ProcessExit pid code) ∧ cp_exited c = false
     ∧ (c' = child_exit c ∨ c' = child_set_resolved (child_exit c)))
  ∨ (e = CallStop ∧ this_process w = Some pid ∧ this_isRunning w = true
     ∧ c' = child_kill SIGTERM
              (child_once_exit (length (timers w), length (promises w)) c))
  ∨ (∃ t tm sp, e = TimerFire t ∧ timers w !! t = Some tm
                ∧ t_pending tm = true ∧ t_callback tm = StopGrace sp
                ∧ this_process w = Some pid ∧ c' = child_kill SIGKILL c).
Proof.
  intros HI Hstep Hc Hc'.
  assert (Hoff : ∀ pid0 c0, children w !! pid0 = Some c0 →
            cl_resolved c0 = false → this_isRunning w = false).
  { intros pid0 c0 Hc0 Hr0. by destruct (inv_unresolved w HI pid0 c0 Hc0 Hr0) as (_ & ? & _). }
  assert (Hset : ∀ pid0 c0 (l : list ChildProcess),
            children w !! pid0 = Some c0 → cl_resolved c0 = false →
            alter child_set_resolved pid0 (children w) !! pid = Some c' →
            startup_signal w pid0 e ≠ None →
            c' = c ∨ (c' = child_set_resolved c ∧ cl_resolved c = false
                      ∧ startup_signal w pid e ≠ None)).
  { intros pid0 c0 _ Hc0 Hr0 Hl Hsig.
    apply lookup_alter_Some in Hl as (y & Hy & [[-> ->]|[_ ->]]).
    - right. by simplify_eq.
    - left. congruence. }
  destruct e; cbn [step] in Hstep.
  - simplify_eq. left.
    destruct (start_launch w HI) as [Heq|(p & _ & _ & Hch & _)]; congruence.
  - simplify_eq.
    destruct (this_process w) as [pid0|] eqn:Hp;
      [|rewrite (stop_no_process w Hp) in Hc'; left; cbn in Hc'; congruence].
    destruct (this_isRunning w) eqn:Hr;
      [|rewrite (stop_not_running w Hr) in Hc'; left; cbn in Hc'; congruence].
    rewrite (stop_running w pid0 Hp Hr) in Hc'. cbn in Hc'.
    apply lookup_alter_Some in Hc' as (y & Hy & [[-> ->]|[Hne ->]]).
    + apply lookup_alter_Some in Hy as (z & Hz & [[_ ->]|[? _]]); [|done].
      do 3 right. left. by simplify_eq.
    + apply lookup_alter_Some in Hy as (z & Hz & [[? _]|[_ ->]]); [done|].
      left. congruence.
  - repeat case_match; try done. simplify_eq. left. cbn in Hc'. congruence.
  - repeat case_match; try done. simplify_eq. left.
    destruct (start_resume_shape (sv_awaiter s)
                (set_servers (alter (server_set_state Closed) sid (servers w)) w))
      as (Hch & _).
    cbn [children set_servers] in Hch. rewrite Hch in Hc'.
    apply lookup_snoc_inv in Hc' as [Hc'|[-> _]]; [congruence|].
    apply lookup_lt_Some in Hc. lia.
  - repeat case_match; try done. simplify_eq. left. cbn in Hc'. congruence.
  - destruct (children w !! pid0) as [c0|] eqn:Hc0; [|done]. simplify_eq.
    unfold on_stdout_data in Hc'.
    destruct (has_marker data) eqn:Hm; [|left; congruence].
    destruct (doResolve_children pid0 w) as [Heq|(c1 & Hc1 & Hr1 & Heq)];
      rewrite Heq in Hc'; [left; congruence|].
    destruct (Hset pid0 c1 [] Hc1 Hr1 Hc') as [?|?]; [|by auto|by auto].
    cbn. by rewrite Nat.eqb_refl, Hm.
  - destruct (children w !! pid0) as [c0|] eqn:Hc0; [|done]. simplify_eq.
    unfold on_stderr_data in Hc'.
    destruct (has_marker data) eqn:Hm; [|left; congruence].
    destruct (doResolve_children pid0 w) as [Heq|(c1 & Hc1 & Hr1 & Heq)];
      rewrite Heq in Hc'; [left; congruence|].
    destruct (Hset pid0 c1 [] Hc1 Hr1 Hc') as [?|?]; [|by auto|by auto].
    cbn. by rewrite Nat.eqb_refl, Hm.
  - destruct (children w !! pid0) as [c0|] eqn:Hc0; [|done]. simplify_eq.
    unfold on_error in Hc'.
    destruct (cl_resolved c0) eqn:Hr0.
    { rewrite (doReject_settled pid0 _ w c0 Hc0 Hr0) in Hc'. left. congruence. }
    destruct (doReject_children pid0
                ("Failed to start MongoDB subprocess: " ++ message) w
                (Hoff pid0 c0 Hc0 Hr0)) as [Heq|(c1 & Hc1 & Hr1 & Heq)];
      rewrite Heq in Hc'; [left; congruence|].
    destruct (Hset pid0 c1 [] Hc1 Hr1 Hc') as [?|?]; [|by auto|by auto].
    cbn. by rewrite Nat.eqb_refl.
  - destruct (children w !! pid0) as [c0|] eqn:Hc0; [|done].
    destruct (cp_exited c0) eqn:He0; [done|]. simplify_eq.
    unfold emit_exit in Hc'. rewrite stop_listeners_children in Hc'.
    unfold on_exit in Hc'.
    set (w2 := set_process None
                 (set_isRunning false (alter_child child_exit pid0 w))) in *.
    assert (Hw2 : children w2 = alter child_exit pid0 (children w)) by done.
    assert (Hexit : ∀ x, alter child_exit pid0 (children w) !! pid = Some x →
              (pid = pid0 ∧ x = child_exit c) ∨ (pid ≠ pid0 ∧ x = c)).
    { intros x Hx. apply lookup_alter_Some in Hx as (y & Hy & [[-> ->]|[? ->]]).
      - left. split; [done|]. congruence.
      - right. split; [done|]. congruence. }
    assert (Hfinal : children w2 !! pid = Some c' ∨
              ∃ x, alter child_exit pid0 (children w) !! pid0 = Some x
                   ∧ children w2 !! pid = Some x
                   ∧ pid = pid0 ∧ c' = child_set_resolved x
              ∨ (∃ c1, children w2 !! pid0 = Some c1 ∧ cl_resolved c1 = false
                       ∧ pid ≠ pid0 ∧ children w2 !! pid = Some c')).
    { destruct (children w2 !! pid0) as [c1|] eqn:Hc1; [|by left].
      destruct (cl_resolved c1) eqn:Hr1; [by left|].
      destruct (doReject_children pid0
                  ("MongoDB subprocess exited with code "
                   ++ String_or_null code ++ " before starting") w2 eq_refl)
        as [Heq|(c2 & Hc2 & Hr2 & Heq)]; rewrite Heq in Hc'; [by left|].
      apply lookup_alter_Some in Hc' as (y & Hy & [[-> ->]|[Hne ->]]).
      - right. exists y. left. rewrite <- Hw2. by simplify_eq.
      - by left. }
    destruct Hfinal as [Hx|(x & [(Hx0 & Hx & -> & ->)|(c1 & _ & _ & _ & Hx)])].
    + rewrite Hw2 in Hx. destruct (Hexit c' Hx) as [[-> ->]|[_ ->]].
      * do 2 right. left. split; [by eexists|]. split; [congruence|by left].
      * by left.
    + rewrite Hw2 in Hx. destruct (Hexit x Hx) as [[_ ->]|[? _]]; [|done].
      do 2 right. left. split; [by eexists|]. split; [congruence|by right].
    + rewrite Hw2 in Hx. destruct (Hexit c' Hx) as [[-> ->]|[_ ->]].
      * do 2 right. left. split; [by eexists|]. split; [congruence|by left].
      * by left.
  - destruct (timers w !! t) as [tm|] eqn:Ht; [|done].
    destruct (t_pending tm) eqn:Hpen; [|done]. simplify_eq.
    unfold run_timer in Hc'. destruct (t_callback tm) as [pid0|sp] eqn:Hcb.
    + unfold on_startup_timeout in Hc'.
      destruct (children w !! pid0) as [c0|] eqn:Hc0;
        [|unfold doReject in Hc'; cbn in Hc'; rewrite Hc0 in Hc'; left;
          cbn in Hc'; congruence].
      destruct (cl_resolved c0) eqn:Hr0.
      { rewrite (doReject_settled pid0 _ (clearTimeout t w) c0 Hc0 Hr0) in Hc'.
        left. cbn in Hc'. congruence. }
      destruct (doReject_children pid0
                  "MongoDB subprocess startup timeout (30s)" (clearTimeout t w)
                  (Hoff pid0 c0 Hc0 Hr0)) as [Heq|(c1 & Hc1 & Hr1 & Heq)];
        rewrite Heq in Hc'; [left; cbn in Hc'; congruence|].
      destruct (Hset pid0 c1 [] Hc1 Hr1 Hc') as [?|?]; [|by auto|by auto].
      cbn. rewrite Ht. cbn. by rewrite Hcb, Nat.eqb_refl.
    + unfold stop_timeout in Hc'. cbn [this_process clearTimeout set_timers] in Hc'.
      destruct (this_process w) as [pid0|] eqn:Hp;
        [|left; cbn in Hc'; congruence].
      cbn in Hc'.
      apply lookup_alter_Some in Hc' as (y & Hy & [[-> ->]|[_ ->]]).
      * do 4 right. exists t, tm, sp. by simplify_eq.
      * left. congruence.
  - repeat case_match; try done.
    apply start_throws_inv in Hstep as [more ->]. left.
    cbn in Hc'. congruence.
Qed.

(* --------------------------------------------------------------------- *)
(* Timers that appear in a turn                                          *)
(* --------------------------------------------------------------------- *)

Lemma cleanup_timers_length pid w :
  length (timers (cleanup pid w)) = length (timers w).
Proof. unfold cleanup. repeat case_match; try done. cbn. by rewrite length_alter. Qed.

Lemma doResolve_timers_length pid w :
  length (timers (doResolve pid w)) = length (timers w).
Proof.
  unfold doResolve. repeat case_match; try done. cbn.
  by rewrite cleanup_timers_length.
Qed.

Lemma doReject_timers_length pid m w :
  (∀ c, children w !! pid = Some c → cl_resolved c = false →
        this_isRunning w = false) →
  length (timers (doReject pid m w)) = length (timers w).
Proof.
  intros Hoff. destruct (children w !! pid) as [c|] eqn:Hc;
    [|unfold doReject; by rewrite Hc].
  destruct (cl_resolved c) eqn:Hr; [by rewrite (doReject_settled pid m w c)|].
  rewrite (doReject_first pid m w c Hc Hr (Hoff c eq_refl Hr)). cbn.
  by rewrite cleanup_timers_length.
Qed.

Lemma on_exit_timers_length pid code w :
  length (timers (on_exit pid code w)) = length (timers w).
Proof.
  unfold on_exit. repeat case_match; try done.
  by rewrite doReject_timers_length.
Qed.

(* A timer that appears in a turn is the grace timer of a stop() that
   went ahead, or the startup timer of the child _start has spawned. *)
Lemma step_new_timer w e w' t tm' :
  Inv w → step w e = Some w' →
  timers w !! t = None → timers w' !! t = Some tm' →
  t = length (timers w)
  ∧ ((e = CallStop ∧ this_isRunning w = true
      ∧ (∃ pid, this_process w = Some pid)
      ∧ tm' = mkTimer 5000 (StopGrace (length (promises w))) true)
     ∨ ((∃ sid, e = ServerClosed sid)
        ∧ tm' = mkTimer 30000 (StartupTimeout (length (children w))) true)).
Proof.
  intros HI Hstep Hnone Ht'.
  assert (Hoff : ∀ pid0 c0, children w !! pid0 = Some c0 →
            cl_resolved c0 = false → this_isRunning w = false).
  { intros pid0 c0 Hc0 Hr0.
    by destruct (inv_unresolved w HI pid0 c0 Hc0 Hr0) as (_ & ? & _). }
  assert (Hlen : length (timers w') = length (timers w) → False).
  { intros Hlen. apply lookup_lt_Some in Ht'. apply lookup_ge_None in Hnone. lia. }
  destruct e; cbn [step] in Hstep.
  - simplify_eq. destruct Hlen. by rewrite start_timers.
  - simplify_eq.
    destruct (this_process w) as [pid0|] eqn:Hp;
      [|rewrite (stop_no_process w Hp) in Hlen; by destruct Hlen].
    destruct (this_isRunning w) eqn:Hr;
      [|rewrite (stop_not_running w Hr) in Hlen; by destruct Hlen].
    rewrite (stop_running w pid0 Hp Hr) in Ht'. cbn in Ht'.
    apply lookup_snoc_inv in Ht' as [Ht'|[-> ->]]; [congruence|].
    split; [done|]. left. split; [done|]. split; [done|]. split; [by eexists|done].
  - repeat case_match; simplify_eq; by destruct Hlen.
  - repeat case_match; try done. simplify_eq.
    destruct (start_resume_shape (sv_awaiter s)
                (set_servers (alter (server_set_state Closed) sid (servers w)) w))
      as (_ & Ht & _).
    cbn [children set_servers timers] in Ht. rewrite Ht in Ht'.
    apply lookup_snoc_inv in Ht' as [Ht'|[-> ->]]; [congruence|].
    split; [done|]. right. split; [by eexists|done].
  - repeat case_match; simplify_eq; by destruct Hlen.
  - case_match; [|done]. simplify_eq. destruct Hlen. unfold on_stdout_data.
    case_match; [apply doResolve_timers_length|done].
  - case_match; [|done]. simplify_eq. destruct Hlen. unfold on_stderr_data.
    case_match; [apply doResolve_timers_length|done].
  - case_match; [|done]. simplify_eq. destruct Hlen. unfold on_error.
    apply doReject_timers_length. intros c0. apply Hoff.
  - repeat case_match; try done. simplify_eq. destruct Hlen.
    unfold emit_exit. by rewrite stop_listeners_timers, on_exit_timers_length.
  - repeat case_match; try done. simplify_eq. destruct Hlen.
    unfold run_timer. destruct (t_callback _).
    + unfold on_startup_timeout. rewrite doReject_timers_length.
      * cbn. by rewrite length_alter.
      * intros c0. apply Hoff.
    + unfold stop_timeout. case_match; cbn; by rewrite length_alter.
  - repeat case_match; try done.
    apply start_throws_inv in Hstep as [more ->]. by destruct Hlen.
Qed.

(* --------------------------------------------------------------------- *)
(* Signals                                                               *)
(* --------------------------------------------------------------------- *)

Lemma Fulfilled_sticky w w' p :
  evolves w w' → promise_state w p = Some Fulfilled →
  promise_state w' p = Some Fulfilled.
Proof.
  intros He. unfold promise_state.
  destruct (promises w !! p) as [pr|] eqn:Hp; [|done]. cbn. intros Hf.
  destruct (ev_sticky _ _ He p pr Hp) as (pr' & Hp' & Hst).
  rewrite Hp'. cbn. assert (p_state pr = Fulfilled) as Hful by congruence.
  rewrite Hst; [by rewrite Hful|]. by rewrite Hful.
Qed.

Lemma head_snoc {A} (l : list A) x : l ≠ [] → head (l ++ [x]) = head l.
Proof. by destruct l. Qed.

Lemma Signalled_constructor host config : Signalled (constructor host config).
Proof. by split. Qed.

Lemma step_Signalled w e w' :
  Inv w → ready w → Signalled w → step w e = Some w' → Signalled w'.
Proof.
  intros HI HR HS Hstep.
  pose proof (step_evolves _ _ _ Hstep) as He.
  pose proof (step_keeps _ _ _ Hstep) as Hk.
  pose proof (step_Inv _ _ _ HI Hstep) as HI'.
  (* what the turn did to the signals and listeners of a child *)
  assert (Hcases : ∀ pid c', children w' !! pid = Some c' →
            (cp_kill_calls c' = [] ∧ cp_once_exit c' = [])
            ∨ ∃ c, children w !! pid = Some c
                   ∧ cl_promise c' = cl_promise c
                   ∧ ((cp_kill_calls c' = cp_kill_calls c
                       ∧ ∀ l, l ∈ cp_once_exit c' → l ∈ cp_once_exit c)
                      ∨ (this_process w = Some pid ∧ this_isRunning w = true
                         ∧ cp_kill_calls c'
                           = (cp_kill_calls c ++ [SIGTERM])%list)
                      ∨ (cp_kill_calls c ≠ []
                         ∧ cp_kill_calls c'
                           = (cp_kill_calls c ++ [SIGKILL])%list))).
  { intros pid c' Hc'. destruct (children w !! pid) as [c|] eqn:Hc.
    2:{ left. by destruct (step_new_child w e w' pid c' HI Hstep Hc Hc')
                as (_ & (p & ->) & _). }
    right. exists c. split; [done|]. split.
    { destruct (ev_children _ _ He pid c Hc) as (c'' & ? & ? & _). congruence. }
    destruct (step_child w e w' pid c c' HI Hstep Hc Hc')
      as [->|[(-> & _)|[(_ & _ & [->| ->])|[(_ & Hp & Hr & ->)
         |(t & tm & sp & _ & Ht & Hpen & Hcb & Hp & ->)]]]].
    - by left.
    - by left.
    - left. split; [done|]. intros l Hl. by apply elem_of_nil in Hl.
    - left. split; [done|]. intros l Hl. by apply elem_of_nil in Hl.
    - right. left. by cbn.
    - right. right. split; [|done].
      destruct (sg_grace w HS t tm sp Ht Hpen Hcb) as (pid' & c0 & Hp' & Hc0 & Hl).
      assert (pid' = pid) as -> by congruence.
      assert (c0 = c) as -> by congruence.
      by apply (sg_listener w HS pid c (t, sp)). }
  split.
  - intros pid c' Hc' Hne.
    destruct (Hcases pid c' Hc') as [[Hnil _]|(c & Hc & Hpr & Hcase)]; [done|].
    rewrite Hpr. apply (Fulfilled_sticky w); [done|].
    destruct Hcase as [[Hk' _]|[(Hp & Hr & _)|[Hne' _]]].
    + apply (sg_ready w HS pid); [done|congruence].
    + destruct (HR Hr) as (pid' & c0 & Hp' & Hc0 & Hful). congruence.
    + by apply (sg_ready w HS pid).
  - intros pid c' Hc' Hne.
    destruct (Hcases pid c' Hc') as [[Hnil _]|(c & Hc & Hpr & Hcase)]; [done|].
    destruct Hcase as [[Hk' _]|[(Hp & Hr & ->)|[Hne' ->]]].
    + rewrite Hk'. apply (sg_first w HS pid); [done|congruence].
    + destruct (cp_kill_calls c) as [|sig l] eqn:Hkc; [done|].
      rewrite head_snoc by done. rewrite <- Hkc.
      apply (sg_first w HS pid); [done|congruence].
    + rewrite head_snoc by done. by apply (sg_first w HS pid).
  - intros pid c' l Hc' Hl.
    destruct (Hcases pid c' Hc') as [[_ Hnil]|(c & Hc & Hpr & Hcase)].
    { rewrite Hnil in Hl. by apply elem_of_nil in Hl. }
    destruct Hcase as [[Hk' Hsub]|[(_ & _ & ->)|[_ ->]]].
    + rewrite Hk'. by apply (sg_listener w HS pid c l), Hsub.
    + by destruct (cp_kill_calls c).
    + by destruct (cp_kill_calls c).
  - intros t tm' sp Ht' Hpen' Hcb'.
    destruct (timers w !! t) as [tm|] eqn:Ht.
    + destruct (kp_timers _ _ Hk t tm Ht) as (tm2 & Ht2 & Hcb & _ & Hpen).
      assert (tm2 = tm') as -> by congruence.
      destruct (sg_grace w HS t tm sp Ht (Hpen Hpen')) as (pid & c & Hp & Hc & Hl);
        [congruence|].
      destruct (inv_process w HI pid Hp) as (c0 & Hc0 & Hex).
      assert (c0 = c) as -> by congruence.
      assert (Hdec : (∃ code, e = ProcessExit pid code)
                     ∨ ∀ code, e ≠ ProcessExit pid code).
      { destruct e; try (right; by intros).
        destruct (decide (pid0 = pid)) as [->|Hpid]; [left; by eexists|].
        right. intros code' ?. by simplify_eq. }
      destruct Hdec as [[code ->]|Hne].
      * cbn [step] in Hstep. rewrite Hc, Hex in Hstep. simplify_eq.
        unfold emit_exit in Ht'.
        destruct (kp_timers _ _ (keeps_child_exit pid w) t tm Ht)
          as (tm1 & Ht1 & _).
        destruct (kp_timers _ _ (keeps_on_exit pid code
                                   (alter_child child_exit pid w)) t tm1 Ht1)
          as (tm3 & Ht3 & _).
        destruct (stop_listeners_clear (cp_once_exit c) _ t sp tm3 Hl Ht3)
          as (tm4 & Ht4 & Hoff).
        congruence.
      * assert (Hp' : this_process w' = Some pid).
        { by apply (step_keeps_process w pid e w' HI Hp Hstep). }
        destruct (kp_children _ _ Hk pid c Hc) as (c' & Hc' & _ & _ & Hlive).
        destruct (inv_process w' HI' pid Hp') as (c1 & Hc1 & Hex1).
        assert (c1 = c') as -> by congruence.
        exists pid, c'. split; [done|]. split; [done|].
        by apply (Hlive Hex1).
    + destruct (step_new_timer w e w' t tm' HI Hstep Ht Ht')
        as (-> & [(-> & Hr & (pid & Hp) & ->)|(_ & ->)]); [|done].
      cbn in Hcb'. simplify_eq. cbn [step] in Hstep. simplify_eq.
      rewrite (stop_running w pid Hp Hr).
      destruct (inv_process w HI pid Hp) as (c & Hc & _).
      exists pid, (child_kill SIGTERM
                     (child_once_exit (length (timers w), length (promises w)) c)).
      split; [done|]. split.
      * cbn. by rewrite !list_lookup_alter_eq, Hc.
      * cbn. apply elem_of_app. right. by apply list_elem_of_singleton.
Qed.

Lemma run_Signalled es : ∀ w w',
  Inv w → ready w → Signalled w → run w es = Some w' → Signalled w'.
Proof.
  induction es as [|e es IH]; intros w w' HI HR HS Hrun; cbn [run] in Hrun.
  - by simplify_eq.
  - destruct (step w e) as [w1|] eqn:Hstep; [|done].
    apply (IH w1); [by eapply step_Inv|by eapply step_ready
                   |by eapply step_Signalled|done].
Qed.

Lemma reachable_Signalled host config es w :
  run (constructor host config) es = Some w → Signalled w.
Proof.
  apply run_Signalled;
    [apply Inv_constructor|apply ready_constructor|apply Signalled_constructor].
Qed.

Lemma signalled_has_stop host config es : ∀ w pid c,
  run (constructor host config) es = Some w →
  children w !! pid = Some c → cp_kill_calls c ≠ [] → CallStop ∈ es.
Proof.
  induction es as [|e es IH] using rev_ind; intros w pid c Hrun Hc Hne.
  { cbn in Hrun. by simplify_eq. }
  apply run_snoc in Hrun as (w1 & Hrun & Hstep).
  pose proof (reachable_Inv _ _ _ _ Hrun) as HI.
  pose proof (reachable_Signalled _ _ _ _ Hrun) as HS.
  apply elem_of_app.
  destruct (children w1 !! pid) as [c1|] eqn:Hc1.
  2:{ by destruct (step_new_child w1 e w pid c HI Hstep Hc1 Hc)
        as (_ & (p & ->) & _). }
  destruct (step_child w1 e w pid c1 c HI Hstep Hc1 Hc)
    as [->|[(-> & _)|[(_ & _ & [->| ->])|[(-> & _)
       |(t & tm & sp & _ & Ht & Hpen & Hcb & Hp & ->)]]]];
    try (left; by apply (IH w1 pid c1)).
  - right. by apply list_elem_of_singleton.
  - left. apply (IH w1 pid c1); [done|done|].
    destruct (sg_grace w1 HS t tm sp Ht Hpen Hcb) as (pid' & c0 & Hp' & Hc0 & Hl).
    assert (pid' = pid) as -> by congruence.
    assert (c0 = c1) as -> by congruence.
    by apply (sg_listener w1 HS pid c1 (t, sp)).
Qed.

(** X11: in every state the controller can reach, a child that has been
    sent a signal had reported ready (the promise of its startup attempt
    is fulfilled, and a chunk with the readiness marker from it has been
    received), stop() has been called, and the first signal it was sent
    is SIGTERM.  So a child whose startup attempt is pending or was
    rejected (error, timeout) has never been sent a signal by the
    controller. *)
Theorem signals_only_after_ready host config es w pid c :
  run (constructor host config) es = Some w →
  children w !! pid = Some c →
  cp_kill_calls c ≠ [] →
  head (cp_kill_calls c) = Some SIGTERM
  ∧ promise_state w (cl_promise c) = Some Fulfilled
  ∧ CallStop ∈ es
  ∧ ∃ e, e ∈ es ∧ marker_from pid e = true.
Proof.
  intros Hreach Hc Hne.
  pose proof (reachable_Signalled _ _ _ _ Hreach) as HS.
  split; [by apply (sg_first w HS pid)|].
  split; [by apply (sg_ready w HS pid)|].
  split; [by apply (signalled_has_stop host config es w pid c)|].
  apply (fulfilled_has_marker host config es w pid c); [done|done|].
  by apply (sg_ready w HS pid).
Qed.

Lemma signals_only_after_ready_witness :
  ∃ w c,
    run (constructor sample_host sample_config)
        (started ++ [CallStop; TimerFire 1]) = Some w
    ∧ children w !! 0 = Some c
    ∧ cp_kill_calls c = [SIGTERM; SIGKILL]
    ∧ promise_state w (cl_promise c) = Some Fulfilled.
Proof.
  eexists _, _. split; [vm_compute; reflexivity|].
  split; [vm_compute; reflexivity|]. split; [vm_compute; reflexivity|].
  refine (proj1 (proj2
            (signals_only_after_ready sample_host sample_config
               (started ++ [CallStop; TimerFire 1]) _ 0 _ _ _ _)));
    by_evaluation.
  all: by_evaluation.
  all: by_evaluation.
  discriminate.
Defined.

(** X12: in every state the controller can reach, a child whose startup
    attempt has not been fulfilled has received no signal and has no
    listener of stop() attached: after a startup timeout or an 'error'
    event the child is left as it is, neither SIGTERM nor SIGKILL is
    sent to it, whatever is called afterwards. *)
Theorem failed_child_is_never_signalled host config es w pid c st :
  run (constructor host config) es = Some w →
  children w !! pid = Some c →
  promise_state w (cl_promise c) = Some st → st ≠ Fulfilled →
  cp_kill_calls c = [] ∧ cp_once_exit c = [].
Proof.
  intros Hreach Hc Hst Hne.
  pose proof (reachable_Signalled _ _ _ _ Hreach) as HS.
  assert (Hk : cp_kill_calls c = []).
  { destruct (cp_kill_calls c) as [|sig l] eqn:Hkc; [done|].
    assert (promise_state w (cl_promise c) = Some Fulfilled) as Hf.
    { apply (sg_ready w HS pid c Hc). by rewrite Hkc. }
    congruence. }
  split; [done|].
  destruct (cp_once_exit c) as [|l ls] eqn:Hl; [done|].
  destruct (sg_listener w HS pid c l Hc); [|done].
  rewrite Hl. apply list_elem_of_here.
Qed.

Lemma failed_child_is_never_signalled_witness :
  ∃ w c,
    run (constructor sample_host sample_config)
        (spawned ++ [TimerFire 0; CallStop; CallStart; CallStop]) = Some w
    ∧ children w !! 0 = Some c
    ∧ cp_exited c = false
    ∧ cp_kill_calls c = [].
Proof.
  eexists _, _. split; [vm_compute; reflexivity|].
  split; [vm_compute; reflexivity|]. split; [vm_compute; reflexivity|].
  refine (proj1
            (failed_child_is_never_signalled sample_host sample_config
               (spawned ++ [TimerFire 0; CallStop; CallStart; CallStop]) _ 0 _
               (Rejected "MongoDB subprocess startup timeout (30s)")
               _ _ _ _));
    by_evaluation.
  all: by_evaluation.
  all: by_evaluation.
  discriminate.
Defined.

(* --------------------------------------------------------------------- *)
(* The startup timer                                                     *)
(* --------------------------------------------------------------------- *)

Lemma cleanup_clears f pid w c t tm :
  children w !! pid = Some c → cl_startupTimeout (f c) = Some t →
  timers w !! t = Some tm →
  timers (cleanup pid (alter_child f pid w)) !! t = Some (timer_off tm).
Proof.
  intros Hc Ht Htm. unfold cleanup. cbn [children alter_child set_children].
  rewrite list_lookup_alter_eq, Hc. cbn. rewrite Ht. cbn.
  by rewrite list_lookup_alter_eq, Htm.
Qed.

Lemma doResolve_clears pid w c t tm :
  children w !! pid = Some c → cl_resolved c = false →
  cl_startupTimeout c = Some t → timers w !! t = Some tm →
  timers (doResolve pid w) !! t = Some (timer_off tm).
Proof.
  intros Hc Hr Ht Htm. rewrite (doResolve_first pid w c Hc Hr).
  cbn [call_resolve set_promises set_isRunning timers].
  by apply (cleanup_clears child_set_resolved pid w c).
Qed.

Lemma doReject_clears pid m w c t tm :
  children w !! pid = Some c → cl_resolved c = false →
  this_isRunning w = false →
  cl_startupTimeout c = Some t → timers w !! t = Some tm →
  timers (doReject pid m w) !! t = Some (timer_off tm).
Proof.
  intros Hc Hr Hoff Ht Htm. rewrite (doReject_first pid m w c Hc Hr Hoff).
  cbn [call_reject set_promises timers].
  by apply (cleanup_clears child_set_resolved pid w c).
Qed.

(* The first signal of an attempt disarms its startup timer. *)
Lemma step_signal_clears w pid c t tm e o w' :
  Inv w → children w !! pid = Some c → cl_resolved c = false →
  cl_startupTimeout c = Some t → timers w !! t = Some tm →
  startup_signal w pid e = Some o → step w e = Some w' →
  ∃ tm', timers w' !! t = Some tm' ∧ t_pending tm' = false.
Proof.
  intros HI Hc Hr Ht Htm Hsig Hstep.
  destruct (inv_unresolved w HI pid c Hc Hr) as (Hex & Hoff & _).
  destruct e; cbn [startup_signal] in Hsig; try done; cbn [step] in Hstep.
  - destruct (Nat.eqb pid0 pid && has_marker data) eqn:Hm; [|done].
    apply andb_true_iff in Hm as [Heq Hm]. apply Nat.eqb_eq in Heq. subst pid0.
    rewrite Hc in Hstep. unfold on_stdout_data in Hstep. rewrite Hm in Hstep.
    simplify_eq. exists (timer_off tm). split; [|done].
    by apply (doResolve_clears pid w c).
  - destruct (Nat.eqb pid0 pid && has_marker data) eqn:Hm; [|done].
    apply andb_true_iff in Hm as [Heq Hm]. apply Nat.eqb_eq in Heq. subst pid0.
    rewrite Hc in Hstep. unfold on_stderr_data in Hstep. rewrite Hm in Hstep.
    simplify_eq. exists (timer_off tm). split; [|done].
    by apply (doResolve_clears pid w c).
  - destruct (Nat.eqb pid0 pid) eqn:Heq; [|done]. apply Nat.eqb_eq in Heq.
    subst pid0. rewrite Hc in Hstep. simplify_eq.
    exists (timer_off tm). split; [|done]. unfold on_error.
    by apply (doReject_clears pid _ w c).
  - destruct (Nat.eqb pid0 pid) eqn:Heq; [|done]. apply Nat.eqb_eq in Heq.
    subst pid0. rewrite Hc, Hex in Hstep. simplify_eq. unfold emit_exit.
    set (w2 := on_exit pid code (alter_child child_exit pid w)).
    assert (Hw2 : timers w2 !! t = Some (timer_off tm)).
    { unfold w2, on_exit.
      cbn [children set_process set_isRunning alter_child set_children].
      rewrite list_lookup_alter_eq, Hc. cbn [fmap option_fmap option_map child_exit cl_resolved].
      rewrite Hr.
      apply (doReject_clears pid _ _ (child_exit c)); try done.
      cbn. by rewrite list_lookup_alter_eq, Hc. }
    destruct (kp_timers _ _ (keeps_stop_listeners (cp_once_exit c) w2) t _ Hw2)
      as (tm' & Htm' & _ & _ & Hpen).
    exists tm'. split; [done|]. destruct (t_pending tm'); [|done].
    by specialize (Hpen eq_refl).
  - destruct (timers w !! t0) as [tm0|] eqn:Ht0; [|done]. cbn in Hsig.
    destruct (t_callback tm0) as [pid0|sp] eqn:Hcb; [|done].
    destruct (Nat.eqb pid0 pid) eqn:Heq; [|done]. apply Nat.eqb_eq in Heq.
    subst pid0. destruct (t_pending tm0); [|done]. simplify_eq.
    unfold run_timer, on_startup_timeout.
    assert (∃ tm1, timers (clearTimeout t0 w) !! t = Some tm1) as [tm1 Htm1].
    { apply lookup_lt_is_Some. cbn. rewrite length_alter.
      by eapply lookup_lt_Some. }
    exists (timer_off tm1). split; [|done].
    by apply (doReject_clears pid _ (clearTimeout t0 w) c).
Qed.

Lemma Timed_constructor host config : Timed (constructor host config).
Proof. by intros pid c Hc. Qed.

Lemma step_Timed w e w' : Inv w → Timed w → step w e = Some w' → Timed w'.
Proof.
  intros HI HT Hstep pid c' Hc'.
  pose proof (step_keeps _ _ _ Hstep) as Hk.
  pose proof (step_Inv _ _ _ HI Hstep) as HI'.
  destruct (children w !! pid) as [c|] eqn:Hc.
  2:{ destruct (step_new_child w e w' pid c' HI Hstep Hc Hc')
        as (-> & (p & ->) & Ht).
      exists (length (timers w)), (mkTimer 30000 (StartupTimeout (length (children w))) true).
      rewrite Ht, lookup_new. by cbn. }
  destruct (HT pid c Hc) as (t & tm & Hst & Htm & Hms & Hcb & Hpen).
  destruct (kp_children _ _ Hk pid c Hc) as (c'' & Hc'' & Hst' & _).
  assert (c'' = c') as -> by congruence.
  destruct (kp_timers _ _ Hk t tm Htm) as (tm' & Htm' & Hcb' & Hms' & Hpen').
  exists t, tm'. split; [congruence|]. split; [done|]. split; [congruence|].
  split; [congruence|].
  destruct (cl_resolved c) eqn:Hr.
  - cbn in Hpen.
    assert (cl_resolved c' = true) as ->.
    { destruct (step_child w e w' pid c c' HI Hstep Hc Hc')
        as [->|[(-> & _)|[(_ & _ & [->| ->])|[(_ & _ & _ & ->)
           |(? & ? & ? & _ & _ & _ & _ & _ & ->)]]]]; by cbn. }
    cbn. destruct (t_pending tm'); [|done]. rewrite Hpen' in Hpen; done.
  - destruct (startup_signal w pid e) as [o|] eqn:Hsig.
    + destruct (first_signal_state w pid c e o w' HI Hc Hr Hsig Hstep)
        as [Ho Hne].
      assert (cl_resolved c' = true) as ->.
      { destruct (cl_resolved c') eqn:Hr'; [done|].
        destruct (inv_unresolved w' HI' pid c' Hc' Hr') as (_ & _ & Hun).
        destruct (ev_children _ _ (step_evolves _ _ _ Hstep) pid c Hc)
          as (c2 & Hc2 & Hpr & _).
        assert (c2 = c') as -> by congruence.
        unfold untouched in Hun. rewrite Hpr in Hun. rewrite Hun in Ho.
        cbn in Ho. by simplify_eq. }
      destruct (step_signal_clears w pid c t tm e o w' HI Hc Hr Hst Htm Hsig Hstep)
        as (tm2 & Htm2 & Hoff).
      cbn. congruence.
    + destruct (step_no_signal w pid c e w' HI Hc Hr Hsig Hstep)
        as [(c2 & Hc2 & Hr2) Hkeep].
      assert (c2 = c') as -> by congruence. rewrite Hr2.
      rewrite (Hkeep t tm Htm Hcb) in Htm'. by simplify_eq.
Qed.

Lemma run_Timed es : ∀ w w', Inv w → Timed w → run w es = Some w' → Timed w'.
Proof.
  induction es as [|e es IH]; intros w w' HI HT Hrun; cbn [run] in Hrun.
  - by simplify_eq.
  - destruct (step w e) as [w1|] eqn:Hstep; [|done].
    apply (IH w1); [by eapply step_Inv|by eapply step_Timed|done].
Qed.

Lemma reachable_Timed host config es w :
  run (constructor host config) es = Some w → Timed w.
Proof. apply run_Timed; [apply Inv_constructor|apply Timed_constructor]. Qed.

(** X13: in every state the controller can reach, every child has the
    startup timer of _start: 30000 ms, running the timeout of that
    child.  The timer is pending exactly while the promise of the
    child's startup attempt is pending: the first signal that settles
    the attempt disarms it, and nothing disarms it before.  Hence the
    timeout cannot fire on an attempt that has settled, and when it
    fires the promise is rejected with the startup timeout message. *)
Theorem startup_timer_tracks_attempt host config es w pid c :
  run (constructor host config) es = Some w →
  children w !! pid = Some c →
  ∃ t tm,
    cl_startupTimeout c = Some t
    ∧ timers w !! t = Some tm
    ∧ t_ms tm = 30000%Z
    ∧ t_callback tm = StartupTimeout pid
    ∧ (t_pending tm = true ↔ promise_state w (cl_promise c) = Some Pending)
    ∧ (promise_state w (cl_promise c) ≠ Some Pending →
       step w (TimerFire t) = None)
    ∧ (promise_state w (cl_promise c) = Some Pending →
       ∃ w', step w (TimerFire t) = Some w'
             ∧ promise_state w' (cl_promise c)
               = Some (Rejected "MongoDB subprocess startup timeout (30s)")).
Proof.
  intros Hreach Hc. pose proof (reachable_Inv _ _ _ _ Hreach) as HI.
  destruct (reachable_Timed _ _ _ _ Hreach pid c Hc)
    as (t & tm & Hst & Htm & Hms & Hcb & Hpen).
  assert (Hiff : t_pending tm = true
                 ↔ promise_state w (cl_promise c) = Some Pending).
  { rewrite Hpen. unfold promise_state. destruct (cl_resolved c) eqn:Hr.
    - destruct (inv_resolved w HI pid c Hc Hr) as (st & Hne & Hp).
      rewrite Hp. cbn. split; [done|]. intros ?. by simplify_eq.
    - destruct (inv_unresolved w HI pid c Hc Hr) as (_ & _ & Hun).
      unfold untouched in Hun. by rewrite Hun. }
  exists t, tm. split; [done|]. split; [done|]. split; [done|].
  split; [done|]. split; [done|]. split.
  - intros Hne. cbn [step]. rewrite Htm.
    destruct (t_pending tm); [|done]. destruct Hne. by apply Hiff.
  - intros Hp. apply Hiff in Hp as Hpen'. cbn [step]. rewrite Htm, Hpen'.
    eexists. split; [done|].
    assert (Hr : cl_resolved c = false).
    { rewrite Hpen' in Hpen. by destruct (cl_resolved c). }
    destruct (first_signal_state w pid c (TimerFire t)
                (Rejected "MongoDB subprocess startup timeout (30s)")
                (run_timer (t_callback tm) (clearTimeout t w)) HI Hc Hr)
      as [Ho _]; [| |done].
    + cbn. by rewrite Htm; cbn; rewrite Hcb, Nat.eqb_refl.
    + cbn [step]. by rewrite Htm, Hpen'.
Qed.

Lemma startup_timer_tracks_attempt_witness :
  ∃ w c,
    run (constructor sample_host sample_config) started = Some w
    ∧ children w !! 0 = Some c
    ∧ ∃ t tm, cl_startupTimeout c = Some t ∧ timers w !! t = Some tm
              ∧ t_ms tm = 30000%Z.
Proof.
  eexists _, _. split; [vm_compute; reflexivity|].
  split; [vm_compute; reflexivity|].
  refine ((λ H, match H with
                | ex_intro _ t (ex_intro _ tm (conj H1 (conj H2 (conj H3 _)))) =>
                    ex_intro _ t (ex_intro _ tm (conj H1 (conj H2 H3)))
                end)
            (startup_timer_tracks_attempt sample_host sample_config started
               _ 0 _ _ _)); by_evaluation.
  all: by_evaluation.
  all: by_evaluation.
Defined.

(* --------------------------------------------------------------------- *)
(* Probes and the range of the port                                      *)
(* --------------------------------------------------------------------- *)





(* --------------------------------------------------------------------- *)
(* this.startupPromise                                                   *)
(* --------------------------------------------------------------------- *)










